(** * Gomoku AI difficulty system: the search-and-evaluation engine

    A shallow embedding of [src/ai_system.py] (class [GomokuAI]) and the
    verification of its specification.

    The engine works on a Python [List[List[int]]] that it mutates in
    place and restores (place / undo).  The embedding keeps that shape:
    - the grid is a list of rows of integers, [0] being an empty cell;
    - a subscript [board[r][c]] is a partial operation: outside the list
      it raises [IndexError], which is an outcome here;
    - methods that only read the grid are functions from the grid to an
      outcome; methods that write it are state transformers over the grid,
      so that what is left in the grid after a call, also after a call
      that raises, is part of the result;
    - a [while] loop is run with fuel, and running out of it is the
      outcome [Diverge];
    - scores are Python [int]s mixed with [math.inf] and [-math.inf];
      the Expert tier alone adds a binary64 position weight to them. *)

From Stdlib Require Import ZArith Lia Floats Sorted.
From stdpp Require Import base list strings.

Open Scope Z_scope.

(** ** Outcomes of a call *)

(** The three places of the source where a subscript can be out of range:
    a cell of the grid, [candidate_moves[0]], and [random.choice] (which
    raises [IndexError] on an empty sequence). *)
Inductive index_site : Type :=
| GridAccess
| FirstCandidate
| RandomChoice.

Inductive exn : Type :=
| IndexError (site : index_site).

Inductive outcome (A : Type) : Type :=
| Ret (a : A)
| Raise (e : exn)
| Diverge.

Arguments Ret {A} a.
Arguments Raise {A} e.
Arguments Diverge {A}.

Definition obind {A B} (m : outcome A) (k : A -> outcome B) : outcome B :=
  match m with
  | Ret a => k a
  | Raise e => Raise e
  | Diverge => Diverge
  end.

Declare Scope outcome_scope.
Delimit Scope outcome_scope with out.
Notation "x <- m ;; k" := (obind m (fun x => k))
  (at level 20, m at level 99, k at level 200, only parsing) : outcome_scope.

(** ** Scores: Python ints together with [math.inf] and [-math.inf] *)

Inductive score : Type :=
| NegInf
| Fin (z : Z)
| PosInf.

Definition score_leb (x y : score) : bool :=
  match x, y with
  | NegInf, _ => true
  | _, PosInf => true
  | Fin a, Fin b => a <=? b
  | _, _ => false
  end.

Definition score_ltb (x y : score) : bool := negb (score_leb y x).

(** Python's [max(a, b)] is [b] when [b > a] and [a] otherwise; [min(a, b)]
    is [b] when [b < a] and [a] otherwise. *)
Definition score_max (a b : score) : score := if score_ltb a b then b else a.
Definition score_min (a b : score) : score := if score_ltb b a then b else a.

(** ** The grid *)

Abbreviation board := (list (list Z)).
Definition move : Type := (Z * Z)%type.

Inductive AIDifficulty : Type :=
| BEGINNER
| INTERMEDIATE
| ADVANCE
| EXPERT.

(** [l[i]] with a checked index.  Every index the engine uses comes from
    [range] or is guarded by [0 <= r], so Python's wrap-around of negative
    indices is never exercised; a negative index counts as out of range. *)
Definition subscript {A} (l : list A) (i : Z) : outcome A :=
  if 0 <=? i then
    match l !! Z.to_nat i with
    | Some x => Ret x
    | None => Raise (IndexError GridAccess)
    end
  else Raise (IndexError GridAccess).

(** [board[r][c]] *)
Definition get_cell (b : board) (r c : Z) : outcome Z :=
  (row <- subscript b r ;; subscript row c)%out.

(** Stateful computations over the shared grid: the grid after the call
    and the outcome of the call. *)
Definition M (A : Type) : Type := board -> board * outcome A.

Definition mret {A} (a : A) : M A := fun b => (b, Ret a).

Definition mbind {A B} (m : M A) (k : A -> M B) : M B :=
  fun b =>
    match m b with
    | (b', Ret a) => k a b'
    | (b', Raise e) => (b', Raise e)
    | (b', Diverge) => (b', Diverge)
    end.

(** A method that only reads the grid, run inside a stateful one. *)
Definition read {A} (f : board -> outcome A) : M A := fun b => (b, f b).

Definition mraise {A} (e : exn) : M A := fun b => (b, Raise e).

Declare Scope M_scope.
Delimit Scope M_scope with M.
Notation "x <- m ;; k" := (mbind m (fun x => k))
  (at level 20, m at level 99, k at level 200, only parsing) : M_scope.
Notation "m ;;; k" := (mbind m (fun _ => k))
  (at level 20, k at level 200, only parsing) : M_scope.

(** [board[r][c] = v] *)
Definition set_cell (r c v : Z) : M unit :=
  fun b =>
    match subscript b r with
    | Ret row =>
        match subscript row c with
        | Ret _ => (<[Z.to_nat r := <[Z.to_nat c := v]> row]> b, Ret tt)
        | Raise e => (b, Raise e)
        | Diverge => (b, Diverge)
        end
    | Raise e => (b, Raise e)
    | Diverge => (b, Diverge)
    end.

(** ** Loops *)

(** [range(lo, hi)] *)
Definition zrange (lo hi : Z) : list Z :=
  map (fun k => lo + Z.of_nat k) (seq 0 (Z.to_nat (hi - lo))).

Definition range (n : Z) : list Z := zrange 0 n.

(** A [for] loop over a read-only body that leaves with [return True] as
    soon as the body says so, and ends in [return False]. *)
Fixpoint oany {A} (test : A -> outcome bool) (l : list A) : outcome bool :=
  match l with
  | [] => Ret false
  | x :: l' =>
      (t <- test x ;; if (t : bool) then Ret true else oany test l')%out
  end.

(** A [for] loop that updates an accumulator. *)
Fixpoint ofold {A S} (body : S -> A -> outcome S) (l : list A) (s : S)
  : outcome S :=
  match l with
  | [] => Ret s
  | x :: l' => (s' <- body s x ;; ofold body l' s')%out
  end.

(** A [for] loop over a stateful body that leaves with [return v] as soon
    as the body produces a value, and ends in [return None]. *)
Fixpoint mfirst {A B} (body : A -> M (option B)) (l : list A)
  : M (option B) :=
  match l with
  | [] => mret None
  | x :: l' =>
      (o <- body x ;;
       match o with
       | Some v => mret (Some v)
       | None => mfirst body l'
       end)%M
  end.

(** A stateful [for] loop that updates an accumulator. *)
Fixpoint mfold {A S} (body : S -> A -> M S) (l : list A) (s : S) : M S :=
  match l with
  | [] => mret s
  | x :: l' => (s' <- body s x ;; mfold body l' s')%M
  end.

Module GomokuAI.

(** [self.board_size = 15] *)
Definition board_size : Z := 15.

Definition in_board (r c : Z) : bool :=
  (0 <=? r) && (r <? board_size) && (0 <=? c) && (c <? board_size).

(** [directions = [(0, 1), (1, 0), (1, 1), (1, -1)]] *)
Definition directions : list (Z * Z) := [(0, 1); (1, 0); (1, 1); (1, -1)].

(** The loop shared by [_count_consecutive] and [_check_five_in_row]:
<<
    while 0 <= r < self.board_size and 0 <= c < self.board_size
          and board[r][c] == player:
        count += 1; r += dr; c += dc
>>
    The backward loop, which steps by [r -= dr; c -= dc], is this one with
    the direction negated.  With a direction other than [(0, 0)] the
    condition holds at most [board_size] times in a row. *)
Fixpoint count_while (fuel : nat) (b : board) (r c dr dc player count : Z)
  : outcome Z :=
  match fuel with
  | O => Diverge
  | S fuel' =>
      if in_board r c then
        (v <- get_cell b r c ;;
         if v =? player
         then count_while fuel' b (r + dr) (c + dc) dr dc player (count + 1)
         else Ret count)%out
      else Ret count
  end.

Definition while_fuel : nat := S (Z.to_nat board_size).

Definition _count_consecutive (b : board) (row col dr dc player : Z)
  : outcome Z :=
  (count <- count_while while_fuel b (row + dr) (col + dc) dr dc player 1 ;;
   count_while while_fuel b (row - dr) (col - dc) (- dr) (- dc) player count)%out.

Definition _check_five_in_row (b : board) (row col player : Z)
  : outcome bool :=
  oany (fun d : Z * Z =>
          let '(dr, dc) := d in
          (count <- count_while while_fuel b (row + dr) (col + dc)
                      dr dc player 1 ;;
           count <- count_while while_fuel b (row - dr) (col - dc)
                      (- dr) (- dc) player count ;;
           Ret (5 <=? count))%out)
       directions.

Definition _is_game_over (b : board) : outcome bool :=
  oany (fun i =>
     oany (fun j =>
        (v <- get_cell b i j ;;
         if negb (v =? 0)
         then (p <- get_cell b i j ;; _check_five_in_row b i j p)
         else Ret false)%out)
       (range board_size))
    (range board_size).

Definition _get_empty_positions (b : board) : outcome (list move) :=
  ofold (fun positions i =>
     ofold (fun positions j =>
        (v <- get_cell b i j ;;
         if v =? 0 then Ret (positions ++ [(i, j)]) else Ret positions)%out)
       (range board_size) positions)
    (range board_size) [].

Definition _has_neighbors (b : board) (pos : move) : outcome bool :=
  let '(row, col) := pos in
  oany (fun i =>
     oany (fun j =>
        if negb (i =? row) || negb (j =? col)
        then (v <- get_cell b i j ;; Ret (negb (v =? 0)))%out
        else Ret false)
       (zrange (Z.max 0 (col - 2)) (Z.min board_size (col + 3))))
    (zrange (Z.max 0 (row - 2)) (Z.min board_size (row + 3))).

Definition near_center (pos : move) : bool :=
  let center := board_size / 2 in
  (Z.abs (fst pos - center) <=? 2) && (Z.abs (snd pos - center) <=? 2).

Definition is_nil {A} (l : list A) : bool :=
  match l with [] => true | _ => false end.

Definition _get_candidate_moves (b : board) : outcome (list move) :=
  (empty_positions <- _get_empty_positions b ;;
   candidates <-
     ofold (fun candidates pos =>
              (h <- _has_neighbors b pos ;;
               if (h : bool) then Ret (candidates ++ [pos]) else Ret candidates))
           empty_positions [] ;;
   let candidates :=
     if is_nil candidates && negb (is_nil empty_positions)
     then List.filter near_center empty_positions
     else candidates in
   Ret (if is_nil candidates then empty_positions else candidates))%out.

Definition _evaluate_direction (b : board) (row col dr dc player : Z)
  : outcome Z :=
  let five := 100000 in
  let live_four := 10000 in
  let live_three := 1000 in
  let live_two := 100 in
  (count <- _count_consecutive b row col dr dc player ;;
   Ret (if 5 <=? count then five
        else if count =? 4 then live_four
        else if count =? 3 then live_three
        else if count =? 2 then live_two
        else 0))%out.

Definition _evaluate_position (b : board) (row col player : Z) : outcome Z :=
  ofold (fun score d =>
           let '(dr, dc) := (d : Z * Z) in
           (s <- _evaluate_direction b row col dr dc player ;;
            Ret (score + s))%out)
        directions 0.

Definition _evaluate_board (b : board) (player : Z) : outcome Z :=
  let opponent := 3 - player in
  ofold (fun score i =>
     ofold (fun score j =>
        (v <- get_cell b i j ;;
         if v =? player
         then (s <- _evaluate_position b i j player ;; Ret (score + s))
         else
           (v' <- get_cell b i j ;;
            if v' =? opponent
            then (s <- _evaluate_position b i j opponent ;; Ret (score - s))
            else Ret score))%out)
       (range board_size) score)
    (range board_size) 0.

(** [_find_winning_move]: the first empty cell, in row-major order, where
    a stone of [player] completes five; every trial stone is taken back. *)
Definition _find_winning_move (player : Z) : M (option move) :=
  mfirst (fun i =>
     mfirst (fun j =>
        (v <- read (fun b => get_cell b i j) ;;
         if v =? 0 then
           (set_cell i j player ;;;
            w <- read (fun b => _check_five_in_row b i j player) ;;
            if (w : bool)
            then (set_cell i j 0 ;;; mret (Some (i, j)))
            else (set_cell i j 0 ;;; mret None))
         else mret None)%M)
       (range board_size))
    (range board_size).

Definition _find_defensive_move (current_player : Z) : M (option move) :=
  let opponent := 3 - current_player in
  mfirst (fun i =>
     mfirst (fun j =>
        (v <- read (fun b => get_cell b i j) ;;
         if v =? 0 then
           (set_cell i j opponent ;;;
            w <- read (fun b => _check_five_in_row b i j opponent) ;;
            if (w : bool)
            then (set_cell i j 0 ;;; mret (Some (i, j)))
            else (set_cell i j 0 ;;; mret None))
         else mret None)%M)
       (range board_size))
    (range board_size).

Definition _evaluate_move_threat (mv : move) (player : Z) : M Z :=
  let '(row, col) := mv in
  (set_cell row col player ;;;
   threat_score <-
     read (fun b =>
       ofold (fun threat_score d =>
                let '(dr, dc) := (d : Z * Z) in
                (count <- _count_consecutive b row col dr dc player ;;
                 Ret (if 4 <=? count then threat_score + 1000
                      else if count =? 3 then threat_score + 100
                      else if count =? 2 then threat_score + 10
                      else threat_score))%out)
             directions 0) ;;
   set_cell row col 0 ;;;
   mret threat_score)%M.

(** [scored_moves.sort(reverse=True, key=lambda x: x[0])]: Python's sort is
    stable, also with [reverse=True]: pairs of equal score keep their
    order.  Insertion from the right, each pair going in front of the first
    pair whose score is not greater, is such a sort. *)
Fixpoint insert_desc (x : Z * move) (l : list (Z * move)) : list (Z * move) :=
  match l with
  | [] => [x]
  | y :: l' => if fst x <? fst y then y :: insert_desc x l' else x :: l
  end.

Definition sort_desc (l : list (Z * move)) : list (Z * move) :=
  foldr insert_desc [] l.

Definition _get_priority_moves (player : Z) : M (list move) :=
  (candidates <- read _get_candidate_moves ;;
   scored_moves <-
     mfold (fun scored_moves mv =>
              (s <- _evaluate_move_threat mv player ;;
               mret (scored_moves ++ [(s, mv)]))%M)
           candidates [] ;;
   mret (map snd (take 10 (sort_desc scored_moves))))%M.

(** The loop of a maximizing node of [_minimax]; [rec alpha beta] is the
    recursive call on the grid with the stone placed. *)
Fixpoint max_loop (rec : score -> score -> M score) (player : Z)
    (moves : list move) (max_eval alpha beta : score) : M score :=
  match moves with
  | [] => mret max_eval
  | (row, col) :: rest =>
      (set_cell row col player ;;;
       eval <- rec alpha beta ;;
       set_cell row col 0 ;;;
       let max_eval := score_max max_eval eval in
       let alpha := score_max alpha eval in
       if score_leb beta alpha then mret max_eval
       else max_loop rec player rest max_eval alpha beta)%M
  end.

(** The loop of a minimizing node. *)
Fixpoint min_loop (rec : score -> score -> M score) (opponent : Z)
    (moves : list move) (min_eval alpha beta : score) : M score :=
  match moves with
  | [] => mret min_eval
  | (row, col) :: rest =>
      (set_cell row col opponent ;;;
       eval <- rec alpha beta ;;
       set_cell row col 0 ;;;
       let min_eval := score_min min_eval eval in
       let beta := score_min beta eval in
       if score_leb beta alpha then mret min_eval
       else min_loop rec opponent rest min_eval alpha beta)%M
  end.

(** [_minimax].  The depth is the number of plies left: the callers pass
    2, 4 and 6 and each call passes [depth - 1] down to [0]. *)
Fixpoint _minimax (depth : nat) (is_maximizing : bool) (player : Z)
    (alpha beta : score) : M score :=
  match depth with
  | O => (v <- read (fun b => _evaluate_board b player) ;; mret (Fin v))%M
  | S depth' =>
      (over <- read _is_game_over ;;
       if (over : bool) then
         (v <- read (fun b => _evaluate_board b player) ;; mret (Fin v))
       else if is_maximizing then
         (moves <- read _get_candidate_moves ;;
          max_loop (_minimax depth' false player) player moves
                   NegInf alpha beta)
       else
         let opponent := 3 - player in
         (moves <- read _get_candidate_moves ;;
          min_loop (_minimax depth' true player) opponent moves
                   PosInf alpha beta))%M
  end.

(** [best_move or candidate_moves[0]]: a move is a pair, which is never
    falsy, so the fallback is taken exactly when [best_move] is [None]. *)
Definition best_or_first (best_move : option move) (candidate_moves : list move)
  : M move :=
  match best_move with
  | Some mv => mret mv
  | None =>
      match candidate_moves with
      | mv :: _ => mret mv
      | [] => mraise (IndexError FirstCandidate)
      end
  end.

(** The body of the root loop of [_intermediate_move] and [_advance_move],
    which differ in the depth only. *)
Definition root_step (depth : nat) (current_player : Z)
    (best : score * option move) (mv : move) : M (score * option move) :=
  let '(row, col) := mv in
  (set_cell row col current_player ;;;
   score <- _minimax depth false current_player NegInf PosInf ;;
   set_cell row col 0 ;;;
   mret (if score_ltb (fst best) score then (score, Some mv) else best))%M.

Definition _intermediate_move (current_player : Z) : M move :=
  (candidate_moves <- read _get_candidate_moves ;;
   best <- mfold (root_step 2 current_player) candidate_moves (NegInf, None) ;;
   best_or_first (snd best) candidate_moves)%M.

Definition _advance_move (current_player : Z) : M move :=
  (candidate_moves <- read _get_candidate_moves ;;
   best <- mfold (root_step 4 current_player) candidate_moves (NegInf, None) ;;
   best_or_first (snd best) candidate_moves)%M.

(** Python converts an [int] to the nearest binary64 number when it meets a
    float; the integers of the engine are small enough to be exact. *)
Definition float_of_Z (z : Z) : float :=
  if z <? 0 then PrimFloat.opp (PrimFloat.of_uint63 (Uint63.of_Z (- z)))
  else PrimFloat.of_uint63 (Uint63.of_Z z).

Definition float_of_score (s : score) : float :=
  match s with
  | NegInf => neg_infinity
  | Fin z => float_of_Z z
  | PosInf => infinity
  end.

Definition _position_weight (row col : Z) : float :=
  let center := board_size / 2 in
  let distance :=
    PrimFloat.sqrt (float_of_Z ((row - center) ^ 2 + (col - center) ^ 2)) in
  PrimFloat.mul (PrimFloat.sub (float_of_Z center) distance) (float_of_Z 10).

Definition expert_step (current_player : Z) (best : float * option move)
    (mv : move) : M (float * option move) :=
  let '(row, col) := mv in
  (set_cell row col current_player ;;;
   score <- _minimax 6 false current_player NegInf PosInf ;;
   let score :=
     PrimFloat.add (float_of_score score) (_position_weight row col) in
   set_cell row col 0 ;;;
   mret (if PrimFloat.ltb (fst best) score then (score, Some mv) else best))%M.

Definition _enhanced_minimax_move (current_player : Z) : M move :=
  (candidate_moves <- _get_priority_moves current_player ;;
   best <- mfold (expert_step current_player) candidate_moves
                 (neg_infinity, None) ;;
   best_or_first (snd best) candidate_moves)%M.

(** The body of [_expert_move], with the method it calls last,
    [self._enhanced_minimax_move], as a parameter. *)
Definition expert_policy (search : Z -> M move) (current_player : Z) : M move :=
  (winning_move <- _find_winning_move current_player ;;
   match winning_move with
   | Some mv => mret mv
   | None =>
       (defensive_move <- _find_winning_move (3 - current_player) ;;
        match defensive_move with
        | Some mv => mret mv
        | None => search current_player
        end)
   end)%M.

Definition _expert_move : Z -> M move := expert_policy _enhanced_minimax_move.

(** The two draws of [_beginner_move]: the value of [random.random()] and
    the position [random.choice] picks. *)
Record rng : Type := { random_random : float; choice_index : nat }.

Definition random_choice {A} (g : rng) (l : list A) : M A :=
  match l !! (choice_index g mod length l)%nat with
  | Some x => mret x
  | None => mraise (IndexError RandomChoice)
  end.

(** The literal [0.3] of the source is the binary64 number nearest to
    three tenths. *)
Definition threshold_03 : float := 0x1.3333333333333p-2%float.

Definition _beginner_move (g : rng) (current_player : Z) : M move :=
  (empty_positions <- read _get_empty_positions ;;
   if PrimFloat.ltb (random_random g) threshold_03 then
     (defensive_move <- _find_defensive_move current_player ;;
      match defensive_move with
      | Some mv => mret mv
      | None => random_choice g empty_positions
      end)
   else random_choice g empty_positions)%M.

Definition get_move (difficulty : AIDifficulty) (g : rng)
    (current_player : Z) : M move :=
  match difficulty with
  | BEGINNER => _beginner_move g current_player
  | INTERMEDIATE => _intermediate_move current_player
  | ADVANCE => _advance_move current_player
  | EXPERT => _expert_move current_player
  end.

End GomokuAI.


(** * The game session: class [HumanVsAI] of [src/ai_system.py]

    Python strings are kept as their UTF-8 bytes: concatenation and
    equality of [str] values are concatenation and equality of these.
    [str.lower] is a parameter of the methods that call it. *)

(** [AIDifficulty.X.value] *)
Definition AIDifficulty_value (d : AIDifficulty) : string :=
  match d with
  | BEGINNER => "beginner"
  | INTERMEDIATE => "intermediate"
  | ADVANCE => "advance"
  | EXPERT => "expert"
  end.

(** [AIDifficulty(v)]: the member with the value [v]; [None] stands for
    the [ValueError] that Python raises when there is none. *)
Definition AIDifficulty_call (v : string) : option AIDifficulty :=
  if String.eqb v "beginner" then Some BEGINNER
  else if String.eqb v "intermediate" then Some INTERMEDIATE
  else if String.eqb v "advance" then Some ADVANCE
  else if String.eqb v "expert" then Some EXPERT
  else None.

(** [GomokuAI._get_max_depth]: [depth_map.get(self.difficulty, 2)]. *)
Definition _get_max_depth (difficulty : AIDifficulty) : Z :=
  match difficulty with
  | BEGINNER => 0
  | INTERMEDIATE => 2
  | ADVANCE => 4
  | EXPERT => 6
  end.

Module HumanVsAI.

(** The attributes of an instance. *)
Record instance : Type := {
  current_difficulty : AIDifficulty;
  ai_color : Z;
  human_color : Z;
  board_size : Z;
  max_depth : Z
}.

Definition __init__ : instance :=
  {| current_difficulty := INTERMEDIATE;
     ai_color := 2;
     human_color := 1;
     board_size := 15;
     max_depth := 2 |}.

Section WithLower.

(** [str.lower] *)
Variable lower : string -> string.

(** The instance after the call, and the message returned. *)
Definition set_difficulty (difficulty : string) (self : instance)
  : instance * string :=
  match AIDifficulty_call (lower difficulty) with
  | Some d =>
      ({| current_difficulty := d;
          ai_color := ai_color self;
          human_color := human_color self;
          board_size := board_size self;
          max_depth := max_depth self |},
       "AI难度已设置为: " +:+ AIDifficulty_value d)
  | None =>
      (self,
       "无效难度: " +:+ difficulty
       +:+ "，可用: beginner, intermediate, advance, expert")
  end.

Definition set_ai_color (color : string) (self : instance)
  : instance * string :=
  if bool_decide (In (lower color) ["black"; "黑棋"; "先手"]) then
    ({| current_difficulty := current_difficulty self;
        ai_color := 1;
        human_color := 2;
        board_size := board_size self;
        max_depth := max_depth self |},
     "AI执黑棋（先手）")
  else
    ({| current_difficulty := current_difficulty self;
        ai_color := 2;
        human_color := 1;
        board_size := board_size self;
        max_depth := max_depth self |},
     "AI执白棋（后手）").

End WithLower.

(** [GomokuAI(self.current_difficulty).get_move(board, self.ai_color)];
    [g] is what the [random] module gives during the call. *)
Definition get_ai_move (self : instance) (g : GomokuAI.rng) : M move :=
  GomokuAI.get_move (current_difficulty self) g (ai_color self).

Definition is_ai_turn (self : instance) (current_player : Z) : bool :=
  current_player =? ai_color self.

End HumanVsAI.

(** * Position analysis: the pattern searches of [src/tools/evaluation.py]

    The functions work on the board object of [tools/gomoku_game.py]
    through two attributes: [size], which they only read, and [board],
    the grid of [Player] values, which they write in place and restore.
    The class of the board and the enumeration [Player] are declared
    outside these sources: the type of the cells and its member [EMPTY]
    are parameters, with [==] a decidable equality, and [size] is an
    argument. *)

Module Evaluation.

Section WithPlayer.

Context {Player : Type} `{EqDecision Player}.

(** [Player.EMPTY] *)
Variable EMPTY : Player.

Local Abbreviation grid := (list (list Player)).

(** [board.board[r][c]] *)
Definition board_get (g : grid) (r c : Z) : outcome Player :=
  (row <- subscript g r ;; subscript row c)%out.

(** Stateful computations over the grid of the board object. *)
Definition St (A : Type) : Type := grid -> grid * outcome A.

Definition st_ret {A} (a : A) : St A := fun g => (g, Ret a).

Definition st_bind {A B} (m : St A) (k : A -> St B) : St B :=
  fun g =>
    match m g with
    | (g', Ret a) => k a g'
    | (g', Raise e) => (g', Raise e)
    | (g', Diverge) => (g', Diverge)
    end.

Definition st_read {A} (f : grid -> outcome A) : St A := fun g => (g, f g).

(** [board.board[r][c] = v] *)
Definition board_set (r c : Z) (v : Player) : St unit :=
  fun g =>
    match subscript g r with
    | Ret row =>
        match subscript row c with
        | Ret _ => (<[Z.to_nat r := <[Z.to_nat c := v]> row]> g, Ret tt)
        | Raise e => (g, Raise e)
        | Diverge => (g, Diverge)
        end
    | Raise e => (g, Raise e)
    | Diverge => (g, Diverge)
    end.

(** A stateful [for] loop that updates an accumulator. *)
Fixpoint st_fold {A S} (body : S -> A -> St S) (l : list A) (s : S) : St S :=
  match l with
  | [] => st_ret s
  | x :: l' => st_bind (body s x) (fun s' => st_fold body l' s')
  end.

(** A [for] loop that adds one to [count] while the body says so and
    leaves by [break] when it does not. *)
Fixpoint count_until {A} (test : A -> outcome bool) (l : list A) (count : Z)
  : outcome Z :=
  match l with
  | [] => Ret count
  | x :: l' =>
      (t <- test x ;;
       if (t : bool) then count_until test l' (count + 1) else Ret count)%out
  end.

(** [0 <= nr < board.size and 0 <= nc < board.size
     and board.board[nr][nc] == player] *)
Definition stone_at (size : Z) (g : grid) (nr nc : Z) (player : Player)
  : outcome bool :=
  if (0 <=? nr) && (nr <? size) && (0 <=? nc) && (nc <? size)
  then (v <- board_get g nr nc ;; Ret (bool_decide (v = player)))%out
  else Ret false.

Definition _check_pattern_at (size : Z) (g : grid) (row col : Z)
    (player : Player) (target_count : Z) : outcome bool :=
  oany (fun d : Z * Z =>
          let '(dr, dc) := d in
          (count <- count_until
                      (fun i => stone_at size g (row + dr * i) (col + dc * i)
                                  player)
                      (zrange 1 5) 1 ;;
           count <- count_until
                      (fun i => stone_at size g (row - dr * i) (col - dc * i)
                                  player)
                      (zrange 1 5) count ;;
           Ret (target_count <=? count))%out)
       [(0, 1); (1, 0); (1, 1); (1, -1)].

Definition _find_threats (size : Z) (player : Player) : St (list move) :=
  st_fold (fun threats i =>
    st_fold (fun threats j =>
      st_bind (st_read (fun g => board_get g i j)) (fun v =>
      if bool_decide (v = EMPTY) then
        st_bind (board_set i j player) (fun _ =>
        st_bind (st_read (fun g => _check_pattern_at size g i j player 4))
          (fun t =>
        let threats := if (t : bool) then threats ++ [(i, j)] else threats in
        st_bind (board_set i j EMPTY) (fun _ =>
        st_ret threats)))
      else st_ret threats))
      (range size) threats)
    (range size) [].

Definition _find_attacking_moves (size : Z) (player : Player)
  : St (list move) :=
  st_fold (fun attacking_moves i =>
    st_fold (fun attacking_moves j =>
      st_bind (st_read (fun g => board_get g i j)) (fun v =>
      if bool_decide (v = EMPTY) then
        st_bind (board_set i j player) (fun _ =>
        st_bind (st_read (fun g => _check_pattern_at size g i j player 3))
          (fun t =>
        let attacking_moves :=
          if (t : bool) then attacking_moves ++ [(i, j)]
          else attacking_moves in
        st_bind (board_set i j EMPTY) (fun _ =>
        st_ret attacking_moves)))
      else st_ret attacking_moves))
      (range size) attacking_moves)
    (range size) [].

Definition _find_center_moves (size : Z) (g : grid) : outcome (list move) :=
  let center := size / 2 in
  ofold (fun center_moves i =>
    ofold (fun center_moves j =>
      (v <- board_get g i j ;;
       Ret (if bool_decide (v = EMPTY) then center_moves ++ [(i, j)]
            else center_moves))%out)
      (zrange (Z.max 0 (center - 2)) (Z.min size (center + 3)))
      center_moves)
    (zrange (Z.max 0 (center - 2)) (Z.min size (center + 3))) [].

End WithPlayer.

End Evaluation.

(** * The engine's view of the game: [ai_make_move] of [src/agent_builder.py]

    [ai_make_move] copies the grid of the board object, cell by cell, into
    a fresh list of rows of integers and hands that list to
    [HumanVsAI.get_ai_move].  [Player.BLACK] and [Player.WHITE] are
    parameters, as [Player] is. *)

Module AgentBuilder.

Section WithPlayer.

Context {Player : Type} `{EqDecision Player}.

(** [Player.BLACK] and [Player.WHITE] *)
Variables BLACK WHITE : Player.

(** The list [ai_board] that the two nested loops build from [board.size]
    and [board.board]. *)
Definition ai_board (size : Z) (g : list (list Player)) : outcome board :=
  ofold (fun ai_board i =>
           (row <- ofold (fun row j =>
                            (v <- Evaluation.board_get g i j ;;
                             Ret (if bool_decide (v = BLACK) then row ++ [1]
                                  else if bool_decide (v = WHITE)
                                       then row ++ [2]
                                       else row ++ [0]))%out)
                         (range size) [] ;;
            Ret (ai_board ++ [row]))%out)
        (range size) [].

(** [move = human_vs_ai.get_ai_move(ai_board)]: the move that goes to
    [make_move]. *)
Definition ai_move (human_vs_ai : HumanVsAI.instance) (rnd : GomokuAI.rng)
    (size : Z) (g : list (list Player)) : outcome move :=
  (ai_board <- ai_board size g ;;
   snd (HumanVsAI.get_ai_move human_vs_ai rnd ai_board))%out.

End WithPlayer.

End AgentBuilder.

Import GomokuAI.

(** * Specification vocabulary *)

(** The first value a body produces over a list. *)
Fixpoint first_some {A B} (g : A -> option B) (l : list A) : option B :=
  match l with
  | [] => None
  | x :: l' => match g x with Some v => Some v | None => first_some g l' end
  end.

(** ** Grids *)

(** [board[r][c]] can be read. *)
Definition readable (b : board) (r c : Z) : bool :=
  match get_cell b r c with Ret _ => true | _ => false end.

(** The grid holds the board: every cell the engine addresses, one of the
    [board_size] first entries of one of the [board_size] first rows, can
    be read. *)
Definition grid_ok (b : board) : bool :=
  forallb (fun i => forallb (fun j => readable b i j) (range board_size))
          (range board_size).

(** The grid is exactly [board_size] by [board_size]. *)
Definition is_15x15 (b : board) : bool :=
  (length b =? Z.to_nat board_size)%nat
  && forallb (fun row => (length row =? Z.to_nat board_size)%nat) b.

(** The content of a cell, and [0] where there is none. *)
Definition cell (b : board) (r c : Z) : Z :=
  match get_cell b r c with Ret v => v | _ => 0 end.

(** The grid after [board[r][c] = v]. *)
Definition place (b : board) (r c v : Z) : board := fst (set_cell r c v b).

(** The pairs [(i, j)] that a loop over [j in f i] nested in a loop over
    [i in l] goes through, in that order. *)
Definition pairs {A B} (l : list A) (f : A -> list B) : list (A * B) :=
  flat_map (fun i => map (pair i) (f i)) l.

(** The cells of the board in row-major order. *)
Definition all_cells : list move :=
  pairs (range board_size) (fun _ => range board_size).

(** The number of successive cells that hold [player], from [(r, c)] on
    in steps of [(dr, dc)], looking at [n] cells at most. *)
Fixpoint run_len (n : nat) (b : board) (r c dr dc player : Z) : Z :=
  match n with
  | O => 0
  | S n' =>
      if in_board r c && (cell b r c =? player)
      then 1 + run_len n' b (r + dr) (c + dc) dr dc player
      else 0
  end.

(** The length of the run through [(row, col)] along [(dr, dc)], the cell
    [(row, col)] itself counted whatever it holds. *)
Definition run_through (b : board) (row col dr dc player : Z) : Z :=
  1 + run_len (Z.to_nat board_size) b (row + dr) (col + dc) dr dc player
    + run_len (Z.to_nat board_size) b (row - dr) (col - dc) (- dr) (- dc) player.

(** A stone of [p] at [(row, col)] would stand in a run of five or more
    along one of the four directions. *)
Definition five_through (b : board) (row col p : Z) : bool :=
  existsb (fun d => 5 <=? run_through b row col (fst d) (snd d) p) directions.

(** Some stone of the grid stands in a run of five or more of its colour. *)
Definition game_over (b : board) : bool :=
  existsb (fun ij =>
             negb (cell b (fst ij) (snd ij) =? 0)
             && five_through b (fst ij) (snd ij) (cell b (fst ij) (snd ij)))
          all_cells.

Definition category_score (count : Z) : Z :=
  if 5 <=? count then 100000
  else if count =? 4 then 10000
  else if count =? 3 then 1000
  else if count =? 2 then 100
  else 0.

Definition position_value (b : board) (row col p : Z) : Z :=
  fold_left (fun s d => s + category_score (run_through b row col (fst d) (snd d) p))
            directions 0.

Definition board_value (b : board) (p : Z) : Z :=
  fold_left (fun s ij =>
               if cell b (fst ij) (snd ij) =? p
               then s + position_value b (fst ij) (snd ij) p
               else if cell b (fst ij) (snd ij) =? 3 - p
               then s - position_value b (fst ij) (snd ij) (3 - p)
               else s)
            all_cells 0.

(** The empty cells, in row-major order. *)
Definition empty_cells (b : board) : list move :=
  List.filter (fun ij => cell b (fst ij) (snd ij) =? 0) all_cells.

(** Some cell other than [pos] within Chebyshev distance 2 of it is not
    empty. *)
Definition stone_nearby (b : board) (pos : move) : bool :=
  existsb (fun ij =>
             (Z.abs (fst ij - fst pos) <=? 2) && (Z.abs (snd ij - snd pos) <=? 2)
             && negb ((fst ij =? fst pos) && (snd ij =? snd pos))
             && negb (cell b (fst ij) (snd ij) =? 0))
          all_cells.

(** The three-stage rule of the move generator: the empty cells with a
    stone nearby; failing that, the empty cells within Chebyshev distance
    2 of the centre; failing that, all the empty cells. *)
Definition candidates (b : board) : list move :=
  let with_neighbours := List.filter (stone_nearby b) (empty_cells b) in
  let central := List.filter near_center (empty_cells b) in
  if is_nil with_neighbours
  then (if is_nil central then empty_cells b else central)
  else with_neighbours.

(** A stone of [p] on the empty cell [ij] completes five. *)
Definition wins (b : board) (p : Z) (ij : move) : bool :=
  (cell b (fst ij) (snd ij) =? 0)
  && five_through (place b (fst ij) (snd ij) p) (fst ij) (snd ij) p.

(** The coarse weight of [_evaluate_move_threat]. *)
Definition threat_weight (count : Z) : Z :=
  if 4 <=? count then 1000
  else if count =? 3 then 100
  else if count =? 2 then 10
  else 0.

Definition move_threat (b : board) (mv : move) (p : Z) : Z :=
  fold_left (fun s d =>
               s + threat_weight
                     (run_through (place b (fst mv) (snd mv) p)
                                  (fst mv) (snd mv) (fst d) (snd d) p))
            directions 0.

Definition priority_moves (b : board) (p : Z) : list move :=
  map snd (take 10 (sort_desc (map (fun mv => (move_threat b mv p, mv))
                                   (candidates b)))).

(** ** The exhaustive search *)

(** Minimax without bounds and without pruning: every candidate of every
    node is searched.  It uses the candidate generator and the terminal
    evaluation of the engine, and the same place / undo on the grid. *)
Fixpoint exhaustive_max_loop (rec : M score) (player : Z) (moves : list move)
    (max_eval : score) : M score :=
  match moves with
  | [] => mret max_eval
  | (row, col) :: rest =>
      (set_cell row col player ;;;
       eval <- rec ;;
       set_cell row col 0 ;;;
       exhaustive_max_loop rec player rest (score_max max_eval eval))%M
  end.

Fixpoint exhaustive_min_loop (rec : M score) (opponent : Z) (moves : list move)
    (min_eval : score) : M score :=
  match moves with
  | [] => mret min_eval
  | (row, col) :: rest =>
      (set_cell row col opponent ;;;
       eval <- rec ;;
       set_cell row col 0 ;;;
       exhaustive_min_loop rec opponent rest (score_min min_eval eval))%M
  end.

Fixpoint exhaustive_minimax (depth : nat) (is_maximizing : bool) (player : Z)
  : M score :=
  match depth with
  | O => (v <- read (fun b => _evaluate_board b player) ;; mret (Fin v))%M
  | S depth' =>
      (over <- read _is_game_over ;;
       if (over : bool) then
         (v <- read (fun b => _evaluate_board b player) ;; mret (Fin v))
       else if is_maximizing then
         (moves <- read _get_candidate_moves ;;
          exhaustive_max_loop (exhaustive_minimax depth' false player)
                              player moves NegInf)
       else
         (moves <- read _get_candidate_moves ;;
          exhaustive_min_loop (exhaustive_minimax depth' true player)
                              (3 - player) moves PosInf))%M
  end.

(** The value of a node of the game tree, as a function of the grid. *)
Fixpoint minimax_value (depth : nat) (is_maximizing : bool) (player : Z)
    (b : board) : score :=
  match depth with
  | O => Fin (board_value b player)
  | S depth' =>
      if game_over b then Fin (board_value b player)
      else if is_maximizing then
        fold_left (fun best mv =>
                     score_max best
                       (minimax_value depth' false player
                          (place b (fst mv) (snd mv) player)))
                  (candidates b) NegInf
      else
        fold_left (fun best mv =>
                     score_min best
                       (minimax_value depth' true player
                          (place b (fst mv) (snd mv) (3 - player))))
                  (candidates b) PosInf
  end.

(** A score cut to the window [(alpha, beta)]. *)
Definition clamp (alpha beta x : score) : score :=
  score_min beta (score_max alpha x).

(** What the root loops keep: the best move so far, if any, is one of the
    candidates. *)
Definition best_among {S} (l : list move) (best : S * option move) : Prop :=
  match snd best with
  | Some mv => In mv l
  | None => True
  end.

(** ** Lines of five and the row-major order *)

(** [(row, col)] is one of five successive cells along one of the four
    directions, the [k]-th of them, and the five hold [p]. *)
Definition line_of_five (b : board) (row col p : Z) : Prop :=
  exists dr dc k,
    In (dr, dc) directions /\ 0 <= k <= 4 /\
    forall t, 0 <= t <= 4 ->
      in_board (row + (t - k) * dr) (col + (t - k) * dc) = true
      /\ cell b (row + (t - k) * dr) (col + (t - k) * dc) = p.

(** [mv] is an empty cell of the board where a stone of [p] makes a run of
    five or more. *)
Definition completes_five (b : board) (p : Z) (mv : move) : Prop :=
  in_board (fst mv) (snd mv) = true
  /\ cell b (fst mv) (snd mv) = 0
  /\ line_of_five (place b (fst mv) (snd mv) p) (fst mv) (snd mv) p.

(** Smaller row, or same row and smaller column. *)
Definition row_major_lt (x y : move) : Prop :=
  fst x < fst y \/ (fst x = fst y /\ snd x < snd y).

Definition first_completing_five (b : board) (p : Z) (mv : move) : Prop :=
  completes_five b p mv
  /\ forall mv', row_major_lt mv' mv -> ~ completes_five b p mv'.

(** ** Sample grids *)

Definition empty_board : board := replicate 15 (replicate 15 0).

(** Black stones at (7,7), (7,8), (7,9) and (7,10), all else empty. *)
Definition four_in_row_board : board :=
  place (place (place (place empty_board 7 7 1) 7 8 1) 7 9 1) 7 10 1.

(** A full grid without five in a row: the colours go [1 1 2 2] along a
    row, shifted by two from one row to the next. *)
Definition drawn_board : board :=
  map (fun i => map (fun j => if (j + 2 * i) mod 4 <? 2 then 1 else 2)
                    (range 15))
      (range 15).

Definition sample_rng : rng := {| random_random := 0.5%float; choice_index := 3 |}.

(** ** Vocabulary of the further properties *)

(** What the cell [ij] adds to the value of the board for [p]. *)
Definition cell_term (b : board) (p : Z) (ij : move) : Z :=
  if cell b (fst ij) (snd ij) =? p
  then position_value b (fst ij) (snd ij) p
  else if cell b (fst ij) (snd ij) =? 3 - p
  then - position_value b (fst ij) (snd ij) (3 - p)
  else 0.

(** The order of the threat ranking on scored moves: the higher score
    first and, among equal scores, the row-major order. *)
Definition scored_before (x y : Z * move) : Prop :=
  fst y < fst x \/ (fst x = fst y /\ row_major_lt (snd x) (snd y)).

Definition threat_before (b : board) (p : Z) (x y : move) : Prop :=
  move_threat b y p < move_threat b x p
  \/ (move_threat b x p = move_threat b y p /\ row_major_lt x y).

(** [mv] is the first element of [l] with the greatest score: the scores
    before it are smaller, the scores after it are not greater. *)
Definition first_argmax (V : move -> score) (l : list move) (mv : move) : Prop :=
  exists l1 l2,
    l = l1 ++ mv :: l2
    /\ (forall x, In x l1 -> score_ltb (V x) (V mv) = true)
    /\ (forall x, In x l2 -> score_leb (V x) (V mv) = true).

(** The update of the root loops: a strictly greater score takes over. *)
Definition pick_best (V : move -> score) (best : score * option move)
    (mv : move) : score * option move :=
  if score_ltb (fst best) (V mv) then (V mv, Some mv) else best.

(** What the root loops know after the candidates [pre]. *)
Definition best_so_far (V : move -> score) (pre : list move)
    (best : score * option move) : Prop :=
  match snd best with
  | Some mv => first_argmax V pre mv /\ fst best = V mv
  | None => fst best = NegInf /\ forall x, In x pre -> V x = NegInf
  end.

(** A finite score within the bounds of the evaluation. *)
Definition finite_score (v : score) : Prop :=
  exists z, v = Fin z /\ -90000000 <= z <= 90000000.

(** ** Sessions *)

(** The calls that change an instance of [HumanVsAI]. *)
Inductive setter : Type :=
| SetDifficulty (difficulty : string)
| SetAiColor (color : string).

Definition call_setter (lower : string -> string) (self : HumanVsAI.instance)
    (c : setter) : HumanVsAI.instance :=
  match c with
  | SetDifficulty difficulty =>
      fst (HumanVsAI.set_difficulty lower difficulty self)
  | SetAiColor color => fst (HumanVsAI.set_ai_color lower color self)
  end.

(** The instance after [HumanVsAI()] and the calls [cs], in that order. *)
Definition session (lower : string -> string) (cs : list setter)
  : HumanVsAI.instance :=
  fold_left (call_setter lower) cs HumanVsAI.__init__.

(** The call [c] names no difficulty: it sets the colour, or
    [AIDifficulty] has no member for the name. *)
Definition keeps_difficulty (lower : string -> string) (c : setter) : Prop :=
  match c with
  | SetDifficulty difficulty => AIDifficulty_call (lower difficulty) = None
  | SetAiColor _ => True
  end.

(** [str.lower] on the strings that hold ASCII letters only. *)
Definition ascii_lower_char (c : Ascii.ascii) : Ascii.ascii :=
  let n := Ascii.nat_of_ascii c in
  if ((65 <=? n) && (n <=? 90))%nat then Ascii.ascii_of_nat (n + 32) else c.

Fixpoint ascii_lower (s : string) : string :=
  match s with
  | EmptyString => EmptyString
  | String c s' => String (ascii_lower_char c) (ascii_lower s')
  end.

(** ** Patterns on the board object *)

Section PatternVocabulary.

Context {Player : Type} `{EqDecision Player}.

Local Abbreviation grid := (list (list Player)).

(** [board.board[r][c]] can be read. *)
Definition cell_readable (g : grid) (r c : Z) : bool :=
  match Evaluation.board_get g r c with Ret _ => true | _ => false end.

(** The grid holds a board of the size [size]. *)
Definition size_ok (size : Z) (g : grid) : bool :=
  forallb (fun i => forallb (fun j => cell_readable g i j) (range size))
          (range size).

(** The grid after [board.board[r][c] = v]. *)
Definition put (g : grid) (r c : Z) (v : Player) : grid :=
  fst (Evaluation.board_set r c v g).

(** The cell [(r, c)] is on the board and holds [v]. *)
Definition holds (size : Z) (g : grid) (r c : Z) (v : Player) : bool :=
  (0 <=? r) && (r <? size) && (0 <=? c) && (c <? size)
  && match Evaluation.board_get g r c with
     | Ret w => bool_decide (w = v)
     | _ => false
     end.

(** The number of elements at the head of [l] that pass [test]. *)
Fixpoint lead {A} (test : A -> bool) (l : list A) : Z :=
  match l with
  | [] => 0
  | x :: l' => if test x then 1 + lead test l' else 0
  end.

(** The stones of [player] in a row through [(row, col)] along [d], that
    cell counted whatever it holds, looking four cells each way. *)
Definition pattern_count (size : Z) (g : grid) (row col : Z)
    (player : Player) (d : Z * Z) : Z :=
  1 + lead (fun i => holds size g (row + fst d * i) (col + snd d * i) player)
        (zrange 1 5)
    + lead (fun i => holds size g (row - fst d * i) (col - snd d * i) player)
        (zrange 1 5).

(** The longest of them over the four directions. *)
Definition pattern_best (size : Z) (g : grid) (row col : Z) (player : Player)
  : Z :=
  fold_right Z.max 0 (map (pattern_count size g row col player) directions).

(** The cells that hold [empty] and where a stone of [player] makes a
    pattern of [target] at least, in row-major order. *)
Definition pattern_moves (empty : Player) (size : Z) (g : grid)
    (player : Player) (target : Z) : list move :=
  List.filter
    (fun ij =>
       holds size g (fst ij) (snd ij) empty
       && (target <=? pattern_best size (put g (fst ij) (snd ij) player)
                        (fst ij) (snd ij) player))
    (pairs (range size) (fun _ => range size)).

End PatternVocabulary.

(** ** The engine's encoding of the stones *)

(** The integer that stands for a cell of the board object. *)
Definition stone_code {Player : Type} `{EqDecision Player}
    (BLACK WHITE : Player) (v : Player) : Z :=
  if bool_decide (v = BLACK) then 1
  else if bool_decide (v = WHITE) then 2 else 0.

(** The cell can be read and holds neither a black nor a white stone. *)
Definition unoccupied {Player : Type} (BLACK WHITE : Player)
    (g : list (list Player)) (i j : Z) : Prop :=
  exists v, Evaluation.board_get g i j = Ret v /\ v <> BLACK /\ v <> WHITE.

(** The content of a cell, and [d] where there is none. *)
Definition cell_or {Player : Type} (g : list (list Player)) (i j : Z)
    (d : Player) : Player :=
  match Evaluation.board_get g i j with Ret v => v | _ => d end.

(** ** The position weight *)

(** The weight of a cell whose distance from the centre has the square
    [d2]. *)
Definition weight_at (d2 : Z) : float :=
  PrimFloat.mul
    (PrimFloat.sub (float_of_Z (board_size / 2)) (PrimFloat.sqrt (float_of_Z d2)))
    (float_of_Z 10).

(** Among the squares of distances below [n], the greater one never has
    the greater weight. *)
Definition weight_antitone_below (n : Z) : bool :=
  forallb (fun d =>
    forallb (fun d' =>
      implb (d <=? d') (PrimFloat.leb (weight_at d') (weight_at d)))
      (range n))
    (range n).
(** * Verification *)

(** ** Ranges and loops *)

Lemma in_zrange (lo hi i : Z) : In i (zrange lo hi) <-> lo <= i < hi.
Proof.
  unfold zrange. rewrite in_map_iff. split.
  - intros (k & <- & Hk). apply in_seq in Hk. lia.
  - intros Hi. exists (Z.to_nat (i - lo)). split; [lia|].
    apply in_seq. lia.
Qed.

Lemma in_range (n i : Z) : In i (range n) <-> 0 <= i < n.
Proof. apply in_zrange. Qed.

Lemma in_board_spec (r c : Z) :
  in_board r c = true <-> 0 <= r < board_size /\ 0 <= c < board_size.
Proof. unfold in_board. rewrite !andb_true_iff. lia. Qed.

Lemma oany_ret {A} (test : A -> outcome bool) (g : A -> bool) (l : list A) :
  (forall x, In x l -> test x = Ret (g x)) ->
  oany test l = Ret (existsb g l).
Proof.
  induction l as [|x l IH]; intros H; cbn [oany existsb]; [reflexivity|].
  rewrite (H x) by (left; reflexivity). cbn [obind].
  destruct (g x); cbn [orb]; [reflexivity|].
  apply IH. intros y Hy. apply H. right; exact Hy.
Qed.

Lemma ofold_ret {A S} (body : S -> A -> outcome S) (g : S -> A -> S)
    (l : list A) (s : S) :
  (forall s x, In x l -> body s x = Ret (g s x)) ->
  ofold body l s = Ret (fold_left g l s).
Proof.
  revert s. induction l as [|x l IH]; intros s H; cbn [ofold fold_left];
    [reflexivity|].
  rewrite (H s x) by (left; reflexivity). cbn [obind].
  apply IH. intros s' y Hy. apply H. right; exact Hy.
Qed.

Lemma mfirst_ret {A B} (body : A -> M (option B)) (g : A -> option B)
    (l : list A) (b : board) :
  (forall x, In x l -> body x b = (b, Ret (g x))) ->
  mfirst body l b = (b, Ret (first_some g l)).
Proof.
  induction l as [|x l IH]; intros H; cbn [mfirst first_some];
    [reflexivity|].
  unfold mbind. rewrite (H x) by (left; reflexivity).
  destruct (g x); [reflexivity|].
  apply IH. intros y Hy. apply H. right; exact Hy.
Qed.

Lemma mfold_ret {A S} (body : S -> A -> M S) (g : S -> A -> S)
    (l : list A) (s : S) (b : board) :
  (forall s x, In x l -> body s x b = (b, Ret (g s x))) ->
  mfold body l s b = (b, Ret (fold_left g l s)).
Proof.
  revert s. induction l as [|x l IH]; intros s H; cbn [mfold fold_left];
    [reflexivity|].
  unfold mbind. rewrite (H s x) by (left; reflexivity).
  apply IH. intros s' y Hy. apply H. right; exact Hy.
Qed.

Lemma first_some_flat_map {A B C} (g : B -> option C) (f : A -> list B)
    (l : list A) :
  first_some (fun x => first_some g (f x)) l = first_some g (flat_map f l).
Proof.
  induction l as [|x l IH]; cbn [first_some flat_map]; [reflexivity|].
  rewrite IH. clear IH.
  induction (f x) as [|y ys IHy]; cbn [first_some app]; [reflexivity|].
  destruct (g y); [reflexivity|exact IHy].
Qed.

Lemma existsb_flat_map {A B} (g : B -> bool) (f : A -> list B) (l : list A) :
  existsb (fun x => existsb g (f x)) l = existsb g (flat_map f l).
Proof.
  induction l as [|x l IH]; cbn [existsb flat_map]; [reflexivity|].
  rewrite existsb_app, IH. reflexivity.
Qed.

(** A loop nested in a loop is one loop over the pairs, in the same
    order. *)
Lemma oany_app {A} (test : A -> outcome bool) (l1 l2 : list A) :
  oany test (l1 ++ l2)
  = obind (oany test l1) (fun t => if t then Ret true else oany test l2).
Proof.
  induction l1 as [|x l1 IH]; cbn [oany app obind]; [reflexivity|].
  destruct (test x) as [[|]| |]; cbn [obind]; try reflexivity. exact IH.
Qed.

Lemma oany_map {A B} (test : B -> outcome bool) (f : A -> B) (l : list A) :
  oany test (map f l) = oany (fun x => test (f x)) l.
Proof.
  induction l as [|x l IH]; cbn [oany map]; [reflexivity|].
  rewrite IH. reflexivity.
Qed.

Lemma oany_nested {A B} (test : A -> B -> outcome bool) (l : list A)
    (f : A -> list B) :
  oany (fun i => oany (test i) (f i)) l
  = oany (fun ij => test (fst ij) (snd ij)) (pairs l f).
Proof.
  unfold pairs.
  induction l as [|i l IH]; cbn [oany flat_map]; [reflexivity|].
  rewrite oany_app, oany_map. cbn [fst snd]. rewrite IH. reflexivity.
Qed.

Lemma ofold_app {A S} (body : S -> A -> outcome S) (l1 l2 : list A) (s : S) :
  ofold body (l1 ++ l2) s = obind (ofold body l1 s) (ofold body l2).
Proof.
  revert s. induction l1 as [|x l1 IH]; intros s; cbn [ofold app obind];
    [reflexivity|].
  destruct (body s x); cbn [obind]; try reflexivity. apply IH.
Qed.

Lemma ofold_map {A B S} (body : S -> B -> outcome S) (f : A -> B)
    (l : list A) (s : S) :
  ofold body (map f l) s = ofold (fun s x => body s (f x)) l s.
Proof.
  revert s. induction l as [|x l IH]; intros s; cbn [ofold map];
    [reflexivity|].
  destruct (body s (f x)); cbn [obind]; try reflexivity. apply IH.
Qed.

Lemma obind_ext {A B} (m : outcome A) (k1 k2 : A -> outcome B) :
  (forall a, k1 a = k2 a) -> obind m k1 = obind m k2.
Proof. intros H. destruct m; cbn [obind]; auto. Qed.

Lemma ofold_nested {A B S} (body : S -> A -> B -> outcome S) (l : list A)
    (f : A -> list B) (s : S) :
  ofold (fun s i => ofold (fun s j => body s i j) (f i) s) l s
  = ofold (fun s ij => body s (fst ij) (snd ij)) (pairs l f) s.
Proof.
  unfold pairs. revert s.
  induction l as [|i l IH]; intros s; cbn [ofold flat_map]; [reflexivity|].
  rewrite ofold_app, ofold_map. cbn [fst snd].
  apply obind_ext. exact IH.
Qed.

Lemma mbind_ext {A B} (m : M A) (k1 k2 : A -> M B) (b : board) :
  (forall a b', k1 a b' = k2 a b') -> mbind m k1 b = mbind m k2 b.
Proof. intros H. unfold mbind. destruct (m b) as [b' [a| |]]; auto. Qed.

Lemma mfirst_app {A B} (body : A -> M (option B)) (l1 l2 : list A) (b : board) :
  mfirst body (l1 ++ l2) b
  = mbind (mfirst body l1)
      (fun o => match o with
                | Some v => mret (Some v)
                | None => mfirst body l2
                end) b.
Proof.
  revert b. induction l1 as [|x l1 IH]; intros b; cbn [mfirst app].
  - reflexivity.
  - unfold mbind. destruct (body x b) as [b' [[v|]| |]]; try reflexivity.
    rewrite IH. reflexivity.
Qed.

Lemma mfirst_map {A B C} (body : B -> M (option C)) (f : A -> B)
    (l : list A) (b : board) :
  mfirst body (map f l) b = mfirst (fun x => body (f x)) l b.
Proof.
  revert b. induction l as [|x l IH]; intros b; cbn [mfirst map];
    [reflexivity|].
  apply mbind_ext. intros [v|] b'; [reflexivity|apply IH].
Qed.

Lemma mfirst_nested {A B C} (body : A -> B -> M (option C)) (l : list A)
    (f : A -> list B) (b : board) :
  mfirst (fun i => mfirst (body i) (f i)) l b
  = mfirst (fun ij => body (fst ij) (snd ij)) (pairs l f) b.
Proof.
  unfold pairs. revert b.
  induction l as [|i l IH]; intros b; cbn [mfirst flat_map]; [reflexivity|].
  rewrite mfirst_app. unfold mbind. rewrite mfirst_map. cbn [fst snd].
  change (fun x : B => body i x) with (body i).
  destruct (mfirst (body i) (f i) b) as [b' [[v|]| |]]; try reflexivity.
  apply IH.
Qed.

Lemma fold_left_filter {A} (g : A -> bool) (l acc : list A) :
  fold_left (fun acc x => if g x then acc ++ [x] else acc) l acc
  = acc ++ List.filter g l.
Proof.
  revert acc. induction l as [|x l IH]; intros acc; cbn [fold_left List.filter].
  - rewrite app_nil_r. reflexivity.
  - rewrite IH. destruct (g x); [|reflexivity].
    rewrite <- app_assoc. reflexivity.
Qed.

(** ** The grid: reads, writes and undo *)

Lemma in_all_cells (r c : Z) : In (r, c) all_cells <-> in_board r c = true.
Proof.
  unfold all_cells, pairs. rewrite in_flat_map, in_board_spec. split.
  - intros (i & Hi & Hin). apply in_map_iff in Hin as (j & [= <- <-] & Hj).
    apply in_range in Hi, Hj. lia.
  - intros [Hr Hc]. exists r. split; [apply in_range; lia|].
    apply in_map_iff. exists c. split; [reflexivity|apply in_range; lia].
Qed.

Lemma grid_ok_readable (b : board) (r c : Z) :
  grid_ok b = true -> in_board r c = true -> readable b r c = true.
Proof.
  unfold grid_ok. intros H Hin. apply in_board_spec in Hin as [Hr Hc].
  rewrite forallb_forall in H. specialize (H r ltac:(apply in_range; lia)).
  rewrite forallb_forall in H. apply H, in_range. lia.
Qed.

Lemma readable_get (b : board) (r c : Z) :
  readable b r c = true -> get_cell b r c = Ret (cell b r c).
Proof.
  unfold readable, cell. destruct (get_cell b r c); congruence.
Qed.

Lemma grid_ok_get (b : board) (r c : Z) :
  grid_ok b = true -> in_board r c = true -> get_cell b r c = Ret (cell b r c).
Proof. intros H Hin. apply readable_get, grid_ok_readable; assumption. Qed.

Lemma subscript_Ret {A} (l : list A) (i : Z) (x : A) :
  subscript l i = Ret x <-> 0 <= i /\ l !! Z.to_nat i = Some x.
Proof.
  unfold subscript. destruct (Z.leb_spec 0 i) as [Hi|Hi].
  - destruct (l !! Z.to_nat i) as [y|]; split.
    + intros [= ->]. auto.
    + intros [_ [= ->]]. reflexivity.
    + discriminate.
    + intros [_ [=]].
  - split; [discriminate|lia].
Qed.

Lemma readable_rows (b : board) (r c : Z) :
  readable b r c = true ->
  exists row v, subscript b r = Ret row /\ subscript row c = Ret v.
Proof.
  unfold readable, get_cell. destruct (subscript b r) as [row| |];
    cbn [obind]; try discriminate.
  destruct (subscript row c) as [v| |] eqn:E; try discriminate. eauto.
Qed.

Lemma set_cell_readable (b : board) (r c v : Z) :
  readable b r c = true -> set_cell r c v b = (place b r c v, Ret tt).
Proof.
  intros H. unfold place. apply readable_rows in H as (row & w & Hr & Hc).
  unfold set_cell. rewrite Hr, Hc. reflexivity.
Qed.

Lemma set_cell_ok (b : board) (r c v : Z) :
  grid_ok b = true -> in_board r c = true ->
  set_cell r c v b = (place b r c v, Ret tt).
Proof. intros H Hin. apply set_cell_readable, grid_ok_readable; assumption. Qed.

(** A write changes the cell written and no other. *)
Lemma get_place_ne (b : board) (r c v r' c' : Z) :
  (r', c') <> (r, c) -> get_cell (place b r c v) r' c' = get_cell b r' c'.
Proof.
  intros Hne. unfold place, set_cell.
  destruct (subscript b r) as [row| |] eqn:Hr; try reflexivity.
  destruct (subscript row c) as [w| |] eqn:Hc; try reflexivity.
  cbn [fst]. apply subscript_Ret in Hr as [Hr0 Hr], Hc as [Hc0 Hc].
  unfold get_cell, subscript.
  destruct (Z.leb_spec 0 r') as [Hr'|Hr']; [|reflexivity].
  destruct (decide (Z.to_nat r = Z.to_nat r')) as [E|E].
  - assert (r' = r) as -> by lia.
    rewrite list_lookup_insert_eq by (eapply lookup_lt_Some; eassumption).
    rewrite Hr. cbn [obind].
    destruct (Z.leb_spec 0 c') as [Hc'|Hc']; [|reflexivity].
    rewrite list_lookup_insert_ne by (intros E'; apply Hne; f_equal; lia).
    reflexivity.
  - rewrite list_lookup_insert_ne by exact E. reflexivity.
Qed.

Lemma get_place_eq (b : board) (r c v : Z) :
  readable b r c = true -> get_cell (place b r c v) r c = Ret v.
Proof.
  intros H. apply readable_rows in H as (row & w & Hr & Hc).
  unfold place, set_cell. rewrite Hr, Hc. cbn [fst].
  apply subscript_Ret in Hr as [Hr0 Hr], Hc as [Hc0 Hc].
  unfold get_cell, subscript.
  destruct (Z.leb_spec 0 r) as [_|]; [|lia].
  rewrite list_lookup_insert_eq by (eapply lookup_lt_Some; eassumption).
  cbn [obind]. destruct (Z.leb_spec 0 c) as [_|]; [|lia].
  rewrite list_lookup_insert_eq by (eapply lookup_lt_Some; eassumption).
  reflexivity.
Qed.

Lemma readable_place (b : board) (r c v r' c' : Z) :
  readable (place b r c v) r' c' = readable b r' c'.
Proof.
  destruct (decide ((r', c') = (r, c))) as [[= -> ->]|Hne].
  - destruct (readable b r c) eqn:E.
    + unfold readable at 1. rewrite get_place_eq by exact E. reflexivity.
    + unfold place, set_cell. unfold readable, get_cell in E.
      destruct (subscript b r) as [row| |] eqn:Hr; cbn [obind] in E;
        try exact E.
      * destruct (subscript row c) as [w| |] eqn:Hc; try discriminate;
          cbn [fst]; unfold readable, get_cell; rewrite Hr; cbn [obind];
          rewrite Hc; reflexivity.
      * cbn [fst]. unfold readable, get_cell. rewrite Hr. reflexivity.
      * cbn [fst]. unfold readable, get_cell. rewrite Hr. reflexivity.
  - unfold readable. rewrite get_place_ne by exact Hne. reflexivity.
Qed.

Lemma grid_ok_place (b : board) (r c v : Z) :
  grid_ok b = true -> grid_ok (place b r c v) = true.
Proof.
  unfold grid_ok. rewrite !forallb_forall. intros H i Hi.
  specialize (H i Hi). rewrite forallb_forall in H.
  apply forallb_forall. intros j Hj. rewrite readable_place. auto.
Qed.

Lemma cell_place_eq (b : board) (r c v : Z) :
  readable b r c = true -> cell (place b r c v) r c = v.
Proof. intros H. unfold cell. rewrite get_place_eq by exact H. reflexivity. Qed.

Lemma cell_place_ne (b : board) (r c v r' c' : Z) :
  (r', c') <> (r, c) -> cell (place b r c v) r' c' = cell b r' c'.
Proof. intros H. unfold cell. rewrite get_place_ne by exact H. reflexivity. Qed.

(** Writing twice is writing the last value; writing back what was there
    gives the grid back. *)
Lemma place_unreadable (b : board) (r c v : Z) :
  readable b r c = false -> place b r c v = b.
Proof.
  unfold readable, get_cell, place, set_cell.
  destruct (subscript b r) as [row| |]; cbn [obind]; try reflexivity.
  destruct (subscript row c) as [x| |]; try reflexivity. discriminate.
Qed.

Lemma place_place (b : board) (r c v w : Z) :
  place (place b r c v) r c w = place b r c w.
Proof.
  destruct (readable b r c) eqn:E.
  - destruct (readable_rows _ _ _ E) as (row & x & Hr & Hc).
    unfold place at 2 3. unfold set_cell. rewrite Hr, Hc. cbn [fst].
    apply subscript_Ret in Hr as [Hr0 Hr], Hc as [Hc0 Hc].
    unfold place, set_cell, subscript.
    destruct (Z.leb_spec 0 r) as [_|]; [|lia].
    rewrite list_lookup_insert_eq by (eapply lookup_lt_Some; eassumption).
    destruct (Z.leb_spec 0 c) as [_|]; [|lia].
    rewrite list_lookup_insert_eq by (eapply lookup_lt_Some; eassumption).
    cbn [fst]. rewrite list_insert_insert_eq. f_equal.
    apply list_insert_insert_eq.
  - rewrite (place_unreadable b r c v E). rewrite !place_unreadable by exact E.
    reflexivity.
Qed.

Lemma place_same (b : board) (r c : Z) :
  readable b r c = true -> place b r c (cell b r c) = b.
Proof.
  intros H. unfold cell.
  destruct (readable_rows _ _ _ H) as (row & w & Hr & Hc).
  unfold get_cell. rewrite Hr. cbn [obind]. rewrite Hc.
  unfold place, set_cell. rewrite Hr, Hc. cbn [fst].
  apply subscript_Ret in Hr as [Hr0 Hr], Hc as [Hc0 Hc].
  rewrite (list_insert_id row) by exact Hc.
  apply list_insert_id. exact Hr.
Qed.

(** Place and undo on an empty cell. *)
Lemma place_undo (b : board) (r c v : Z) :
  readable b r c = true -> cell b r c = 0 -> place (place b r c v) r c 0 = b.
Proof.
  intros H H0. rewrite place_place. rewrite <- H0. apply place_same, H.
Qed.

Lemma is_15x15_grid_ok (b : board) : is_15x15 b = true -> grid_ok b = true.
Proof.
  unfold is_15x15, grid_ok. rewrite andb_true_iff, Nat.eqb_eq.
  intros [Hlen Hrows]. rewrite forallb_forall in Hrows.
  apply forallb_forall. intros i Hi. apply forallb_forall. intros j Hj.
  apply in_range in Hi, Hj. unfold board_size in Hi, Hj, Hlen, Hrows.
  unfold readable, get_cell, subscript.
  destruct (Z.leb_spec 0 i) as [_|]; [|lia].
  destruct (lookup_lt_is_Some_2 b (Z.to_nat i) ltac:(lia)) as [row Hrow].
  rewrite Hrow. cbn [obind].
  assert (length row = Z.to_nat 15) as Hl.
  { apply Nat.eqb_eq, Hrows. apply list_elem_of_In.
    eapply list_elem_of_lookup_2; eassumption. }
  destruct (Z.leb_spec 0 j) as [_|]; [|lia].
  destruct (lookup_lt_is_Some_2 row (Z.to_nat j) ltac:(lia)) as [v Hv].
  rewrite Hv. reflexivity.
Qed.

(** The facts about grids that the proofs below use over and over. *)
Create HintDb grid discriminated.
#[local] Hint Resolve grid_ok_place grid_ok_readable is_15x15_grid_ok : grid.

(** ** Run lengths *)

Lemma run_len_nonneg (n : nat) (b : board) (r c dr dc p : Z) :
  0 <= run_len n b r c dr dc p <= Z.of_nat n.
Proof.
  revert r c. induction n as [|n IH]; intros r c; cbn [run_len]; [lia|].
  destruct (in_board r c && (cell b r c =? p)); [|lia].
  specialize (IH (r + dr) (c + dc)). lia.
Qed.

Lemma count_while_S (fuel : nat) (b : board) (r c dr dc p count : Z) :
  count_while (S fuel) b r c dr dc p count
  = if in_board r c then
      obind (get_cell b r c) (fun v =>
        if v =? p
        then count_while fuel b (r + dr) (c + dc) dr dc p (count + 1)
        else Ret count)
    else Ret count.
Proof. reflexivity. Qed.

Lemma run_len_S (n : nat) (b : board) (r c dr dc p : Z) :
  run_len (S n) b r c dr dc p
  = if in_board r c && (cell b r c =? p)
    then 1 + run_len n b (r + dr) (c + dc) dr dc p
    else 0.
Proof. reflexivity. Qed.

(** The [while] loop ends as soon as it steps off the board, and it counts
    the run. *)
Lemma count_while_run (n : nat) (b : board) (r c dr dc p count : Z) :
  grid_ok b = true ->
  (exists k, (k <= n)%nat /\
             in_board (r + Z.of_nat k * dr) (c + Z.of_nat k * dc) = false) ->
  count_while (S n) b r c dr dc p count = Ret (count + run_len n b r c dr dc p).
Proof.
  intros Hok. revert r c count.
  induction n as [|n IH]; intros r c count (k & Hk & Hoff).
  - assert (k = 0%nat) as -> by lia.
    replace (r + Z.of_nat 0 * dr) with r in Hoff by lia.
    replace (c + Z.of_nat 0 * dc) with c in Hoff by lia.
    rewrite count_while_S, Hoff. cbn [run_len]. f_equal. lia.
  - rewrite count_while_S, run_len_S.
    destruct (in_board r c) eqn:Hin; cbn [andb]; [|f_equal; lia].
    rewrite (grid_ok_get _ _ _ Hok Hin). cbn [obind].
    destruct (cell b r c =? p); [|f_equal; lia].
    rewrite IH.
    + f_equal. lia.
    + destruct k as [|k].
      * replace (r + Z.of_nat 0 * dr) with r in Hoff by lia.
        replace (c + Z.of_nat 0 * dc) with c in Hoff by lia. congruence.
      * exists k. split; [lia|].
        replace (r + dr + Z.of_nat k * dr) with (r + Z.of_nat (S k) * dr)
          by lia.
        replace (c + dc + Z.of_nat k * dc) with (c + Z.of_nat (S k) * dc)
          by lia.
        exact Hoff.
Qed.

Lemma leaves_board (r c dr dc : Z) :
  (dr, dc) <> (0, 0) ->
  exists k, (k <= Z.to_nat board_size)%nat /\
            in_board (r + Z.of_nat k * dr) (c + Z.of_nat k * dc) = false.
Proof.
  intros Hd. destruct (in_board r c) eqn:Hin.
  - exists (Z.to_nat board_size). split; [lia|].
    apply in_board_spec in Hin. apply not_true_is_false.
    rewrite in_board_spec. unfold board_size in *. cbn.
    assert (dr <> 0 \/ dc <> 0) as [H|H]
        by (destruct (decide (dr = 0)); [right; congruence|left; assumption]);
      lia.
  - exists 0%nat. split; [lia|].
    replace (r + Z.of_nat 0 * dr) with r by lia.
    replace (c + Z.of_nat 0 * dc) with c by lia. exact Hin.
Qed.

Lemma count_while_ok (b : board) (r c dr dc p count : Z) :
  grid_ok b = true -> (dr, dc) <> (0, 0) ->
  count_while while_fuel b r c dr dc p count
  = Ret (count + run_len (Z.to_nat board_size) b r c dr dc p).
Proof.
  intros Hok Hd. unfold while_fuel.
  apply count_while_run; [exact Hok|]. apply leaves_board, Hd.
Qed.

Lemma neg_direction (dr dc : Z) : (dr, dc) <> (0, 0) -> (- dr, - dc) <> (0, 0).
Proof. intros H [= H1 H2]. apply H. f_equal; lia. Qed.

Lemma _count_consecutive_ok (b : board) (row col dr dc p : Z) :
  grid_ok b = true -> (dr, dc) <> (0, 0) ->
  _count_consecutive b row col dr dc p = Ret (run_through b row col dr dc p).
Proof.
  intros Hok Hd. unfold _count_consecutive, run_through.
  rewrite count_while_ok by assumption. cbn [obind].
  rewrite count_while_ok by (try apply neg_direction; assumption).
  reflexivity.
Qed.

Lemma directions_nonzero (d : Z * Z) : In d directions -> d <> (0, 0).
Proof.
  unfold directions. cbn [In]. intros [<-|[<-|[<-|[<-|[]]]]]; discriminate.
Qed.

(** ** The read-only methods on a grid that holds the board *)

Lemma in_empty_cells (b : board) (r c : Z) :
  In (r, c) (empty_cells b) <-> in_board r c = true /\ cell b r c = 0.
Proof.
  unfold empty_cells. rewrite filter_In, in_all_cells. cbn [fst snd].
  rewrite Z.eqb_eq. reflexivity.
Qed.

Section HoldsBoard.

Variable b : board.
Hypothesis Hok : grid_ok b = true.

Lemma _check_five_in_row_ok (row col p : Z) :
  _check_five_in_row b row col p = Ret (five_through b row col p).
Proof using Hok.
  unfold _check_five_in_row, five_through.
  apply oany_ret. intros [dr dc] Hd. apply directions_nonzero in Hd.
  rewrite count_while_ok by assumption. cbn [obind].
  rewrite count_while_ok by (try apply neg_direction; assumption).
  reflexivity.
Qed.

Lemma _is_game_over_ok :
  _is_game_over b = Ret (game_over b).
Proof using Hok.
  unfold _is_game_over, game_over. rewrite oany_nested.
  apply oany_ret. intros [i j] Hin. apply in_all_cells in Hin.
  cbn [fst snd]. rewrite (grid_ok_get _ _ _ Hok Hin). cbn [obind].
  destruct (cell b i j =? 0); cbn [negb andb]; [reflexivity|].
  apply _check_five_in_row_ok.
Qed.

Lemma _evaluate_direction_ok (row col dr dc p : Z) :
  (dr, dc) <> (0, 0) ->
  _evaluate_direction b row col dr dc p
  = Ret (category_score (run_through b row col dr dc p)).
Proof using Hok.
  intros Hd. unfold _evaluate_direction.
  rewrite _count_consecutive_ok by assumption. reflexivity.
Qed.

Lemma _evaluate_position_ok (row col p : Z) :
  _evaluate_position b row col p = Ret (position_value b row col p).
Proof using Hok.
  unfold _evaluate_position, position_value.
  apply ofold_ret. intros s [dr dc] Hd. apply directions_nonzero in Hd.
  rewrite _evaluate_direction_ok by assumption. reflexivity.
Qed.

Lemma _evaluate_board_ok (p : Z) :
  _evaluate_board b p = Ret (board_value b p).
Proof using Hok.
  unfold _evaluate_board, board_value. rewrite ofold_nested.
  apply ofold_ret. intros s [i j] Hin. apply in_all_cells in Hin.
  cbn [fst snd]. rewrite (grid_ok_get _ _ _ Hok Hin). cbn [obind].
  destruct (cell b i j =? p).
  - rewrite _evaluate_position_ok by assumption. reflexivity.
  - destruct (cell b i j =? 3 - p); [|reflexivity].
    rewrite _evaluate_position_ok by assumption. reflexivity.
Qed.

Lemma _get_empty_positions_ok :
  _get_empty_positions b = Ret (empty_cells b).
Proof using Hok.
  unfold _get_empty_positions, empty_cells. rewrite ofold_nested.
  rewrite (ofold_ret _
    (fun acc ij => if cell b (fst ij) (snd ij) =? 0 then acc ++ [ij] else acc)).
  - rewrite fold_left_filter. reflexivity.
  - intros s [i j] Hin. apply in_all_cells in Hin. cbn [fst snd].
    rewrite (grid_ok_get _ _ _ Hok Hin). cbn [obind].
    destruct (cell b i j =? 0); reflexivity.
Qed.

Lemma _has_neighbors_ok (pos : move) :
  _has_neighbors b pos = Ret (stone_nearby b pos).
Proof using Hok.
  destruct pos as [row col]. unfold _has_neighbors.
  rewrite oany_nested.
  rewrite (oany_ret _
    (fun ij => (negb (fst ij =? row) || negb (snd ij =? col))
               && negb (cell b (fst ij) (snd ij) =? 0))).
  - f_equal. unfold stone_nearby. cbn [fst snd].
    apply eq_true_iff_eq. rewrite !existsb_exists. split.
    + intros ([i j] & Hin & H). exists (i, j). cbn [fst snd] in *.
      unfold pairs in Hin. apply in_flat_map in Hin as (i' & Hi & Hj).
      apply in_map_iff in Hj as (j' & [= -> ->] & Hj).
      apply in_zrange in Hi, Hj. unfold board_size in *.
      split; [apply in_all_cells, in_board_spec; unfold board_size; lia|].
      apply andb_true_iff in H as [H1 H2]. rewrite H2, andb_true_r.
      rewrite !andb_true_iff, negb_true_iff, andb_false_iff.
      rewrite !Z.leb_le, !Z.eqb_neq.
      apply orb_true_iff in H1. rewrite !negb_true_iff, !Z.eqb_neq in H1.
      lia.
    + intros ([i j] & Hin & H). exists (i, j). cbn [fst snd] in *.
      apply in_all_cells, in_board_spec in Hin. unfold board_size in *.
      rewrite !andb_true_iff, negb_true_iff, andb_false_iff in H.
      rewrite !Z.leb_le, !Z.eqb_neq in H. destruct H as [[[H1 H2] H3] H4].
      split.
      * unfold pairs. apply in_flat_map. exists i.
        split; [apply in_zrange; lia|].
        apply in_map_iff. exists j. split; [reflexivity|].
        apply in_zrange; lia.
      * rewrite H4, andb_true_r. rewrite orb_true_iff, !negb_true_iff.
        rewrite !Z.eqb_neq. lia.
  - intros [i j] Hin. cbn [fst snd].
    unfold pairs in Hin. apply in_flat_map in Hin as (i' & Hi & Hj).
    apply in_map_iff in Hj as (j' & [= -> ->] & Hj).
    apply in_zrange in Hi, Hj. unfold board_size in *.
    destruct (negb (i =? row) || negb (j =? col)); cbn [andb]; [|reflexivity].
    rewrite grid_ok_get; [reflexivity|exact Hok|].
    apply in_board_spec. unfold board_size. lia.
Qed.

Lemma _get_candidate_moves_ok :
  _get_candidate_moves b = Ret (candidates b).
Proof using Hok.
  unfold _get_candidate_moves, candidates.
  rewrite _get_empty_positions_ok by exact Hok. cbn [obind].
  rewrite (ofold_ret _
    (fun acc pos => if stone_nearby b pos then acc ++ [pos] else acc)).
  - rewrite fold_left_filter. cbn [app obind]. f_equal.
    destruct (List.filter (stone_nearby b) (empty_cells b)) as [|x l] eqn:E1;
      cbn [is_nil andb negb]; [|reflexivity].
    destruct (empty_cells b) as [|y l'] eqn:E2; cbn [is_nil negb];
      reflexivity.
  - intros s pos _. rewrite _has_neighbors_ok by exact Hok. cbn [obind].
    destruct (stone_nearby b pos); reflexivity.
Qed.

End HoldsBoard.

(** ** Stepping through stateful code *)

Lemma mbind_step {A B} (m : M A) (k : A -> M B) (b b' : board) (a : A) :
  m b = (b', Ret a) -> mbind m k b = k a b'.
Proof. intros H. unfold mbind. rewrite H. reflexivity. Qed.

Lemma read_step {A B} (f : board -> outcome A) (k : A -> M B) (b : board)
    (a : A) :
  f b = Ret a -> mbind (read f) k b = k a b.
Proof. intros H. apply mbind_step. unfold read. rewrite H. reflexivity. Qed.

Lemma read_bind {A B} (f : board -> outcome A) (k : A -> M B) (b : board) :
  mbind (read f) k b
  = match f b with
    | Ret a => k a b
    | Raise e => (b, Raise e)
    | Diverge => (b, Diverge)
    end.
Proof. reflexivity. Qed.

Lemma set_step {B} (r c v : Z) (k : unit -> M B) (b : board) :
  grid_ok b = true -> in_board r c = true ->
  mbind (set_cell r c v) k b = k tt (place b r c v).
Proof. intros Hok Hin. apply mbind_step, set_cell_ok; assumption. Qed.

Lemma first_some_find {A} (f : A -> bool) (l : list A) :
  first_some (fun x => if f x then Some x else None) l = find f l.
Proof.
  induction l as [|x l IH]; cbn [first_some find]; [reflexivity|].
  destruct (f x); [reflexivity|exact IH].
Qed.

(** ** The threat detector *)

Lemma _find_winning_move_ok (p : Z) (b : board) :
  grid_ok b = true ->
  _find_winning_move p b = (b, Ret (find (wins b p) all_cells)).
Proof.
  intros Hok. unfold _find_winning_move. rewrite mfirst_nested.
  rewrite <- first_some_find. apply mfirst_ret.
  intros [i j] Hin. apply in_all_cells in Hin. cbn [fst snd].
  rewrite (read_step _ _ _ (cell b i j)) by (apply grid_ok_get; assumption).
  unfold wins. cbn [fst snd].
  destruct (cell b i j =? 0) eqn:E0; cbn [andb]; [|reflexivity].
  apply Z.eqb_eq in E0.
  rewrite set_step by assumption.
  rewrite (read_step _ _ _ (five_through (place b i j p) i j p))
    by (apply _check_five_in_row_ok, grid_ok_place, Hok).
  assert (place (place b i j p) i j 0 = b) as Hundo
    by (apply place_undo; [apply grid_ok_readable|]; assumption).
  destruct (five_through (place b i j p) i j p);
    (rewrite set_step by auto with grid);
    rewrite Hundo; reflexivity.
Qed.

Lemma _find_defensive_move_eq (p : Z) (b : board) :
  _find_defensive_move p b = _find_winning_move (3 - p) b.
Proof. reflexivity. Qed.

Lemma _evaluate_move_threat_ok (mv : move) (p : Z) (b : board) :
  grid_ok b = true -> In mv (empty_cells b) ->
  _evaluate_move_threat mv p b = (b, Ret (move_threat b mv p)).
Proof.
  intros Hok Hin. destruct mv as [row col].
  apply in_empty_cells in Hin as [Hin H0].
  unfold _evaluate_move_threat. rewrite set_step by assumption.
  rewrite (read_step _ _ _ (move_threat b (row, col) p)).
  - rewrite set_step by auto with grid.
    rewrite place_undo by auto with grid.
    reflexivity.
  - unfold move_threat. cbn [fst snd].
    apply (ofold_ret _
      (fun s d => s + threat_weight
         (run_through (place b row col p) row col (fst d) (snd d) p))).
    intros s [dr dc] Hd. apply directions_nonzero in Hd.
    rewrite _count_consecutive_ok by auto with grid.
    cbn [obind fst snd]. unfold threat_weight.
    repeat match goal with |- context [if ?c then _ else _] => destruct c end;
      f_equal; lia.
Qed.

Lemma candidates_empty (b : board) (mv : move) :
  In mv (candidates b) -> In mv (empty_cells b).
Proof.
  unfold candidates.
  destruct (is_nil (List.filter (stone_nearby b) (empty_cells b))).
  - destruct (is_nil (List.filter near_center (empty_cells b))); [auto|].
    intros H. apply filter_In in H. tauto.
  - intros H. apply filter_In in H. tauto.
Qed.

Lemma is_nil_true {A} (l : list A) : is_nil l = true <-> l = [].
Proof. destruct l; cbn; split; congruence. Qed.

Lemma candidates_nonempty (b : board) : empty_cells b <> [] -> candidates b <> [].
Proof.
  intros H. unfold candidates.
  destruct (is_nil (List.filter (stone_nearby b) (empty_cells b))) eqn:E1.
  - destruct (is_nil (List.filter near_center (empty_cells b))) eqn:E2;
      [exact H|].
    intros E. apply is_nil_true in E. congruence.
  - intros E. apply is_nil_true in E. congruence.
Qed.

Lemma fold_left_snoc_map {A B} (f : A -> B) (l : list A) (acc : list B) :
  fold_left (fun acc x => acc ++ [f x]) l acc = acc ++ map f l.
Proof.
  revert acc. induction l as [|x l IH]; intros acc; cbn [fold_left map].
  - rewrite app_nil_r. reflexivity.
  - rewrite IH, <- app_assoc. reflexivity.
Qed.

Lemma _get_priority_moves_ok (p : Z) (b : board) :
  grid_ok b = true ->
  _get_priority_moves p b = (b, Ret (priority_moves b p)).
Proof.
  intros Hok. unfold _get_priority_moves, priority_moves.
  rewrite (read_step _ _ _ (candidates b))
    by (apply _get_candidate_moves_ok, Hok).
  erewrite mbind_step.
  2:{ apply (mfold_ret _ (fun acc mv => acc ++ [(move_threat b mv p, mv)])).
      intros s mv Hmv. apply candidates_empty in Hmv.
      rewrite (mbind_step _ _ _ _ _ (_evaluate_move_threat_ok _ _ _ Hok Hmv)).
      reflexivity. }
  rewrite (fold_left_snoc_map (fun mv => (move_threat b mv p, mv))).
  reflexivity.
Qed.

(** ** The order on scores *)

Lemma clamp_full (x : score) : clamp NegInf PosInf x = x.
Proof. destruct x; reflexivity. Qed.


(** Laws of the order, [max] and [min] of scores, by cases on the three
    kinds of score and on the comparisons of integers. *)
Ltac score_brute :=
  intros;
  repeat match goal with x : score |- _ => destruct x end;
  unfold clamp, score_max, score_min, score_ltb, score_leb in *;
  cbn [negb] in *;
  repeat (match goal with
          | |- context [?x <=? ?y] => destruct (Z.leb_spec x y)
          | H : context [?x <=? ?y] |- _ => destruct (Z.leb_spec x y)
          end; cbn [negb] in *);
  try discriminate; try reflexivity; try (f_equal; lia); try lia.

Lemma score_leb_refl (x : score) : score_leb x x = true.
Proof. score_brute. Qed.

Lemma score_leb_trans (x y z : score) :
  score_leb x y = true -> score_leb y z = true -> score_leb x z = true.
Proof. score_brute. Qed.

Lemma score_leb_antisym (x y : score) :
  score_leb x y = true -> score_leb y x = true -> x = y.
Proof. score_brute. Qed.

Lemma score_max_assoc (a b c : score) :
  score_max (score_max a b) c = score_max a (score_max b c).
Proof. score_brute. Qed.

Lemma score_min_assoc (a b c : score) :
  score_min (score_min a b) c = score_min a (score_min b c).
Proof. score_brute. Qed.

Lemma score_max_NegInf_r (a : score) : score_max a NegInf = a.
Proof. score_brute. Qed.

Lemma score_min_PosInf_r (a : score) : score_min a PosInf = a.
Proof. score_brute. Qed.

Lemma score_max_ge_l (x y : score) : score_leb x (score_max x y) = true.
Proof. score_brute. Qed.

Lemma score_min_le_l (x y : score) : score_leb (score_min x y) x = true.
Proof. score_brute. Qed.

Lemma clamp_shift_max (a me be x : score) :
  clamp (score_max a me) be x = clamp a be (score_max me x).
Proof. score_brute. Qed.

Lemma clamp_max (a be x y : score) :
  clamp a be (score_max x y) = score_max (clamp a be x) (clamp a be y).
Proof. score_brute. Qed.

Lemma clamp_min (a be x y : score) :
  clamp a be (score_min x y) = score_min (clamp a be x) (clamp a be y).
Proof. score_brute. Qed.

Lemma clamp_mono (a be x y : score) :
  score_leb x y = true -> score_leb (clamp a be x) (clamp a be y) = true.
Proof. score_brute. Qed.

Lemma clamp_le_beta (a be x : score) : score_leb (clamp a be x) be = true.
Proof. score_brute. Qed.

Lemma clamp_ge_floor (a be x : score) :
  score_leb (score_min be a) (clamp a be x) = true.
Proof. score_brute. Qed.

Lemma clamp_break_max (a be me : score) :
  score_leb be (score_max a me) = true -> clamp a be me = be.
Proof. score_brute. Qed.

Lemma clamp_break_min (a be me : score) :
  score_leb (score_min be me) a = true -> clamp a be me = score_min be a.
Proof. score_brute. Qed.

Lemma clamp_window_min (a b0 me x : score) :
  score_min (clamp a b0 me) (clamp a b0 x)
  = score_max (score_min b0 a) (clamp a (score_min b0 me) x).
Proof. score_brute. Qed.

Lemma fold_max_ge {A} (f : A -> score) (l : list A) (init : score) :
  score_leb init (fold_left (fun best x => score_max best (f x)) l init) = true.
Proof.
  revert init. induction l as [|x l IH]; intros init; cbn [fold_left].
  - apply score_leb_refl.
  - eapply score_leb_trans; [apply score_max_ge_l|apply IH].
Qed.

Lemma fold_min_le {A} (f : A -> score) (l : list A) (init : score) :
  score_leb (fold_left (fun best x => score_min best (f x)) l init) init = true.
Proof.
  revert init. induction l as [|x l IH]; intros init; cbn [fold_left].
  - apply score_leb_refl.
  - eapply score_leb_trans; [apply IH|apply score_min_le_l].
Qed.

(** One step of the loop of a maximizing node: [me] is the running maximum
    of the pruned loop, [mm] that of the exhaustive one, [v] and [m] what
    the two searches return for the next candidate. *)
Lemma max_continue (a0 be me mm v m : score) :
  clamp a0 be me = clamp a0 be mm ->
  clamp (score_max a0 me) be v = clamp (score_max a0 me) be m ->
  clamp a0 be (score_max me v) = clamp a0 be (score_max mm m).
Proof.
  intros H1 H2. rewrite <- clamp_shift_max, H2, clamp_shift_max.
  rewrite !clamp_max, H1. reflexivity.
Qed.

Lemma max_break (a0 be me mm final : score) :
  clamp a0 be me = clamp a0 be mm ->
  score_leb be (score_max a0 me) = true ->
  score_leb mm final = true ->
  clamp a0 be me = clamp a0 be final.
Proof.
  intros H1 Hbrk Hfin. pose proof (clamp_break_max _ _ _ Hbrk) as Hme.
  rewrite Hme. apply score_leb_antisym; [|apply clamp_le_beta].
  eapply score_leb_trans; [|apply clamp_mono, Hfin].
  rewrite <- H1, Hme. apply score_leb_refl.
Qed.

Lemma min_continue (a b0 me mm v m : score) :
  clamp a b0 me = clamp a b0 mm ->
  clamp a (score_min b0 me) v = clamp a (score_min b0 me) m ->
  clamp a b0 (score_min me v) = clamp a b0 (score_min mm m).
Proof.
  intros H1 H2. rewrite !clamp_min, <- H1, !clamp_window_min, H2.
  reflexivity.
Qed.

Lemma min_break (a b0 me mm final : score) :
  clamp a b0 me = clamp a b0 mm ->
  score_leb (score_min b0 me) a = true ->
  score_leb final mm = true ->
  clamp a b0 me = clamp a b0 final.
Proof.
  intros H1 Hbrk Hfin. pose proof (clamp_break_min _ _ _ Hbrk) as Hme.
  rewrite Hme. apply score_leb_antisym; [apply clamp_ge_floor|].
  eapply score_leb_trans; [apply clamp_mono, Hfin|].
  rewrite <- H1, Hme. apply score_leb_refl.
Qed.

(** ** The search *)

(** Place, search below, undo: one candidate of a node. *)
Lemma place_search_undo {B} (rec : M score) (k : score -> M B)
    (row col p v : Z) (x : score) (b : board) :
  grid_ok b = true -> In (row, col) (empty_cells b) ->
  rec (place b row col p) = (place b row col p, Ret x) ->
  mbind (set_cell row col p)
    (fun _ => mbind rec (fun eval => mbind (set_cell row col v)
                                      (fun _ => k eval))) b
  = k x (place b row col v).
Proof.
  intros Hok Hin Hrec. apply in_empty_cells in Hin as [Hin H0].
  rewrite set_step by assumption.
  rewrite (mbind_step _ _ _ _ _ Hrec).
  rewrite set_step by auto with grid.
  rewrite place_place. reflexivity.
Qed.

Lemma place_zero (b : board) (row col : Z) :
  grid_ok b = true -> In (row, col) (empty_cells b) -> place b row col 0 = b.
Proof.
  intros Hok Hin. apply in_empty_cells in Hin as [Hin H0].
  rewrite <- H0 at 1. apply place_same, grid_ok_readable; assumption.
Qed.

Lemma max_loop_ok (rec : score -> score -> M score) (value : board -> score)
    (p : Z) (b : board) (a0 be : score) (moves : list move) :
  grid_ok b = true ->
  (forall mv, In mv moves -> In mv (empty_cells b)) ->
  (forall mv a, In mv moves ->
     exists v,
       rec a be (place b (fst mv) (snd mv) p)
       = (place b (fst mv) (snd mv) p, Ret v)
       /\ clamp a be v = clamp a be (value (place b (fst mv) (snd mv) p))) ->
  forall me mm,
    clamp a0 be me = clamp a0 be mm ->
    exists v,
      max_loop rec p moves me (score_max a0 me) be b = (b, Ret v)
      /\ clamp a0 be v
         = clamp a0 be
             (fold_left (fun best mv =>
                           score_max best
                             (value (place b (fst mv) (snd mv) p)))
                        moves mm).
Proof.
  intros Hok. induction moves as [|[row col] rest IH];
    intros Hempty Hrec me mm Hinv.
  - exists me. split; [reflexivity|exact Hinv].
  - cbn [max_loop fold_left fst snd].
    destruct (Hrec (row, col) (score_max a0 me) ltac:(left; reflexivity))
      as (v & Hv & Hclamp). cbn [fst snd] in Hv, Hclamp.
    rewrite (place_search_undo _ _ _ _ _ _ v) by (auto using in_eq).
    rewrite place_zero by (auto using in_eq).
    pose proof (max_continue _ _ _ _ _ _ Hinv Hclamp) as Hnext.
    destruct (score_leb be (score_max (score_max a0 me) v)) eqn:Hbrk.
    + exists (score_max me v). split; [reflexivity|].
      rewrite score_max_assoc in Hbrk.
      eapply max_break; [exact Hnext|exact Hbrk|].
      apply (fold_max_ge (fun mv => value (place b (fst mv) (snd mv) p))).
    + rewrite score_max_assoc. apply IH.
      * intros mv Hmv. apply Hempty. right; exact Hmv.
      * intros mv a Hmv. apply Hrec. right; exact Hmv.
      * exact Hnext.
Qed.

Lemma min_loop_ok (rec : score -> score -> M score) (value : board -> score)
    (p : Z) (b : board) (a b0 : score) (moves : list move) :
  grid_ok b = true ->
  (forall mv, In mv moves -> In mv (empty_cells b)) ->
  (forall mv be, In mv moves ->
     exists v,
       rec a be (place b (fst mv) (snd mv) p)
       = (place b (fst mv) (snd mv) p, Ret v)
       /\ clamp a be v = clamp a be (value (place b (fst mv) (snd mv) p))) ->
  forall me mm,
    clamp a b0 me = clamp a b0 mm ->
    exists v,
      min_loop rec p moves me a (score_min b0 me) b = (b, Ret v)
      /\ clamp a b0 v
         = clamp a b0
             (fold_left (fun best mv =>
                           score_min best
                             (value (place b (fst mv) (snd mv) p)))
                        moves mm).
Proof.
  intros Hok. induction moves as [|[row col] rest IH];
    intros Hempty Hrec me mm Hinv.
  - exists me. split; [reflexivity|exact Hinv].
  - cbn [min_loop fold_left fst snd].
    destruct (Hrec (row, col) (score_min b0 me) ltac:(left; reflexivity))
      as (v & Hv & Hclamp). cbn [fst snd] in Hv, Hclamp.
    rewrite (place_search_undo _ _ _ _ _ _ v) by (auto using in_eq).
    rewrite place_zero by (auto using in_eq).
    pose proof (min_continue _ _ _ _ _ _ Hinv Hclamp) as Hnext.
    destruct (score_leb (score_min (score_min b0 me) v) a) eqn:Hbrk.
    + exists (score_min me v). split; [reflexivity|].
      rewrite score_min_assoc in Hbrk.
      eapply min_break; [exact Hnext|exact Hbrk|].
      apply (fold_min_le (fun mv => value (place b (fst mv) (snd mv) p))).
    + rewrite score_min_assoc. apply IH.
      * intros mv Hmv. apply Hempty. right; exact Hmv.
      * intros mv be Hmv. apply Hrec. right; exact Hmv.
      * exact Hnext.
Qed.

(** The search returns, with the grid as it found it, a score that agrees
    with the value of the node once both are cut to the window. *)
Lemma _minimax_window (depth : nat) :
  forall (is_maximizing : bool) (p : Z) (alpha beta : score) (b : board),
    grid_ok b = true ->
    exists v,
      _minimax depth is_maximizing p alpha beta b = (b, Ret v)
      /\ clamp alpha beta v
         = clamp alpha beta (minimax_value depth is_maximizing p b).
Proof.
  induction depth as [|d IH]; intros mx p alpha beta b Hok.
  - exists (Fin (board_value b p)). split; [|reflexivity].
    cbn [_minimax]. rewrite (read_step _ _ _ (board_value b p))
      by (apply _evaluate_board_ok, Hok). reflexivity.
  - cbn [_minimax minimax_value].
    rewrite (read_step _ _ _ (game_over b)) by (apply _is_game_over_ok, Hok).
    destruct (game_over b).
    { exists (Fin (board_value b p)). split; [|reflexivity].
      rewrite (read_step _ _ _ (board_value b p))
        by (apply _evaluate_board_ok, Hok). reflexivity. }
    destruct mx.
    + rewrite (read_step _ _ _ (candidates b))
        by (apply _get_candidate_moves_ok, Hok).
      pose proof (max_loop_ok (_minimax d false p) (minimax_value d false p)
                    p b alpha beta (candidates b) Hok (candidates_empty b))
        as Hloop.
      destruct (Hloop (fun mv a _ => IH false p a beta _
                                       (grid_ok_place _ _ _ _ Hok))
                      NegInf NegInf eq_refl) as (v & Hv & Hclamp).
      rewrite score_max_NegInf_r in Hv. exists v. split; assumption.
    + rewrite (read_step _ _ _ (candidates b))
        by (apply _get_candidate_moves_ok, Hok).
      pose proof (min_loop_ok (_minimax d true p) (minimax_value d true p)
                    (3 - p) b alpha beta (candidates b) Hok
                    (candidates_empty b)) as Hloop.
      destruct (Hloop (fun mv be _ => IH true p alpha be _
                                        (grid_ok_place _ _ _ _ Hok))
                      PosInf PosInf eq_refl) as (v & Hv & Hclamp).
      rewrite score_min_PosInf_r in Hv. exists v. split; assumption.
Qed.

Lemma _minimax_ok (depth : nat) (mx : bool) (p : Z) (alpha beta : score)
    (b : board) :
  grid_ok b = true ->
  exists v, _minimax depth mx p alpha beta b = (b, Ret v).
Proof.
  intros Hok.
  destruct (_minimax_window depth mx p alpha beta b Hok) as (v & Hv & _).
  exists v. exact Hv.
Qed.

Lemma exhaustive_max_loop_ok (rec : M score) (value : board -> score)
    (p : Z) (b : board) (moves : list move) :
  grid_ok b = true ->
  (forall mv, In mv moves -> In mv (empty_cells b)) ->
  (forall mv, In mv moves ->
     rec (place b (fst mv) (snd mv) p)
     = (place b (fst mv) (snd mv) p,
        Ret (value (place b (fst mv) (snd mv) p)))) ->
  forall mm,
    exhaustive_max_loop rec p moves mm b
    = (b, Ret (fold_left (fun best mv =>
                            score_max best
                              (value (place b (fst mv) (snd mv) p)))
                         moves mm)).
Proof.
  intros Hok. induction moves as [|[row col] rest IH]; intros Hempty Hrec mm.
  - reflexivity.
  - cbn [exhaustive_max_loop fold_left fst snd].
    rewrite (place_search_undo _ _ _ _ _ _ _ _ Hok
               (Hempty _ (in_eq _ _)) (Hrec _ (in_eq _ _))).
    rewrite place_zero by (auto using in_eq).
    apply IH; intros mv Hmv; [apply Hempty|apply Hrec]; right; exact Hmv.
Qed.

Lemma exhaustive_min_loop_ok (rec : M score) (value : board -> score)
    (p : Z) (b : board) (moves : list move) :
  grid_ok b = true ->
  (forall mv, In mv moves -> In mv (empty_cells b)) ->
  (forall mv, In mv moves ->
     rec (place b (fst mv) (snd mv) p)
     = (place b (fst mv) (snd mv) p,
        Ret (value (place b (fst mv) (snd mv) p)))) ->
  forall mm,
    exhaustive_min_loop rec p moves mm b
    = (b, Ret (fold_left (fun best mv =>
                            score_min best
                              (value (place b (fst mv) (snd mv) p)))
                         moves mm)).
Proof.
  intros Hok. induction moves as [|[row col] rest IH]; intros Hempty Hrec mm.
  - reflexivity.
  - cbn [exhaustive_min_loop fold_left fst snd].
    rewrite (place_search_undo _ _ _ _ _ _ _ _ Hok
               (Hempty _ (in_eq _ _)) (Hrec _ (in_eq _ _))).
    rewrite place_zero by (auto using in_eq).
    apply IH; intros mv Hmv; [apply Hempty|apply Hrec]; right; exact Hmv.
Qed.

Lemma exhaustive_minimax_ok (depth : nat) :
  forall (mx : bool) (p : Z) (b : board),
    grid_ok b = true ->
    exhaustive_minimax depth mx p b = (b, Ret (minimax_value depth mx p b)).
Proof.
  induction depth as [|d IH]; intros mx p b Hok.
  - cbn [exhaustive_minimax minimax_value].
    rewrite (read_step _ _ _ (board_value b p))
      by (apply _evaluate_board_ok, Hok). reflexivity.
  - cbn [exhaustive_minimax minimax_value].
    rewrite (read_step _ _ _ (game_over b)) by (apply _is_game_over_ok, Hok).
    destruct (game_over b).
    { rewrite (read_step _ _ _ (board_value b p))
        by (apply _evaluate_board_ok, Hok). reflexivity. }
    destruct mx;
      rewrite (read_step _ _ _ (candidates b))
        by (apply _get_candidate_moves_ok, Hok).
    + apply (exhaustive_max_loop_ok _ (minimax_value d false p));
        [exact Hok|apply candidates_empty|].
      intros mv _. apply IH, grid_ok_place, Hok.
    + apply (exhaustive_min_loop_ok _ (minimax_value d true p));
        [exact Hok|apply candidates_empty|].
      intros mv _. apply IH, grid_ok_place, Hok.
Qed.

(** ** Move selection *)

(** A stateful loop whose body gives the grid back keeps an invariant of
    the accumulator. *)
Lemma mfold_inv {A S} (P : S -> Prop) (body : S -> A -> M S) (l : list A)
    (b : board) :
  (forall s x, In x l -> P s ->
     exists s', body s x b = (b, Ret s') /\ P s') ->
  forall s, P s -> exists s', mfold body l s b = (b, Ret s') /\ P s'.
Proof.
  induction l as [|x l IH]; intros Hbody s Hs.
  - exists s. split; [reflexivity|exact Hs].
  - destruct (Hbody s x (in_eq _ _) Hs) as (s1 & H1 & Hs1).
    cbn [mfold]. rewrite (mbind_step _ _ _ _ _ H1).
    apply IH; [|exact Hs1].
    intros s' y Hy. apply Hbody. right; exact Hy.
Qed.

Lemma root_step_ok (depth : nat) (p : Z) (l : list move)
    (best : score * option move) (mv : move) (b : board) :
  grid_ok b = true -> In mv (empty_cells b) -> In mv l ->
  best_among l best ->
  exists best',
    root_step depth p best mv b = (b, Ret best') /\ best_among l best'.
Proof.
  intros Hok Hempty Hin Hbest. destruct mv as [row col]. unfold root_step.
  destruct (_minimax_ok depth false p NegInf PosInf (place b row col p)
              (grid_ok_place _ _ _ _ Hok)) as (v & Hv).
  rewrite (place_search_undo _ _ _ _ _ _ v) by assumption.
  rewrite place_zero by assumption.
  eexists. split; [reflexivity|].
  destruct (score_ltb (fst best) v); [exact Hin|exact Hbest].
Qed.

Lemma expert_step_ok (p : Z) (l : list move) (best : float * option move)
    (mv : move) (b : board) :
  grid_ok b = true -> In mv (empty_cells b) -> In mv l ->
  best_among l best ->
  exists best',
    expert_step p best mv b = (b, Ret best') /\ best_among l best'.
Proof.
  intros Hok Hempty Hin Hbest. destruct mv as [row col]. unfold expert_step.
  destruct (_minimax_ok 6 false p NegInf PosInf (place b row col p)
              (grid_ok_place _ _ _ _ Hok)) as (v & Hv).
  rewrite (place_search_undo _ _ _ _ _ _ v) by assumption.
  rewrite place_zero by assumption.
  eexists. split; [reflexivity|].
  match goal with |- context [if ?c then _ else _] => destruct c end;
    [exact Hin|exact Hbest].
Qed.

Lemma best_or_first_ok (best_move : option move) (l : list move) (b : board) :
  l <> [] -> match best_move with Some mv => In mv l | None => True end ->
  exists mv, best_or_first best_move l b = (b, Ret mv) /\ In mv l.
Proof.
  intros Hl Hbest. unfold best_or_first.
  destruct best_move as [mv|].
  - exists mv. split; [reflexivity|exact Hbest].
  - destruct l as [|mv l]; [congruence|].
    exists mv. split; [reflexivity|left; reflexivity].
Qed.

Lemma root_search_ok (depth : nat) (p : Z) (b : board) :
  grid_ok b = true -> empty_cells b <> [] ->
  exists mv,
    mbind (read _get_candidate_moves)
      (fun candidate_moves =>
         mbind (mfold (root_step depth p) candidate_moves (NegInf, None))
           (fun best => best_or_first (snd best) candidate_moves)) b
    = (b, Ret mv)
    /\ In mv (candidates b).
Proof.
  intros Hok Hne.
  rewrite (read_step _ _ _ (candidates b))
    by (apply _get_candidate_moves_ok, Hok).
  destruct (mfold_inv (best_among (candidates b)) (root_step depth p)
              (candidates b) b) with (s := (NegInf, @None move))
    as (best & Hbest & Hamong).
  - intros s mv Hmv Hs. apply root_step_ok; auto using candidates_empty.
  - exact I.
  - rewrite (mbind_step _ _ _ _ _ Hbest).
    apply best_or_first_ok; [apply candidates_nonempty, Hne|exact Hamong].
Qed.

Lemma root_search_exhausted (depth : nat) (p : Z) (b : board) :
  grid_ok b = true -> empty_cells b = [] ->
  mbind (read _get_candidate_moves)
    (fun candidate_moves =>
       mbind (mfold (root_step depth p) candidate_moves (NegInf, None))
         (fun best => best_or_first (snd best) candidate_moves)) b
  = (b, Raise (IndexError FirstCandidate)).
Proof.
  intros Hok He.
  rewrite (read_step _ _ _ (candidates b))
    by (apply _get_candidate_moves_ok, Hok).
  assert (candidates b = []) as ->; [|reflexivity].
  unfold candidates. rewrite He. reflexivity.
Qed.

(** The stable sort rearranges the scored moves. *)
Lemma in_insert_desc (x y : Z * move) (l : list (Z * move)) :
  In y (insert_desc x l) <-> y = x \/ In y l.
Proof.
  induction l as [|z l IH]; cbn [insert_desc In].
  - intuition congruence.
  - destruct (fst x <? fst z); cbn [In]; [rewrite IH|]; intuition congruence.
Qed.

Lemma in_sort_desc (y : Z * move) (l : list (Z * move)) :
  In y (sort_desc l) <-> In y l.
Proof.
  induction l as [|x l IH]; cbn [sort_desc foldr In]; [reflexivity|].
  fold (sort_desc l). rewrite in_insert_desc, IH. intuition congruence.
Qed.

Lemma sort_desc_nonempty (l : list (Z * move)) : l <> [] -> sort_desc l <> [].
Proof.
  destruct l as [|x l]; [congruence|]. intros _. cbn [sort_desc foldr].
  destruct (foldr insert_desc [] l) as [|z l']; cbn [insert_desc];
    [discriminate|].
  destruct (fst x <? fst z); discriminate.
Qed.

Lemma priority_moves_candidates (b : board) (p : Z) (mv : move) :
  In mv (priority_moves b p) -> In mv (candidates b).
Proof.
  unfold priority_moves. intros H.
  apply in_map_iff in H as ([s mv'] & <- & H). cbn [snd].
  apply list_elem_of_In, elem_of_take in H as (i & H & _).
  apply list_elem_of_lookup_2, list_elem_of_In in H.
  apply (proj1 (in_sort_desc _ _)) in H.
  apply in_map_iff in H as (mv0 & [= _ ->] & H). exact H.
Qed.

Lemma priority_moves_nonempty (b : board) (p : Z) :
  candidates b <> [] -> priority_moves b p <> [].
Proof.
  intros H. unfold priority_moves.
  destruct (sort_desc (map (fun mv => (move_threat b mv p, mv)) (candidates b)))
    as [|x l] eqn:E.
  - exfalso. revert E. apply sort_desc_nonempty.
    destruct (candidates b); [congruence|discriminate].
  - discriminate.
Qed.

Lemma _intermediate_move_ok (p : Z) (b : board) :
  grid_ok b = true -> empty_cells b <> [] ->
  exists mv, _intermediate_move p b = (b, Ret mv) /\ In mv (candidates b).
Proof. apply root_search_ok. Qed.

Lemma _advance_move_ok (p : Z) (b : board) :
  grid_ok b = true -> empty_cells b <> [] ->
  exists mv, _advance_move p b = (b, Ret mv) /\ In mv (candidates b).
Proof. apply root_search_ok. Qed.

Lemma _enhanced_minimax_move_ok (p : Z) (b : board) :
  grid_ok b = true -> empty_cells b <> [] ->
  exists mv,
    _enhanced_minimax_move p b = (b, Ret mv) /\ In mv (candidates b).
Proof.
  intros Hok Hne. unfold _enhanced_minimax_move.
  rewrite (mbind_step _ _ _ _ _ (_get_priority_moves_ok p b Hok)).
  destruct (mfold_inv (best_among (priority_moves b p)) (expert_step p)
              (priority_moves b p) b) with (s := (neg_infinity, @None move))
    as (best & Hbest & Hamong).
  - intros s mv Hmv Hs.
    apply expert_step_ok; [exact Hok| |exact Hmv|exact Hs].
    apply candidates_empty, (priority_moves_candidates _ p), Hmv.
  - exact I.
  - rewrite (mbind_step _ _ _ _ _ Hbest).
    destruct (best_or_first_ok (snd best) (priority_moves b p) b)
      as (mv & Hmv & Hin).
    + apply priority_moves_nonempty, candidates_nonempty, Hne.
    + exact Hamong.
    + exists mv. split; [exact Hmv|].
      apply priority_moves_candidates with (p := p), Hin.
Qed.

Lemma _enhanced_minimax_move_exhausted (p : Z) (b : board) :
  grid_ok b = true -> empty_cells b = [] ->
  _enhanced_minimax_move p b = (b, Raise (IndexError FirstCandidate)).
Proof.
  intros Hok He. unfold _enhanced_minimax_move.
  rewrite (mbind_step _ _ _ _ _ (_get_priority_moves_ok p b Hok)).
  assert (priority_moves b p = []) as ->; [|reflexivity].
  unfold priority_moves, candidates. rewrite He. reflexivity.
Qed.

Lemma wins_empty (b : board) (p : Z) (mv : move) :
  In mv all_cells -> wins b p mv = true -> In mv (empty_cells b).
Proof.
  intros Hin Hw. unfold empty_cells. apply filter_In. split; [exact Hin|].
  unfold wins in Hw. apply andb_true_iff in Hw. tauto.
Qed.

Lemma find_wins_empty (b : board) (p : Z) (mv : move) :
  find (wins b p) all_cells = Some mv -> In mv (empty_cells b).
Proof.
  intros H. apply find_some in H as [Hin Hw]. eapply wins_empty; eassumption.
Qed.

Lemma find_wins_exhausted (b : board) (p : Z) :
  empty_cells b = [] -> find (wins b p) all_cells = None.
Proof.
  intros He. destruct (find (wins b p) all_cells) as [mv|] eqn:E;
    [|reflexivity].
  apply find_wins_empty in E. rewrite He in E. destruct E.
Qed.

Lemma expert_policy_ok (search : Z -> M move) (p : Z) (b : board) :
  grid_ok b = true ->
  expert_policy search p b
  = match find (wins b p) all_cells with
    | Some mv => (b, Ret mv)
    | None =>
        match find (wins b (3 - p)) all_cells with
        | Some mv => (b, Ret mv)
        | None => search p b
        end
    end.
Proof.
  intros Hok. unfold expert_policy.
  rewrite (mbind_step _ _ _ _ _ (_find_winning_move_ok p b Hok)).
  destruct (find (wins b p) all_cells); [reflexivity|].
  rewrite (mbind_step _ _ _ _ _ (_find_winning_move_ok (3 - p) b Hok)).
  destruct (find (wins b (3 - p)) all_cells); reflexivity.
Qed.

Lemma _expert_move_ok (p : Z) (b : board) :
  grid_ok b = true -> empty_cells b <> [] ->
  exists mv, _expert_move p b = (b, Ret mv) /\ In mv (empty_cells b).
Proof.
  intros Hok Hne. unfold _expert_move. rewrite expert_policy_ok by exact Hok.
  destruct (find (wins b p) all_cells) as [mv|] eqn:E1.
  { exists mv. split; [reflexivity|]. eapply find_wins_empty, E1. }
  destruct (find (wins b (3 - p)) all_cells) as [mv|] eqn:E2.
  { exists mv. split; [reflexivity|]. eapply find_wins_empty, E2. }
  destruct (_enhanced_minimax_move_ok p b Hok Hne) as (mv & Hmv & Hin).
  exists mv. split; [exact Hmv|]. apply candidates_empty, Hin.
Qed.

Lemma _expert_move_exhausted (p : Z) (b : board) :
  grid_ok b = true -> empty_cells b = [] ->
  _expert_move p b = (b, Raise (IndexError FirstCandidate)).
Proof.
  intros Hok He. unfold _expert_move. rewrite expert_policy_ok by exact Hok.
  rewrite !find_wins_exhausted by exact He.
  apply _enhanced_minimax_move_exhausted; assumption.
Qed.

Lemma random_choice_ok {A} (g : rng) (l : list A) (b : board) :
  l <> [] -> exists x, random_choice g l b = (b, Ret x) /\ In x l.
Proof.
  intros Hl. unfold random_choice.
  assert (choice_index g mod length l < length l)%nat as Hlt.
  { apply Nat.mod_upper_bound. destruct l; [congruence|discriminate]. }
  destruct (lookup_lt_is_Some_2 l _ Hlt) as [x Hx]. rewrite Hx.
  exists x. split; [reflexivity|].
  apply list_elem_of_In. eapply list_elem_of_lookup_2, Hx.
Qed.

Lemma random_choice_exhausted {A} (g : rng) (b : board) :
  random_choice g (@nil A) b = (b, Raise (IndexError RandomChoice)).
Proof. reflexivity. Qed.

Lemma _beginner_move_ok (g : rng) (p : Z) (b : board) :
  grid_ok b = true -> empty_cells b <> [] ->
  exists mv, _beginner_move g p b = (b, Ret mv) /\ In mv (empty_cells b).
Proof.
  intros Hok Hne. unfold _beginner_move.
  rewrite (read_step _ _ _ (empty_cells b))
    by (apply _get_empty_positions_ok, Hok).
  destruct (PrimFloat.ltb (random_random g) threshold_03).
  - change (_find_defensive_move p) with (_find_winning_move (3 - p)).
    rewrite (mbind_step _ _ _ _ _ (_find_winning_move_ok (3 - p) b Hok)).
    destruct (find (wins b (3 - p)) all_cells) as [mv|] eqn:E.
    + exists mv. split; [reflexivity|]. eapply find_wins_empty, E.
    + apply random_choice_ok, Hne.
  - apply random_choice_ok, Hne.
Qed.

Lemma _beginner_move_exhausted (g : rng) (p : Z) (b : board) :
  grid_ok b = true -> empty_cells b = [] ->
  _beginner_move g p b = (b, Raise (IndexError RandomChoice)).
Proof.
  intros Hok He. unfold _beginner_move.
  rewrite (read_step _ _ _ (empty_cells b))
    by (apply _get_empty_positions_ok, Hok).
  destruct (PrimFloat.ltb (random_random g) threshold_03).
  - change (_find_defensive_move p) with (_find_winning_move (3 - p)).
    rewrite (mbind_step _ _ _ _ _ (_find_winning_move_ok (3 - p) b Hok)).
    rewrite find_wins_exhausted by exact He. rewrite He. reflexivity.
  - rewrite He. reflexivity.
Qed.

Lemma get_move_ok (t : AIDifficulty) (g : rng) (p : Z) (b : board) :
  grid_ok b = true -> empty_cells b <> [] ->
  exists mv, get_move t g p b = (b, Ret mv) /\ In mv (empty_cells b).
Proof.
  intros Hok Hne. destruct t; cbn [get_move].
  - apply _beginner_move_ok; assumption.
  - destruct (_intermediate_move_ok p b Hok Hne) as (mv & Hmv & Hin).
    exists mv. split; [exact Hmv|apply candidates_empty, Hin].
  - destruct (_advance_move_ok p b Hok Hne) as (mv & Hmv & Hin).
    exists mv. split; [exact Hmv|apply candidates_empty, Hin].
  - apply _expert_move_ok; assumption.
Qed.

Lemma get_move_exhausted (t : AIDifficulty) (g : rng) (p : Z) (b : board) :
  grid_ok b = true -> empty_cells b = [] ->
  get_move t g p b
  = (b, Raise (IndexError (match t with
                           | BEGINNER => RandomChoice
                           | _ => FirstCandidate
                           end))).
Proof.
  intros Hok He. destruct t; cbn [get_move].
  - apply _beginner_move_exhausted; assumption.
  - apply root_search_exhausted; assumption.
  - apply root_search_exhausted; assumption.
  - apply _expert_move_exhausted; assumption.
Qed.

(** ** The anchor of a run is never read *)

(** The cells a counting loop visits lie strictly on one side of the
    anchor, so what the anchor holds does not matter, on any grid. *)
Lemma count_while_anchor (fuel : nat) (b : board)
    (row col v r c dr dc p count : Z) :
  (0 < dr /\ row < r) \/ (dr < 0 /\ r < row) \/
  (0 < dc /\ col < c) \/ (dc < 0 /\ c < col) ->
  count_while fuel (place b row col v) r c dr dc p count
  = count_while fuel b r c dr dc p count.
Proof.
  revert r c count. induction fuel as [|fuel IH]; intros r c count Hside;
    [reflexivity|].
  rewrite !count_while_S.
  destruct (in_board r c); [|reflexivity].
  rewrite get_place_ne by (intros [= -> ->]; lia).
  apply obind_ext. intros x. destruct (x =? p); [|reflexivity].
  apply IH. lia.
Qed.

Lemma _count_consecutive_anchor (b : board) (row col v dr dc p : Z) :
  (dr, dc) <> (0, 0) ->
  _count_consecutive (place b row col v) row col dr dc p
  = _count_consecutive b row col dr dc p.
Proof.
  intros Hd. unfold _count_consecutive.
  assert (dr <> 0 \/ dc <> 0) as Hnz
      by (destruct (decide (dr = 0)); [right; congruence|left; assumption]).
  rewrite count_while_anchor by lia.
  apply obind_ext. intros count. apply count_while_anchor. lia.
Qed.

Lemma ofold_ext {A S} (f g : S -> A -> outcome S) (l : list A) (s : S) :
  (forall s x, In x l -> f s x = g s x) -> ofold f l s = ofold g l s.
Proof.
  revert s. induction l as [|x l IH]; intros s H; cbn [ofold]; [reflexivity|].
  rewrite (H s x) by (left; reflexivity).
  apply obind_ext. intros s'. apply IH. intros s'' y Hy. apply H.
  right; exact Hy.
Qed.

Lemma _evaluate_position_anchor (b : board) (row col v p : Z) :
  _evaluate_position (place b row col v) row col p
  = _evaluate_position b row col p.
Proof.
  unfold _evaluate_position. apply ofold_ext.
  intros s [dr dc] Hd. apply directions_nonzero in Hd.
  unfold _evaluate_direction. rewrite _count_consecutive_anchor by exact Hd.
  reflexivity.
Qed.

Lemma run_through_anchor (b : board) (row col v dr dc p : Z) :
  grid_ok b = true -> (dr, dc) <> (0, 0) ->
  run_through (place b row col v) row col dr dc p
  = run_through b row col dr dc p.
Proof.
  intros Hok Hd.
  pose proof (_count_consecutive_anchor b row col v dr dc p Hd) as H.
  rewrite !_count_consecutive_ok in H
    by auto with grid.
  congruence.
Qed.

Lemma fold_left_ext_in {A B} (f g : A -> B -> A) (l : list B) (a : A) :
  (forall a x, In x l -> f a x = g a x) -> fold_left f l a = fold_left g l a.
Proof.
  revert a. induction l as [|x l IH]; intros a H; cbn [fold_left];
    [reflexivity|].
  rewrite (H a x) by (left; reflexivity). apply IH.
  intros a' y Hy. apply H. right; exact Hy.
Qed.

Lemma run_through_pos (b : board) (row col dr dc p : Z) :
  1 <= run_through b row col dr dc p.
Proof.
  unfold run_through.
  pose proof (run_len_nonneg (Z.to_nat board_size) b (row + dr) (col + dc)
                dr dc p).
  pose proof (run_len_nonneg (Z.to_nat board_size) b (row - dr) (col - dc)
                (- dr) (- dc) p).
  lia.
Qed.

(** ** Runs and lines of five *)

Lemma run_len_ge (n : nat) (b : board) (dr dc p : Z) :
  forall m r c,
    0 <= m <= Z.of_nat n ->
    (m <= run_len n b r c dr dc p <->
     forall t, 0 <= t < m ->
       in_board (r + t * dr) (c + t * dc) = true
       /\ cell b (r + t * dr) (c + t * dc) = p).
Proof.
  induction n as [|n IH]; intros m r c Hm.
  - cbn [run_len]. split; [intros _ t Ht; lia|intros _; lia].
  - rewrite run_len_S.
    destruct (decide (m = 0)) as [->|Hm0].
    { split; [intros _ t Ht; lia|].
      intros _. destruct (in_board r c && (cell b r c =? p)); [|lia].
      pose proof (run_len_nonneg n b (r + dr) (c + dc) dr dc p). lia. }
    destruct (in_board r c && (cell b r c =? p)) eqn:E.
    + apply andb_true_iff in E as [Hin Hc]. apply Z.eqb_eq in Hc.
      specialize (IH (m - 1) (r + dr) (c + dc) ltac:(lia)).
      split.
      * intros Hle t Ht. destruct (decide (t = 0)) as [->|Ht0].
        { replace (r + 0 * dr) with r by lia.
          replace (c + 0 * dc) with c by lia. auto. }
        replace (r + t * dr) with (r + dr + (t - 1) * dr) by lia.
        replace (c + t * dc) with (c + dc + (t - 1) * dc) by lia.
        apply IH; lia.
      * intros H. enough (m - 1 <= run_len n b (r + dr) (c + dc) dr dc p)
          by lia.
        apply IH. intros t Ht.
        replace (r + dr + t * dr) with (r + (t + 1) * dr) by lia.
        replace (c + dc + t * dc) with (c + (t + 1) * dc) by lia.
        apply H. lia.
    + split; [lia|]. intros H. exfalso.
      specialize (H 0 ltac:(lia)).
      replace (r + 0 * dr) with r in H by lia.
      replace (c + 0 * dc) with c in H by lia.
      destruct H as [Hin Hc]. rewrite Hin, Hc, Z.eqb_refl in E. discriminate.
Qed.

(** The run through a cell that holds [p] is five or more exactly when the
    cell lies on five successive cells of [p]. *)
Lemma run_through_five (b : board) (row col dr dc p : Z) :
  in_board row col = true -> cell b row col = p ->
  (5 <= run_through b row col dr dc p <->
   exists k, 0 <= k <= 4 /\
     forall t, 0 <= t <= 4 ->
       in_board (row + (t - k) * dr) (col + (t - k) * dc) = true
       /\ cell b (row + (t - k) * dr) (col + (t - k) * dc) = p).
Proof.
  intros Hin Hp. unfold run_through.
  set (F := run_len _ b (row + dr) (col + dc) dr dc p).
  set (G := run_len _ b (row - dr) (col - dc) (- dr) (- dc) p).
  pose proof (run_len_nonneg (Z.to_nat board_size) b (row + dr) (col + dc)
                dr dc p) as HF. fold F in HF.
  pose proof (run_len_nonneg (Z.to_nat board_size) b (row - dr) (col - dc)
                (- dr) (- dc) p) as HG. fold G in HG.
  assert (Z.of_nat (Z.to_nat board_size) = 15) as H15 by reflexivity.
  split.
  - intros H5. exists (Z.min G 4). split; [lia|]. intros t Ht.
    destruct (Z.compare_spec t (Z.min G 4)) as [Heq|Hlt|Hgt].
    + replace (row + (t - Z.min G 4) * dr) with row by lia.
      replace (col + (t - Z.min G 4) * dc) with col by lia. auto.
    + assert (Z.min G 4 <= G) as HkG by lia.
      pose proof (proj1 (run_len_ge (Z.to_nat board_size) b (- dr) (- dc) p
                           (Z.min G 4) (row - dr) (col - dc) ltac:(lia))
                    HkG (Z.min G 4 - t - 1) ltac:(lia)) as Hcell.
      clear HkG. rename Hcell into HkG.
      replace (row - dr + (Z.min G 4 - t - 1) * - dr)
        with (row + (t - Z.min G 4) * dr) in HkG by lia.
      replace (col - dc + (Z.min G 4 - t - 1) * - dc)
        with (col + (t - Z.min G 4) * dc) in HkG by lia.
      exact HkG.
    + assert (4 - Z.min G 4 <= F) as HkF by lia.
      pose proof (proj1 (run_len_ge (Z.to_nat board_size) b dr dc p
                           (4 - Z.min G 4) (row + dr) (col + dc) ltac:(lia))
                    HkF (t - Z.min G 4 - 1) ltac:(lia)) as Hcell.
      clear HkF. rename Hcell into HkF.
      replace (row + dr + (t - Z.min G 4 - 1) * dr)
        with (row + (t - Z.min G 4) * dr) in HkF by lia.
      replace (col + dc + (t - Z.min G 4 - 1) * dc)
        with (col + (t - Z.min G 4) * dc) in HkF by lia.
      exact HkF.
  - intros (k & Hk & Hline).
    assert (k <= G) as HkG.
    { apply (proj2 (run_len_ge (Z.to_nat board_size) b (- dr) (- dc) p
                      k (row - dr) (col - dc) ltac:(lia))). intros t Ht.
      replace (row - dr + t * - dr) with (row + ((k - t - 1) - k) * dr) by lia.
      replace (col - dc + t * - dc) with (col + ((k - t - 1) - k) * dc) by lia.
      apply Hline. lia. }
    assert (4 - k <= F) as HkF.
    { apply (proj2 (run_len_ge (Z.to_nat board_size) b dr dc p
                      (4 - k) (row + dr) (col + dc) ltac:(lia))). intros t Ht.
      replace (row + dr + t * dr) with (row + ((k + 1 + t) - k) * dr) by lia.
      replace (col + dc + t * dc) with (col + ((k + 1 + t) - k) * dc) by lia.
      apply Hline. lia. }
    lia.
Qed.

Lemma five_through_line (b : board) (row col p : Z) :
  in_board row col = true -> cell b row col = p ->
  (five_through b row col p = true <-> line_of_five b row col p).
Proof.
  intros Hin Hp. unfold five_through, line_of_five.
  rewrite existsb_exists. split.
  - intros ([dr dc] & Hd & H5). cbn [fst snd] in H5. apply Z.leb_le in H5.
    apply run_through_five in H5 as (k & Hk & Hline); [|assumption..].
    exists dr, dc, k. auto.
  - intros (dr & dc & k & Hd & Hk & Hline). exists (dr, dc).
    split; [exact Hd|]. cbn [fst snd]. apply Z.leb_le.
    apply run_through_five; [assumption..|]. exists k. auto.
Qed.

Lemma wins_completes_five (b : board) (p : Z) (mv : move) :
  grid_ok b = true ->
  (In mv all_cells /\ wins b p mv = true <-> completes_five b p mv).
Proof.
  intros Hok. destruct mv as [r c]. unfold wins, completes_five.
  cbn [fst snd]. rewrite in_all_cells, andb_true_iff, Z.eqb_eq.
  split.
  - intros (Hin & H0 & H5). split; [exact Hin|]. split; [exact H0|].
    apply five_through_line; [exact Hin| |exact H5].
    apply cell_place_eq, grid_ok_readable; assumption.
  - intros (Hin & H0 & H5). split; [exact Hin|]. split; [exact H0|].
    apply five_through_line; [exact Hin| |exact H5].
    apply cell_place_eq, grid_ok_readable; assumption.
Qed.

(** ** The scan is in row-major order *)

Lemma zrange_sorted (lo hi : Z) : StronglySorted Z.lt (zrange lo hi).
Proof.
  unfold zrange. generalize (Z.to_nat (hi - lo)) as n. generalize 0%nat as s.
  intros s n. revert s. induction n as [|n IH]; intros s; cbn [seq map].
  - constructor.
  - constructor; [apply IH|].
    apply List.Forall_forall. intros x Hx.
    apply in_map_iff in Hx as (k & <- & Hk). apply in_seq in Hk. lia.
Qed.

Lemma StronglySorted_app_intro {A} (R : A -> A -> Prop) (l1 l2 : list A) :
  StronglySorted R l1 -> StronglySorted R l2 ->
  (forall x y, In x l1 -> In y l2 -> R x y) ->
  StronglySorted R (l1 ++ l2).
Proof.
  intros H1 H2 Hcross. induction H1 as [|x l1 Hs IH Hall]; cbn [app].
  - exact H2.
  - constructor.
    + apply IH. intros a y Ha Hy. apply Hcross; [right; exact Ha|exact Hy].
    + apply List.Forall_app. split; [exact Hall|].
      apply List.Forall_forall. intros y Hy. apply Hcross; [left; reflexivity|exact Hy].
Qed.

Lemma pairs_sorted (l1 l2 : list Z) :
  StronglySorted Z.lt l1 -> StronglySorted Z.lt l2 ->
  StronglySorted row_major_lt (pairs l1 (fun _ => l2)).
Proof.
  intros H1 H2. unfold pairs.
  induction H1 as [|i l1 Hs IH Hall]; cbn [flat_map]; [constructor|].
  apply StronglySorted_app_intro.
  - clear -H2. induction H2 as [|j l2 Hs IH Hall]; cbn [map]; constructor.
    + exact IH.
    + apply List.Forall_forall. intros x Hx.
      apply in_map_iff in Hx as (j' & <- & Hj').
      rewrite List.Forall_forall in Hall. right. cbn [fst snd]. auto.
  - exact IH.
  - intros x y Hx Hy. apply in_map_iff in Hx as (j & <- & _).
    apply in_flat_map in Hy as (i' & Hi' & Hy).
    apply in_map_iff in Hy as (j' & <- & _).
    rewrite List.Forall_forall in Hall. left. cbn [fst]. auto.
Qed.

Lemma all_cells_sorted : StronglySorted row_major_lt all_cells.
Proof. apply pairs_sorted; apply zrange_sorted. Qed.

Lemma find_sorted_first (f : move -> bool) (l : list move) (x : move) :
  StronglySorted row_major_lt l -> find f l = Some x ->
  forall y, In y l -> row_major_lt y x -> f y = false.
Proof.
  intros Hs. induction Hs as [|a l Hs IH Hall]; cbn [find]; [discriminate|].
  rewrite List.Forall_forall in Hall.
  destruct (f a) eqn:Ea.
  - intros [= <-] y [<-|Hy] Hlt.
    + unfold row_major_lt in Hlt. lia.
    + specialize (Hall y Hy). unfold row_major_lt in *. lia.
  - intros Hfind y [<-|Hy] Hlt; [exact Ea|]. apply IH; assumption.
Qed.

(** ** Grids of any shape *)

(** A scan that comes to its end has read every cell of the board. *)
Lemma oany_false_all {A} (test : A -> outcome bool) (l : list A) :
  oany test l = Ret false -> forall x, In x l -> test x = Ret false.
Proof.
  induction l as [|a l IH]; cbn [oany]; intros H x Hx; [destruct Hx|].
  destruct (test a) as [[|]| |] eqn:E; cbn [obind] in H; try discriminate.
  destruct Hx as [<-|Hx]; [exact E|apply IH; assumption].
Qed.

Lemma ofold_Ret_all {A S} (body : S -> A -> outcome S) (l : list A) :
  forall s s', ofold body l s = Ret s' ->
    forall x, In x l -> exists s1 s2, body s1 x = Ret s2.
Proof.
  induction l as [|a l IH]; cbn [ofold]; intros s s' H x Hx; [destruct Hx|].
  destruct (body s a) as [s1| |] eqn:E; cbn [obind] in H; try discriminate.
  destruct Hx as [<-|Hx]; [eauto|eapply IH; eassumption].
Qed.

Lemma grid_ok_intro (b : board) :
  (forall i j, In (i, j) all_cells -> readable b i j = true) ->
  grid_ok b = true.
Proof.
  intros H. unfold grid_ok. apply forallb_forall. intros i Hi.
  apply forallb_forall. intros j Hj. apply H, in_all_cells, in_board_spec.
  apply in_range in Hi, Hj. auto.
Qed.

Lemma obind_Ret_inv {A B} (m : outcome A) (k : A -> outcome B) (y : B) :
  obind m k = Ret y -> exists x, m = Ret x /\ k x = Ret y.
Proof. destruct m; cbn [obind]; intros H; try discriminate. eauto. Qed.

Lemma readable_of_get (b : board) (i j v : Z) :
  get_cell b i j = Ret v -> readable b i j = true.
Proof. unfold readable. intros ->. reflexivity. Qed.

Lemma _is_game_over_false_grid_ok (b : board) :
  _is_game_over b = Ret false -> grid_ok b = true.
Proof.
  unfold _is_game_over. rewrite oany_nested. intros H.
  apply grid_ok_intro. intros i j Hin.
  pose proof (oany_false_all _ _ H (i, j) Hin) as Hij. cbn [fst snd] in Hij.
  apply obind_Ret_inv in Hij as (v & Hv & _).
  eapply readable_of_get, Hv.
Qed.

Lemma _get_empty_positions_Ret_grid_ok (b : board) (l : list move) :
  _get_empty_positions b = Ret l -> grid_ok b = true.
Proof.
  unfold _get_empty_positions. rewrite ofold_nested. intros H.
  apply grid_ok_intro. intros i j Hin.
  destruct (ofold_Ret_all _ _ _ _ H (i, j) Hin) as (s1 & s2 & Hij).
  cbn [fst snd] in Hij. apply obind_Ret_inv in Hij as (v & Hv & _).
  eapply readable_of_get, Hv.
Qed.

Lemma _get_candidate_moves_Ret_grid_ok (b : board) (l : list move) :
  _get_candidate_moves b = Ret l -> grid_ok b = true.
Proof.
  unfold _get_candidate_moves. intros H.
  apply obind_Ret_inv in H as (e & He & _).
  eapply _get_empty_positions_Ret_grid_ok, He.
Qed.

(** A stateful scan whose body gives the grid back whenever it returns. *)
Lemma mfirst_frame {A B} (body : A -> M (option B)) (l : list A)
    (b b' : board) (o : option B) :
  (forall x b1 o1, In x l -> body x b = (b1, Ret o1) -> b1 = b) ->
  mfirst body l b = (b', Ret o) ->
  b' = b /\ (o = None -> forall x, In x l -> body x b = (b, Ret None)).
Proof.
  induction l as [|a l IH]; cbn [mfirst]; intros Hbody H.
  - injection H as <- <-. split; [reflexivity|]. intros _ x [].
  - unfold mbind in H. destruct (body a b) as [b1 [[v|]| |]] eqn:E;
      try discriminate.
    + injection H as <- <-.
      split; [eapply Hbody; [left; reflexivity|exact E]|discriminate].
    + assert (b1 = b) as -> by (eapply Hbody; [left; reflexivity|exact E]).
      destruct IH as [Hb Hnone]; [|exact H|].
      { intros x b2 o2 Hx. apply Hbody. right; exact Hx. }
      split; [exact Hb|]. intros Ho x [<-|Hx]; [exact E|auto].
Qed.

(** One trial of the threat detector on a grid of any shape: if it
    returns, the trial stone has been taken back. *)
Lemma winning_trial_frame (p i j : Z) (b b1 : board) (o1 : option move) :
  mbind (read (fun b => get_cell b i j))
    (fun v =>
       if v =? 0 then
         mbind (set_cell i j p) (fun _ =>
           mbind (read (fun b => _check_five_in_row b i j p)) (fun w =>
             if (w : bool)
             then mbind (set_cell i j 0) (fun _ => mret (Some (i, j)))
             else mbind (set_cell i j 0) (fun _ => mret None)))
       else mret None) b
  = (b1, Ret o1) ->
  b1 = b /\ readable b i j = true.
Proof.
  unfold mbind at 1. unfold read at 1.
  destruct (get_cell b i j) as [v| |] eqn:Hget; try discriminate.
  pose proof (readable_of_get _ _ _ _ Hget) as Hread.
  destruct (v =? 0) eqn:Hv; [|intros [= <- _]; auto].
  apply Z.eqb_eq in Hv. subst v.
  rewrite (mbind_step _ _ _ _ _ (set_cell_readable b i j p Hread)).
  unfold mbind at 1. unfold read at 1.
  assert (cell b i j = 0) as H0 by (unfold cell; rewrite Hget; reflexivity).
  assert (set_cell i j 0 (place b i j p) = (b, Ret tt)) as Hundo.
  { rewrite set_cell_readable by (rewrite readable_place; exact Hread).
    rewrite place_undo by assumption. reflexivity. }
  destruct (_check_five_in_row (place b i j p) i j p) as [[|]| |];
    try discriminate;
    rewrite (mbind_step _ _ _ _ _ Hundo); intros [= <- _]; auto.
Qed.

Lemma _find_winning_move_frame (p : Z) (b b' : board) (o : option move) :
  _find_winning_move p b = (b', Ret o) ->
  b' = b /\ (o = None -> grid_ok b = true).
Proof.
  unfold _find_winning_move. rewrite mfirst_nested. intros H.
  apply mfirst_frame in H as [Hb Hnone].
  - split; [exact Hb|]. intros Ho. apply grid_ok_intro. intros i j Hin.
    specialize (Hnone Ho (i, j) Hin). cbn [fst snd] in Hnone.
    apply winning_trial_frame in Hnone. tauto.
  - intros [i j] b1 o1 _ Hbody. cbn [fst snd] in Hbody.
    apply winning_trial_frame in Hbody. tauto.
Qed.

Lemma _minimax_frame (depth : nat) (mx : bool) (p : Z) (alpha beta : score)
    (b : board) :
  fst (_minimax depth mx p alpha beta b) = b.
Proof.
  destruct depth as [|d]; cbn [_minimax].
  - unfold mbind, read. destruct (_evaluate_board b p); reflexivity.
  - unfold mbind at 1. unfold read at 1.
    destruct (_is_game_over b) as [[|]| |] eqn:Hover; try reflexivity.
    + unfold mbind, read. destruct (_evaluate_board b p); reflexivity.
    + pose proof (_is_game_over_false_grid_ok b Hover) as Hok.
      destruct (_minimax_ok (S d) mx p alpha beta b Hok) as (v & Hv).
      cbn [_minimax] in Hv. unfold mbind at 1 in Hv. unfold read at 1 in Hv.
      rewrite Hover in Hv. rewrite Hv. reflexivity.
Qed.

Lemma get_move_grid_ok_frame (t : AIDifficulty) (g : rng) (p : Z) (b : board) :
  grid_ok b = true -> fst (get_move t g p b) = b.
Proof.
  intros Hok. destruct (empty_cells b) as [|mv0 l] eqn:He.
  - rewrite get_move_exhausted by assumption. reflexivity.
  - destruct (get_move_ok t g p b Hok) as (mv & Hmv & _);
      [rewrite He; discriminate|].
    rewrite Hmv. reflexivity.
Qed.

Lemma read_bind_frame {A B} (f : board -> outcome A) (k : A -> M B)
    (b : board) :
  (forall a, f b = Ret a -> fst (k a b) = b) ->
  fst (mbind (read f) k b) = b.
Proof.
  intros H. unfold mbind, read. destruct (f b) as [a| |]; auto.
Qed.

Lemma get_move_completed_frame (t : AIDifficulty) (g : rng) (p : Z)
    (b : board) (mv : move) :
  snd (get_move t g p b) = Ret mv -> fst (get_move t g p b) = b.
Proof.
  intros Hret. destruct t; cbn [get_move] in *.
  - unfold _beginner_move. apply read_bind_frame. intros l Hl.
    apply _get_empty_positions_Ret_grid_ok in Hl as Hok.
    pose proof (get_move_grid_ok_frame BEGINNER g p b Hok) as H.
    cbn [get_move] in H. unfold _beginner_move in H.
    rewrite (read_step _ _ _ l) in H by exact Hl. exact H.
  - unfold _intermediate_move. apply read_bind_frame. intros l Hl.
    apply _get_candidate_moves_Ret_grid_ok in Hl as Hok.
    pose proof (get_move_grid_ok_frame INTERMEDIATE g p b Hok) as H.
    cbn [get_move] in H. unfold _intermediate_move in H.
    rewrite (read_step _ _ _ l) in H by exact Hl. exact H.
  - unfold _advance_move. apply read_bind_frame. intros l Hl.
    apply _get_candidate_moves_Ret_grid_ok in Hl as Hok.
    pose proof (get_move_grid_ok_frame ADVANCE g p b Hok) as H.
    cbn [get_move] in H. unfold _advance_move in H.
    rewrite (read_step _ _ _ l) in H by exact Hl. exact H.
  - unfold _expert_move, expert_policy in *. unfold mbind at 1 in Hret.
    unfold mbind at 1.
    destruct (_find_winning_move p b) as [b1 [[w|]| |]] eqn:E1;
      try discriminate.
    + apply _find_winning_move_frame in E1 as [-> _]. reflexivity.
    + destruct (_find_winning_move_frame _ _ _ _ E1) as [-> Hok].
      specialize (Hok eq_refl).
      pose proof (get_move_grid_ok_frame EXPERT g p b Hok) as H.
      cbn [get_move] in H. unfold _expert_move, expert_policy in H.
      rewrite (mbind_step _ _ _ _ _ E1) in H. exact H.
Qed.

Lemma row_major_lt_total (x y : move) :
  x <> y -> row_major_lt x y \/ row_major_lt y x.
Proof.
  destruct x as [a b], y as [c d]. unfold row_major_lt. cbn [fst snd].
  intros H. destruct (decide (a = c)) as [->|]; [|lia].
  destruct (decide (b = d)) as [->|]; [congruence|lia].
Qed.

Lemma first_completing_five_unique (b : board) (p : Z) (x y : move) :
  first_completing_five b p x -> first_completing_five b p y -> x = y.
Proof.
  intros [Hx Hfx] [Hy Hfy]. destruct (decide (x = y)) as [|Hne]; [assumption|].
  destruct (row_major_lt_total x y Hne) as [H|H];
    [destruct (Hfy x H Hx)|destruct (Hfx y H Hy)].
Qed.

(** What the scan for a winning cell finds. *)
Lemma find_wins_spec (b : board) (p : Z) :
  grid_ok b = true ->
  match find (wins b p) all_cells with
  | Some mv => first_completing_five b p mv
  | None => forall mv, ~ completes_five b p mv
  end.
Proof.
  intros Hok. destruct (find (wins b p) all_cells) as [mv|] eqn:E.
  - pose proof (find_some _ _ E) as Hmv. split.
    + apply wins_completes_five; assumption.
    + intros mv' Hlt Hc. apply wins_completes_five in Hc as [Hin Hw];
        [|exact Hok].
      rewrite (find_sorted_first _ _ _ all_cells_sorted E mv' Hin Hlt) in Hw.
      discriminate.
  - intros mv Hc. apply wins_completes_five in Hc as [Hin Hw]; [|exact Hok].
    pose proof (find_none _ _ E mv Hin) as Hn. congruence.
Qed.

(** ** What a returned move is, on a grid of any shape *)

Lemma mfirst_Some {A B} (body : A -> M (option B)) (l : list A)
    (b b' : board) (v : B) :
  (forall x b1 o1, In x l -> body x b = (b1, Ret o1) -> b1 = b) ->
  mfirst body l b = (b', Ret (Some v)) ->
  exists x, In x l /\ body x b = (b, Ret (Some v)).
Proof.
  induction l as [|a l IH]; cbn [mfirst]; intros Hbody H; [discriminate|].
  unfold mbind in H. destruct (body a b) as [b1 [[w|]| |]] eqn:E;
    try discriminate.
  - injection H as <- <-. exists a. split; [left; reflexivity|].
    rewrite E. f_equal. eapply Hbody; [left; reflexivity|exact E].
  - assert (b1 = b) as -> by (eapply Hbody; [left; reflexivity|exact E]).
    destruct IH as (x & Hx & Hxv); [|exact H|].
    { intros x b2 o2 Hx. apply Hbody. right; exact Hx. }
    exists x. split; [right; exact Hx|exact Hxv].
Qed.

Lemma winning_trial_Some (p i j : Z) (b b1 : board) (mv : move) :
  mbind (read (fun b => get_cell b i j))
    (fun v =>
       if v =? 0 then
         mbind (set_cell i j p) (fun _ =>
           mbind (read (fun b => _check_five_in_row b i j p)) (fun w =>
             if (w : bool)
             then mbind (set_cell i j 0) (fun _ => mret (Some (i, j)))
             else mbind (set_cell i j 0) (fun _ => mret None)))
       else mret None) b
  = (b1, Ret (Some mv)) ->
  mv = (i, j) /\ get_cell b i j = Ret 0.
Proof.
  rewrite read_bind.
  destruct (get_cell b i j) as [v| |] eqn:Hget; try discriminate.
  destruct (Z.eqb_spec v 0) as [->|_]; [|discriminate].
  unfold mbind at 1.
  destruct (set_cell i j p b) as [b2 [[]| |]]; try discriminate.
  rewrite read_bind.
  destruct (_check_five_in_row b2 i j p) as [[|]| |]; try discriminate;
    unfold mbind;
    destruct (set_cell i j 0 b2) as [b3 [[]| |]]; try discriminate.
  intros [= _ <-]. auto.
Qed.

Lemma _find_winning_move_Some (p : Z) (b b' : board) (mv : move) :
  _find_winning_move p b = (b', Ret (Some mv)) ->
  in_board (fst mv) (snd mv) = true /\ get_cell b (fst mv) (snd mv) = Ret 0.
Proof.
  unfold _find_winning_move. rewrite mfirst_nested. intros H.
  apply mfirst_Some in H as ([i j] & Hin & Hbody).
  - cbn [fst snd] in Hbody. apply winning_trial_Some in Hbody as [-> Hget].
    split; [apply in_all_cells, Hin|exact Hget].
  - intros [i j] b1 o1 _ Hbody. cbn [fst snd] in Hbody.
    apply winning_trial_frame in Hbody. tauto.
Qed.

Lemma get_move_grid_ok_empty (t : AIDifficulty) (g : rng) (p : Z) (b : board)
    (mv : move) :
  grid_ok b = true -> snd (get_move t g p b) = Ret mv ->
  in_board (fst mv) (snd mv) = true /\ get_cell b (fst mv) (snd mv) = Ret 0.
Proof.
  intros Hok Hret. destruct (empty_cells b) as [|mv0 l] eqn:He.
  - rewrite get_move_exhausted in Hret by assumption. discriminate.
  - destruct (get_move_ok t g p b Hok) as (mv' & Hmv & Hin);
      [rewrite He; discriminate|].
    rewrite Hmv in Hret. injection Hret as <-.
    destruct mv' as [row col]. apply in_empty_cells in Hin as [Hin H0].
    split; [exact Hin|]. cbn [fst snd].
    rewrite (grid_ok_get _ _ _ Hok Hin), H0. reflexivity.
Qed.

Lemma get_move_completed_empty (t : AIDifficulty) (g : rng) (p : Z)
    (b : board) (mv : move) :
  snd (get_move t g p b) = Ret mv ->
  in_board (fst mv) (snd mv) = true /\ get_cell b (fst mv) (snd mv) = Ret 0.
Proof.
  intros Hret.
  enough (grid_ok b = true \/
          exists b', _find_winning_move p b = (b', Ret (Some mv)))
    as [Hok|(b' & Hw)];
    [eapply get_move_grid_ok_empty; eassumption
    |eapply _find_winning_move_Some; eassumption|].
  destruct t; cbn [get_move] in Hret.
  - left. unfold _beginner_move in Hret. rewrite read_bind in Hret.
    destruct (_get_empty_positions b) as [l| |] eqn:E; try discriminate.
    eapply _get_empty_positions_Ret_grid_ok, E.
  - left. unfold _intermediate_move in Hret. rewrite read_bind in Hret.
    destruct (_get_candidate_moves b) as [l| |] eqn:E; try discriminate.
    eapply _get_candidate_moves_Ret_grid_ok, E.
  - left. unfold _advance_move in Hret. rewrite read_bind in Hret.
    destruct (_get_candidate_moves b) as [l| |] eqn:E; try discriminate.
    eapply _get_candidate_moves_Ret_grid_ok, E.
  - unfold _expert_move, expert_policy in Hret. unfold mbind at 1 in Hret.
    destruct (_find_winning_move p b) as [b1 [[w|]| |]] eqn:E1;
      try discriminate.
    + right. exists b1. cbn in Hret. injection Hret as <-. reflexivity.
    + left. apply _find_winning_move_frame in E1 as [_ Hok]. auto.
Qed.

(** * The claims of the specification *)

(** C1.  The recursive search [_minimax] returns with the grid it was
    given, for every grid, depth, maximizing flag, root player and bounds:
    each stone it places, also on a path that leaves the loop by
    [beta <= alpha], is taken off before the call returns.  So does
    [_evaluate_move_threat] on an empty cell.  Consequently a [get_move]
    call that returns a move leaves the grid of the caller as it was, and
    on a grid that holds the board so does a call that raises. *)
Theorem search_restores_grid :
  (forall depth is_maximizing player alpha beta b,
      fst (_minimax depth is_maximizing player alpha beta b) = b)
  /\ (forall mv player b,
        grid_ok b = true -> In mv (empty_cells b) ->
        fst (_evaluate_move_threat mv player b) = b)
  /\ (forall t g player b mv,
        snd (get_move t g player b) = Ret mv ->
        fst (get_move t g player b) = b)
  /\ (forall t g player b,
        grid_ok b = true -> fst (get_move t g player b) = b).
Proof.
  split; [|split; [|split]].
  - intros. apply _minimax_frame.
  - intros mv player b Hok Hin.
    rewrite _evaluate_move_threat_ok by assumption. reflexivity.
  - intros t g player b mv. apply get_move_completed_frame.
  - intros t g player b. apply get_move_grid_ok_frame.
Qed.

Lemma search_restores_grid_witness :
  snd (get_move EXPERT sample_rng 1 four_in_row_board) = Ret (7, 6)
  /\ fst (get_move EXPERT sample_rng 1 four_in_row_board) = four_in_row_board
  /\ grid_ok drawn_board = true
  /\ fst (get_move INTERMEDIATE sample_rng 1 drawn_board) = drawn_board.
Proof.
  assert (snd (get_move EXPERT sample_rng 1 four_in_row_board) = Ret (7, 6))
    as H by (vm_compute; reflexivity).
  assert (grid_ok drawn_board = true) as Hd by (vm_compute; reflexivity).
  split; [exact H|]. split; [|split; [exact Hd|]].
  - exact (proj1 (proj2 (proj2 search_restores_grid)) _ _ _ _ _ H).
  - exact (proj2 (proj2 (proj2 search_restores_grid)) _ _ _ _ Hd).
Defined.

(** C2.  Expert tier, on a grid that holds the board.  If some empty cell
    completes five for the side to move, [get_move] returns the first such
    cell in row-major order, whatever the search is: the search is not
    run.  Otherwise, if some empty cell completes five for the opponent,
    it returns the first such cell, again without the search.  Only when
    neither exists is the result that of the depth-6 search. *)
Theorem expert_shortcuts (search : Z -> M move) (g : rng) (player : Z)
    (b : board) :
  grid_ok b = true ->
  get_move EXPERT g player b = expert_policy _enhanced_minimax_move player b
  /\ (forall mv, first_completing_five b player mv ->
        expert_policy search player b = (b, Ret mv))
  /\ ((forall mv, ~ completes_five b player mv) ->
      forall mv, first_completing_five b (3 - player) mv ->
        expert_policy search player b = (b, Ret mv))
  /\ ((forall mv, ~ completes_five b player mv) ->
      (forall mv, ~ completes_five b (3 - player) mv) ->
      expert_policy search player b = search player b).
Proof.
  intros Hok. split; [reflexivity|].
  rewrite expert_policy_ok by exact Hok.
  pose proof (find_wins_spec b player Hok) as H1.
  pose proof (find_wins_spec b (3 - player) Hok) as H2.
  destruct (find (wins b player) all_cells) as [w|].
  - split; [|split].
    + intros mv Hmv. do 2 f_equal.
      eapply first_completing_five_unique; eassumption.
    + intros Hnone. destruct (Hnone w), H1. assumption.
    + intros Hnone. destruct (Hnone w), H1. assumption.
  - split; [|split].
    + intros mv [Hmv _]. destruct (H1 mv Hmv).
    + intros _ mv Hmv.
      destruct (find (wins b (3 - player)) all_cells) as [d|].
      * do 2 f_equal. eapply first_completing_five_unique; eassumption.
      * destruct Hmv as [Hmv _]. destruct (H2 mv Hmv).
    + intros _ Hnone.
      destruct (find (wins b (3 - player)) all_cells) as [d|];
        [|reflexivity].
      destruct (Hnone d), H2. assumption.
Qed.

Lemma expert_shortcuts_witness :
  grid_ok four_in_row_board = true
  /\ first_completing_five four_in_row_board 1 (7, 6)
  /\ expert_policy (fun _ => mraise (IndexError FirstCandidate)) 1
       four_in_row_board
     = (four_in_row_board, Ret (7, 6)).
Proof.
  assert (grid_ok four_in_row_board = true) as H by (vm_compute; reflexivity).
  assert (find (wins four_in_row_board 1) all_cells = Some (7, 6)) as E
      by (vm_compute; reflexivity).
  pose proof (find_wins_spec four_in_row_board 1 H) as Hfirst.
  rewrite E in Hfirst.
  split; [exact H|]. split; [exact Hfirst|].
  exact (proj1 (proj2 (expert_shortcuts
                         (fun _ => mraise (IndexError FirstCandidate))
                         sample_rng 1 four_in_row_board H))
           (7, 6) Hfirst).
Defined.

(** C3.  On a grid that holds the board, [_find_winning_move] returns a
    move exactly when some empty cell of the board completes a run of five
    or more of the player's stones along one of the four directions; the
    move it returns is the first such cell in row-major order; and the
    grid is given back as it was, whatever the outcome.  On a grid of any
    shape the grid is given back whenever the scan returns. *)
Theorem find_winning_move_first (player : Z) (b : board) :
  (grid_ok b = true ->
   exists o,
     _find_winning_move player b = (b, Ret o)
     /\ match o with
        | Some mv => first_completing_five b player mv
        | None => forall mv, ~ completes_five b player mv
        end)
  /\ (forall b' o, _find_winning_move player b = (b', Ret o) -> b' = b).
Proof.
  split.
  - intros Hok. exists (find (wins b player) all_cells).
    split; [apply _find_winning_move_ok, Hok|apply find_wins_spec, Hok].
  - intros b' o H. apply _find_winning_move_frame in H. tauto.
Qed.

Lemma find_winning_move_first_witness :
  grid_ok four_in_row_board = true
  /\ exists o,
       _find_winning_move 1 four_in_row_board = (four_in_row_board, Ret o)
       /\ match o with
          | Some mv => first_completing_five four_in_row_board 1 mv
          | None => forall mv, ~ completes_five four_in_row_board 1 mv
          end.
Proof.
  assert (grid_ok four_in_row_board = true) as H by (vm_compute; reflexivity).
  split; [exact H|].
  exact (proj1 (find_winning_move_first 1 four_in_row_board) H).
Defined.

(** C4, as the specification states it: on a grid with no empty cell
    [get_move] signals a condition of its own and lets no out-of-range
    index through.  The engine has no such condition: on a full grid
    without five in a row the Intermediate tier raises the [IndexError] of
    [candidate_moves[0]] and the Beginner tier that of [random.choice]. *)
Lemma exhausted_board_index_error :
  grid_ok drawn_board = true
  /\ empty_cells drawn_board = []
  /\ snd (get_move INTERMEDIATE sample_rng 1 drawn_board)
     = Raise (IndexError FirstCandidate)
  /\ snd (get_move BEGINNER sample_rng 1 drawn_board)
     = Raise (IndexError RandomChoice).
Proof. vm_compute. repeat split; reflexivity. Qed.

(** C4, amended.  On a grid that holds the board and has no empty cell,
    [get_move] raises [IndexError] in every tier and for every player, out
    of [random.choice] in the Beginner tier and out of
    [candidate_moves[0]] in the three others, and leaves the grid as it
    was. *)
Theorem get_move_exhausted_board (t : AIDifficulty) (g : rng) (player : Z)
    (b : board) :
  grid_ok b = true -> empty_cells b = [] ->
  get_move t g player b
  = (b, Raise (IndexError (match t with
                           | BEGINNER => RandomChoice
                           | _ => FirstCandidate
                           end))).
Proof. apply get_move_exhausted. Qed.

Lemma get_move_exhausted_board_witness :
  grid_ok drawn_board = true
  /\ empty_cells drawn_board = []
  /\ get_move EXPERT sample_rng 2 drawn_board
     = (drawn_board, Raise (IndexError FirstCandidate)).
Proof.
  assert (grid_ok drawn_board = true) as H by (vm_compute; reflexivity).
  assert (empty_cells drawn_board = []) as He by (vm_compute; reflexivity).
  split; [exact H|]. split; [exact He|].
  exact (get_move_exhausted_board EXPERT sample_rng 2 drawn_board H He).
Defined.

(** C5.  For every tier, every player and every grid that holds the board
    and has an empty cell, [get_move] returns the coordinates of a cell of
    the board that is empty in the grid it was given.  On a grid of any
    shape, a move that [get_move] returns is such a cell. *)
Theorem get_move_returns_empty_cell (t : AIDifficulty) (g : rng) (player : Z)
    (b : board) :
  (grid_ok b = true -> empty_cells b <> [] ->
   exists row col,
     get_move t g player b = (b, Ret (row, col))
     /\ in_board row col = true
     /\ get_cell b row col = Ret 0)
  /\ (forall row col,
        snd (get_move t g player b) = Ret (row, col) ->
        in_board row col = true /\ get_cell b row col = Ret 0).
Proof.
  split.
  - intros Hok Hne.
    destruct (get_move_ok t g player b Hok Hne) as ([row col] & Hmv & Hin).
    apply in_empty_cells in Hin as [Hin H0].
    exists row, col. split; [exact Hmv|]. split; [exact Hin|].
    rewrite (grid_ok_get _ _ _ Hok Hin), H0. reflexivity.
  - intros row col Hret.
    apply (get_move_completed_empty t g player b (row, col) Hret).
Qed.

Lemma get_move_returns_empty_cell_witness :
  grid_ok four_in_row_board = true
  /\ empty_cells four_in_row_board <> []
  /\ exists row col,
       get_move BEGINNER sample_rng 2 four_in_row_board
       = (four_in_row_board, Ret (row, col))
       /\ in_board row col = true
       /\ get_cell four_in_row_board row col = Ret 0.
Proof.
  assert (grid_ok four_in_row_board = true) as H by (vm_compute; reflexivity).
  assert (empty_cells four_in_row_board <> []) as Hne
      by (vm_compute; discriminate).
  split; [exact H|]. split; [exact Hne|].
  exact (proj1 (get_move_returns_empty_cell BEGINNER sample_rng 2
                  four_in_row_board) H Hne).
Defined.

(** C6.  For every grid, depth, maximizing flag and root player, the
    search with alpha-beta pruning started with the bounds [-inf] and
    [+inf] has the outcome of the exhaustive minimax of the same depth,
    which searches every candidate of every node with the same candidate
    generator and the same terminal evaluation, and leaves the same grid.
    On a grid that holds the board this outcome is a score. *)
Theorem alpha_beta_equals_exhaustive (depth : nat) (is_maximizing : bool)
    (player : Z) (b : board) :
  _minimax depth is_maximizing player NegInf PosInf b
  = exhaustive_minimax depth is_maximizing player b
  /\ (grid_ok b = true ->
      exists v,
        _minimax depth is_maximizing player NegInf PosInf b = (b, Ret v)
        /\ exhaustive_minimax depth is_maximizing player b = (b, Ret v)).
Proof.
  assert (grid_ok b = true ->
          exists v,
            _minimax depth is_maximizing player NegInf PosInf b = (b, Ret v)
            /\ exhaustive_minimax depth is_maximizing player b = (b, Ret v))
    as Hheld.
  { intros Hok.
    destruct (_minimax_window depth is_maximizing player NegInf PosInf b Hok)
      as (v & Hv & Hclamp).
    rewrite !clamp_full in Hclamp. subst v.
    eexists. split; [exact Hv|]. apply exhaustive_minimax_ok, Hok. }
  split; [|exact Hheld].
  destruct depth as [|d]; [reflexivity|].
  destruct (_is_game_over b) as [[|]| |] eqn:Hover.
  - cbn [_minimax exhaustive_minimax]. rewrite !read_bind, Hover.
    reflexivity.
  - destruct (Hheld (_is_game_over_false_grid_ok b Hover)) as (v & H1 & H2).
    rewrite H1, H2. reflexivity.
  - cbn [_minimax exhaustive_minimax]. rewrite !read_bind, Hover.
    reflexivity.
  - cbn [_minimax exhaustive_minimax]. rewrite !read_bind, Hover.
    reflexivity.
Qed.

Lemma alpha_beta_equals_exhaustive_witness :
  grid_ok four_in_row_board = true
  /\ exists v,
       _minimax 3 true 2 NegInf PosInf four_in_row_board
       = (four_in_row_board, Ret v)
       /\ exhaustive_minimax 3 true 2 four_in_row_board
          = (four_in_row_board, Ret v).
Proof.
  assert (grid_ok four_in_row_board = true) as H by (vm_compute; reflexivity).
  split; [exact H|].
  exact (proj2 (alpha_beta_equals_exhaustive 3 true 2 four_in_row_board) H).
Defined.

(** C7.  For every grid that holds the board and has an empty cell,
    [_get_candidate_moves] returns a sequence that is not empty.  On a
    grid of any shape, every cell of a sequence it returns is an empty
    cell of the board, and the sequence is the one the three-stage rule
    determines: the empty cells with a stone, other than themselves,
    within Chebyshev distance 2; failing that, the empty cells within
    Chebyshev distance 2 of the centre; failing that, all the empty
    cells.  The two tests of the rule are stated in full: a stone nearby
    is a cell of the board other than the cell itself, at most two rows
    and two columns away, that is not empty; near the centre is at most
    two rows and two columns away from the cell (7, 7); and a stage fails
    exactly when it yields no cell. *)
Theorem candidate_moves_three_stage (b : board) :
  (grid_ok b = true -> empty_cells b <> [] ->
   exists l, _get_candidate_moves b = Ret l /\ l <> [])
  /\ (forall l,
        _get_candidate_moves b = Ret l ->
        (forall row col, In (row, col) l ->
           in_board row col = true /\ get_cell b row col = Ret 0)
        /\ l = (let with_neighbours :=
                  List.filter (stone_nearby b) (empty_cells b) in
                let central := List.filter near_center (empty_cells b) in
                if is_nil with_neighbours
                then (if is_nil central then empty_cells b else central)
                else with_neighbours))
  /\ (forall row col,
        stone_nearby b (row, col) = true <->
        exists i j,
          in_board i j = true /\ (i, j) <> (row, col)
          /\ Z.abs (i - row) <= 2 /\ Z.abs (j - col) <= 2
          /\ cell b i j <> 0)
  /\ (forall row col,
        near_center (row, col) = true <->
        Z.abs (row - 7) <= 2 /\ Z.abs (col - 7) <= 2)
  /\ (forall l : list move, is_nil l = true <-> l = []).
Proof.
  split; [|split; [|split; [|split]]];
    [| | |intros row col; unfold near_center; cbn [fst snd];
          change (board_size / 2) with 7;
          rewrite andb_true_iff, !Z.leb_le; reflexivity
     |intros [|x l]; cbn [is_nil]; split; intros H;
          try reflexivity; discriminate].
  - intros Hok Hne. exists (candidates b).
    split; [apply _get_candidate_moves_ok, Hok|apply candidates_nonempty, Hne].
  - intros l Hl. pose proof (_get_candidate_moves_Ret_grid_ok b l Hl) as Hok.
    rewrite (_get_candidate_moves_ok b Hok) in Hl. injection Hl as <-.
    split; [|reflexivity].
    intros row col Hin. apply candidates_empty, in_empty_cells in Hin.
    destruct Hin as [Hin H0]. split; [exact Hin|].
    rewrite (grid_ok_get _ _ _ Hok Hin), H0. reflexivity.
  - intros row col. unfold stone_nearby. rewrite existsb_exists.
    cbn [fst snd]. split.
    + intros ([i j] & Hin & H). cbn [fst snd] in H. exists i, j.
      apply in_all_cells in Hin.
      rewrite !andb_true_iff, !negb_true_iff, andb_false_iff in H.
      rewrite !Z.leb_le, !Z.eqb_neq in H.
      repeat split; try tauto. intros [= -> ->]. lia.
    + intros (i & j & Hin & Hne' & Hi & Hj & Hc). exists (i, j).
      split; [apply in_all_cells, Hin|]. cbn [fst snd].
      rewrite !andb_true_iff, !negb_true_iff, andb_false_iff.
      rewrite !Z.leb_le, !Z.eqb_neq.
      repeat split; try assumption.
      destruct (decide (i = row)) as [->|]; [right|left; assumption].
      intros ->. apply Hne'. reflexivity.
Qed.

Lemma candidate_moves_three_stage_witness :
  grid_ok empty_board = true
  /\ empty_cells empty_board <> []
  /\ (exists l, _get_candidate_moves empty_board = Ret l /\ l <> [])
  /\ _get_candidate_moves empty_board
     = Ret (pairs (zrange 5 10) (fun _ => zrange 5 10)).
Proof.
  assert (grid_ok empty_board = true) as H by (vm_compute; reflexivity).
  assert (empty_cells empty_board <> []) as Hne by (vm_compute; discriminate).
  split; [exact H|]. split; [exact Hne|].
  split; [exact (proj1 (candidate_moves_three_stage empty_board) H Hne)|].
  vm_compute. reflexivity.
Defined.

(** C8.  In the Intermediate, Advance and Expert tiers [get_move] is a
    function of the grid and the player to move: its outcome and the grid
    it leaves do not depend on the random draws.  A second call on the
    grid that a first call has left, which is the grid of the first call,
    returns the same move. *)
Theorem get_move_deterministic (t : AIDifficulty) (g1 g2 : rng) (player : Z)
    (b : board) :
  t <> BEGINNER ->
  get_move t g1 player b = get_move t g2 player b
  /\ (forall mv,
        snd (get_move t g1 player b) = Ret mv ->
        get_move t g2 player (fst (get_move t g1 player b))
        = (b, Ret mv)).
Proof.
  intros Ht.
  assert (get_move t g1 player b = get_move t g2 player b) as Hsame
      by (destruct t; [congruence|reflexivity..]).
  split; [exact Hsame|]. intros mv Hmv.
  pose proof (get_move_completed_frame _ _ _ _ _ Hmv) as Hgrid.
  rewrite Hgrid, <- Hsame.
  destruct (get_move t g1 player b) as [b' o]. cbn [fst snd] in *.
  congruence.
Qed.

Lemma get_move_deterministic_witness :
  EXPERT <> BEGINNER
  /\ get_move EXPERT sample_rng 1 four_in_row_board
     = get_move EXPERT {| random_random := 0.25%float; choice_index := 7 |}
         1 four_in_row_board.
Proof.
  assert (EXPERT <> BEGINNER) as H by discriminate.
  split; [exact H|]. exact (proj1 (get_move_deterministic EXPERT _ _ 1 _ H)).
Defined.

(** C9.  For every grid, cell, direction other than [(0, 0)] and player,
    the count of [_count_consecutive] does not depend on what the cell
    [(row, col)] itself holds: it is the same after any write to that cell,
    and so is [_evaluate_position].  On a grid that holds the board the
    count is returned and is at least 1, the anchor being counted as a
    stone of the player whatever it holds; and the threat score of an
    empty cell is the sum of the weights of the runs through it in the grid
    as it stands, the cell counted as the player's. *)
Theorem count_consecutive_ignores_anchor (b : board)
    (row col dr dc player v : Z) :
  (dr, dc) <> (0, 0) ->
  _count_consecutive (place b row col v) row col dr dc player
  = _count_consecutive b row col dr dc player
  /\ _evaluate_position (place b row col v) row col player
     = _evaluate_position b row col player
  /\ (grid_ok b = true ->
      exists n, _count_consecutive b row col dr dc player = Ret n /\ 1 <= n)
  /\ (grid_ok b = true -> In (row, col) (empty_cells b) ->
      _evaluate_move_threat (row, col) player b
      = (b, Ret (fold_left
                   (fun s d =>
                      s + threat_weight
                            (run_through b row col (fst d) (snd d) player))
                   directions 0))).
Proof.
  intros Hd. split; [apply _count_consecutive_anchor, Hd|].
  split; [apply _evaluate_position_anchor|]. split.
  - intros Hok. exists (run_through b row col dr dc player).
    split; [apply _count_consecutive_ok; assumption|apply run_through_pos].
  - intros Hok Hin. rewrite _evaluate_move_threat_ok by assumption.
    unfold move_threat. cbn [fst snd].
    rewrite (fold_left_ext_in
               (fun s d => s + threat_weight
                  (run_through (place b row col player) row col
                     (fst d) (snd d) player))
               (fun s d => s + threat_weight
                  (run_through b row col (fst d) (snd d) player)));
      [reflexivity|].
    intros s d Hdir. rewrite run_through_anchor; [reflexivity|exact Hok|].
    destruct d. apply directions_nonzero, Hdir.
Qed.

Lemma count_consecutive_ignores_anchor_witness :
  (0, 1) <> (0, 0)
  /\ _count_consecutive (place four_in_row_board 7 6 2) 7 6 0 1 1
     = _count_consecutive four_in_row_board 7 6 0 1 1
  /\ _count_consecutive four_in_row_board 7 6 0 1 1 = Ret 5.
Proof.
  assert ((0, 1) <> (0, 0)) as H by discriminate.
  split; [exact H|].
  split; [|vm_compute; reflexivity].
  exact (proj1 (count_consecutive_ignores_anchor four_in_row_board
                  7 6 0 1 1 2 H)).
Defined.

(** With the step [(0, 0)], which none of the four directions is, the loop
    of the source stays on the anchor: it does not end when the anchor
    holds the player's stone. *)
Remark count_consecutive_zero_step :
  _count_consecutive four_in_row_board 7 7 0 0 1 = Diverge.
Proof. vm_compute. reflexivity. Qed.

(** C10.  On a grid that is exactly 15 by 15, no read and no write of a
    [get_move] call falls outside the grid, in any tier: the call never
    ends in the [IndexError] of a grid subscript, and no loop runs out of
    fuel.  It returns a move and leaves the grid as it was, or the grid has
    no empty cell. *)
Theorem get_move_stays_in_grid (t : AIDifficulty) (g : rng) (player : Z)
    (b : board) :
  is_15x15 b = true ->
  snd (get_move t g player b) <> Raise (IndexError GridAccess)
  /\ snd (get_move t g player b) <> Diverge
  /\ ((exists mv, get_move t g player b = (b, Ret mv))
      \/ empty_cells b = []).
Proof.
  intros H15. apply is_15x15_grid_ok in H15 as Hok.
  destruct (empty_cells b) as [|mv0 l] eqn:He.
  - rewrite get_move_exhausted by assumption. cbn [snd].
    split; [destruct t; discriminate|]. split; [discriminate|].
    right; reflexivity.
  - destruct (get_move_ok t g player b Hok) as (mv & Hmv & _);
      [rewrite He; discriminate|].
    rewrite Hmv. cbn [snd]. split; [discriminate|]. split; [discriminate|].
    left. exists mv. reflexivity.
Qed.

Lemma get_move_stays_in_grid_witness :
  is_15x15 four_in_row_board = true
  /\ snd (get_move ADVANCE sample_rng 1 four_in_row_board)
     <> Raise (IndexError GridAccess).
Proof.
  assert (is_15x15 four_in_row_board = true) as H by (vm_compute; reflexivity).
  split; [exact H|].
  exact (proj1 (get_move_stays_in_grid ADVANCE sample_rng 1
                  four_in_row_board H)).
Defined.

(** On a grid that does not hold the board a call can raise with a trial
    stone left in the grid: the scan places a stone at the end of a short
    row and the run check then reads past it. *)
Remark undersized_grid_left_altered :
  _find_winning_move 1 [[1; 1; 1; 1; 0]]
  = ([[1; 1; 1; 1; 1]], Raise (IndexError GridAccess)).
Proof. vm_compute. reflexivity. Qed.

(** * Further properties of the engine *)

(** ** The evaluator *)

Lemma category_score_bounds (count : Z) : 0 <= category_score count <= 100000.
Proof.
  unfold category_score.
  repeat match goal with |- context [if ?c then _ else _] => destruct c end;
    lia.
Qed.

Lemma category_score_mono (n m : Z) :
  n <= m -> category_score n <= category_score m.
Proof.
  intros H. unfold category_score.
  repeat match goal with
         | |- context [?x <=? ?y] => destruct (Z.leb_spec x y)
         | |- context [?x =? ?y] => destruct (Z.eqb_spec x y)
         end; lia.
Qed.

(** A sum over a list, as the loops of the evaluator compute it. *)
Lemma fold_sum_bounds {A} (f : A -> Z) (lo hi : Z) (l : list A) (s : Z) :
  (forall x, In x l -> lo <= f x <= hi) ->
  s + lo * Z.of_nat (length l)
  <= fold_left (fun s x => s + f x) l s
  <= s + hi * Z.of_nat (length l).
Proof.
  revert s. induction l as [|x l IH]; intros s H; cbn [fold_left length];
    [lia|].
  specialize (IH (s + f x) (fun y Hy => H y (or_intror Hy))).
  specialize (H x (or_introl eq_refl)). lia.
Qed.

Lemma fold_sum_le {A} (f g : A -> Z) (l : list A) (s t : Z) :
  s <= t -> (forall x, In x l -> f x <= g x) ->
  fold_left (fun s x => s + f x) l s <= fold_left (fun s x => s + g x) l t.
Proof.
  revert s t. induction l as [|x l IH]; intros s t Hst H; cbn [fold_left];
    [exact Hst|].
  apply IH; [|intros y Hy; apply H; right; exact Hy].
  specialize (H x (or_introl eq_refl)). lia.
Qed.

Lemma position_value_bounds (b : board) (row col p : Z) :
  0 <= position_value b row col p <= 400000.
Proof.
  unfold position_value.
  pose proof (fold_sum_bounds
                (fun d => category_score
                            (run_through b row col (fst d) (snd d) p))
                0 100000 directions 0
                (fun d _ => category_score_bounds _)) as H.
  change (Z.of_nat (length directions)) with 4 in H. lia.
Qed.

(** What one cell adds to the value of the board for [p]. *)
Lemma board_value_sum (b : board) (p : Z) :
  board_value b p
  = fold_left (fun s ij => s + cell_term b p ij) all_cells 0.
Proof.
  unfold board_value. apply fold_left_ext_in. intros s [i j] _.
  unfold cell_term. cbn [fst snd].
  destruct (cell b i j =? p); [reflexivity|].
  destruct (cell b i j =? 3 - p); lia.
Qed.

Lemma cell_term_opponent (b : board) (p : Z) (ij : move) :
  cell_term b (3 - p) ij = - cell_term b p ij.
Proof.
  unfold cell_term. replace (3 - (3 - p)) with p by lia.
  destruct (Z.eqb_spec (cell b (fst ij) (snd ij)) (3 - p)) as [E1|E1];
    destruct (Z.eqb_spec (cell b (fst ij) (snd ij)) p) as [E2|E2]; lia.
Qed.

Lemma fold_sum_opp {A} (f : A -> Z) (l : list A) (s : Z) :
  fold_left (fun s x => s + - f x) l (- s)
  = - fold_left (fun s x => s + f x) l s.
Proof.
  revert s. induction l as [|x l IH]; intros s; cbn [fold_left];
    [reflexivity|].
  replace (- s + - f x) with (- (s + f x)) by lia. apply IH.
Qed.

Lemma board_value_opponent (b : board) (p : Z) :
  board_value b (3 - p) = - board_value b p.
Proof.
  rewrite !board_value_sum.
  rewrite (fold_left_ext_in _ (fun s ij => s + - cell_term b p ij))
    by (intros s ij _; rewrite cell_term_opponent; reflexivity).
  apply (fold_sum_opp (cell_term b p) all_cells 0).
Qed.

Lemma cell_term_bounds (b : board) (p : Z) (ij : move) :
  -400000 <= cell_term b p ij <= 400000.
Proof.
  unfold cell_term.
  pose proof (position_value_bounds b (fst ij) (snd ij) p).
  pose proof (position_value_bounds b (fst ij) (snd ij) (3 - p)).
  destruct (_ =? p); [lia|]. destruct (_ =? 3 - p); lia.
Qed.

Lemma length_all_cells : length all_cells = 225%nat.
Proof. reflexivity. Qed.

Lemma board_value_bounds (b : board) (p : Z) :
  -90000000 <= board_value b p <= 90000000.
Proof.
  rewrite board_value_sum.
  pose proof (fold_sum_bounds (cell_term b p) (-400000) 400000 all_cells 0
                (fun ij _ => cell_term_bounds b p ij)) as H.
  rewrite length_all_cells in H. lia.
Qed.

(** X1.  The evaluation is zero-sum: on a grid that holds the board,
    [_evaluate_board] returns for the opponent [3 - player] the opposite of
    what it returns for [player]. *)
Theorem evaluate_board_zero_sum (b : board) (player : Z) :
  grid_ok b = true ->
  exists v,
    _evaluate_board b player = Ret v
    /\ _evaluate_board b (3 - player) = Ret (- v).
Proof.
  intros Hok. exists (board_value b player).
  rewrite !_evaluate_board_ok by exact Hok.
  rewrite board_value_opponent. split; reflexivity.
Qed.

Lemma evaluate_board_zero_sum_witness :
  grid_ok four_in_row_board = true
  /\ exists v,
       _evaluate_board four_in_row_board 1 = Ret v
       /\ _evaluate_board four_in_row_board (3 - 1) = Ret (- v).
Proof.
  assert (grid_ok four_in_row_board = true) as H by (vm_compute; reflexivity).
  split; [exact H|]. exact (evaluate_board_zero_sum four_in_row_board 1 H).
Defined.

(** X2.  On a grid that holds the board the value [_evaluate_board] returns
    lies between -90000000 and 90000000 (225 cells of at most four runs of
    100000 each), and the value [_evaluate_position] returns between 0 and
    400000. *)
Theorem evaluate_board_bounded (b : board) (row col player : Z) :
  grid_ok b = true ->
  (exists v, _evaluate_board b player = Ret v
             /\ -90000000 <= v <= 90000000)
  /\ (exists v, _evaluate_position b row col player = Ret v
                /\ 0 <= v <= 400000).
Proof.
  intros Hok. split.
  - exists (board_value b player).
    split; [apply _evaluate_board_ok, Hok|apply board_value_bounds].
  - exists (position_value b row col player).
    split; [apply _evaluate_position_ok, Hok|apply position_value_bounds].
Qed.

Lemma evaluate_board_bounded_witness :
  grid_ok drawn_board = true
  /\ exists v, _evaluate_board drawn_board 2 = Ret v
               /\ -90000000 <= v <= 90000000.
Proof.
  assert (grid_ok drawn_board = true) as H by (vm_compute; reflexivity).
  split; [exact H|].
  exact (proj1 (evaluate_board_bounded drawn_board 0 0 2 H)).
Defined.

(** A stone more of [p] makes no run of [p] shorter, and leaves the runs of
    the other colours as they were. *)
Lemma run_len_mono (n : nat) (b b' : board) (dr dc p : Z) :
  (forall x y, cell b x y = p -> cell b' x y = p) ->
  forall r c, run_len n b r c dr dc p <= run_len n b' r c dr dc p.
Proof.
  intros H. induction n as [|n IH]; intros r c; cbn [run_len]; [lia|].
  destruct (in_board r c); cbn [andb]; [|lia].
  destruct (Z.eqb_spec (cell b r c) p) as [E|E].
  - rewrite (H _ _ E), Z.eqb_refl. specialize (IH (r + dr) (c + dc)). lia.
  - destruct (cell b' r c =? p); [|lia].
    pose proof (run_len_nonneg n b' (r + dr) (c + dc) dr dc p). lia.
Qed.

Lemma run_len_ext (n : nat) (b b' : board) (dr dc q : Z) :
  (forall x y, (cell b' x y =? q) = (cell b x y =? q)) ->
  forall r c, run_len n b' r c dr dc q = run_len n b r c dr dc q.
Proof.
  intros H. induction n as [|n IH]; intros r c; cbn [run_len]; [reflexivity|].
  rewrite H, IH. reflexivity.
Qed.

Lemma position_value_mono (b b' : board) (row col p : Z) :
  (forall x y, cell b x y = p -> cell b' x y = p) ->
  position_value b row col p <= position_value b' row col p.
Proof.
  intros H. unfold position_value. apply fold_sum_le; [lia|].
  intros d _. apply category_score_mono. unfold run_through.
  pose proof (run_len_mono (Z.to_nat board_size) b b' (fst d) (snd d) p H
                (row + fst d) (col + snd d)).
  pose proof (run_len_mono (Z.to_nat board_size) b b' (- fst d) (- snd d) p H
                (row - fst d) (col - snd d)).
  lia.
Qed.

Lemma position_value_ext (b b' : board) (row col q : Z) :
  (forall x y, (cell b' x y =? q) = (cell b x y =? q)) ->
  position_value b' row col q = position_value b row col q.
Proof.
  intros H. unfold position_value. apply fold_left_ext_in. intros s d _.
  unfold run_through. rewrite !(run_len_ext _ b b') by exact H. reflexivity.
Qed.

Lemma cell_place (b : board) (r c v x y : Z) :
  readable b r c = true ->
  cell (place b r c v) x y = if (x =? r) && (y =? c) then v else cell b x y.
Proof.
  intros Hr. destruct (Z.eqb_spec x r) as [->|Hx];
    [destruct (Z.eqb_spec y c) as [->|Hy]|]; cbn [andb].
  - apply cell_place_eq, Hr.
  - apply cell_place_ne. intros [= E]. contradiction.
  - apply cell_place_ne. intros [= E _]. contradiction.
Qed.

Lemma cell_term_own_move (b : board) (r c p : Z) (ij : move) :
  readable b r c = true -> cell b r c = 0 -> p <> 0 -> p <> 3 ->
  cell_term b p ij <= cell_term (place b r c p) p ij.
Proof.
  intros Hr H0 Hp0 Hp3.
  assert (forall x y, cell b x y = p -> cell (place b r c p) x y = p) as Hmono.
  { intros x y E. rewrite cell_place by exact Hr.
    destruct ((x =? r) && (y =? c)); [reflexivity|exact E]. }
  assert (forall x y, (cell (place b r c p) x y =? 3 - p)
                      = (cell b x y =? 3 - p)) as Hext.
  { intros x y. rewrite cell_place by exact Hr.
    destruct ((x =? r) && (y =? c)) eqn:E; [|reflexivity].
    apply andb_true_iff in E as [E1 E2].
    apply Z.eqb_eq in E1, E2. subst x y. rewrite H0.
    destruct (Z.eqb_spec p (3 - p)), (Z.eqb_spec 0 (3 - p)); lia. }
  unfold cell_term. rewrite Hext.
  pose proof (position_value_mono b (place b r c p) (fst ij) (snd ij) p Hmono).
  pose proof (position_value_bounds (place b r c p) (fst ij) (snd ij) p).
  rewrite (position_value_ext b (place b r c p) _ _ (3 - p) Hext).
  rewrite cell_place by exact Hr.
  destruct ((fst ij =? r) && (snd ij =? c)) eqn:E.
  - apply andb_true_iff in E as [E1 E2]. apply Z.eqb_eq in E1, E2.
    rewrite E1, E2 in *. rewrite H0, Z.eqb_refl.
    destruct (Z.eqb_spec 0 p); [lia|]. destruct (Z.eqb_spec 0 (3 - p)); lia.
  - destruct (_ =? p); [lia|]. destruct (_ =? 3 - p); lia.
Qed.

Lemma board_value_own_move (b : board) (r c p : Z) :
  readable b r c = true -> cell b r c = 0 -> p <> 0 -> p <> 3 ->
  board_value b p <= board_value (place b r c p) p.
Proof.
  intros Hr H0 Hp0 Hp3. rewrite !board_value_sum.
  apply fold_sum_le; [lia|]. intros ij _.
  apply cell_term_own_move; assumption.
Qed.

(** X3.  A stone never lowers the evaluation for its own side: on a grid
    that holds the board, for a player other than 0 and 3 (so that neither
    side is the empty colour), [_evaluate_board] for [player] after
    [player] has played on an empty cell is at least what it was, and after
    the opponent has played it is at most what it was. *)
Theorem evaluate_board_move_monotone (b : board) (row col player : Z) :
  grid_ok b = true -> in_board row col = true -> get_cell b row col = Ret 0 ->
  player <> 0 -> player <> 3 ->
  exists v v_own v_opp,
    _evaluate_board b player = Ret v
    /\ _evaluate_board (place b row col player) player = Ret v_own
    /\ _evaluate_board (place b row col (3 - player)) player = Ret v_opp
    /\ v_opp <= v <= v_own.
Proof.
  intros Hok Hin Hget Hp0 Hp3.
  assert (readable b row col = true) as Hr by (eapply readable_of_get, Hget).
  assert (cell b row col = 0) as H0 by (unfold cell; rewrite Hget; reflexivity).
  exists (board_value b player), (board_value (place b row col player) player),
    (board_value (place b row col (3 - player)) player).
  rewrite !_evaluate_board_ok by auto with grid.
  repeat split; try reflexivity.
  - pose proof (board_value_own_move b row col (3 - player) Hr H0
                  ltac:(lia) ltac:(lia)) as H.
    rewrite !board_value_opponent in H. lia.
  - apply board_value_own_move; assumption.
Qed.

Lemma evaluate_board_move_monotone_witness :
  grid_ok four_in_row_board = true
  /\ exists v v_own v_opp,
       _evaluate_board four_in_row_board 1 = Ret v
       /\ _evaluate_board (place four_in_row_board 7 6 1) 1 = Ret v_own
       /\ _evaluate_board (place four_in_row_board 7 6 (3 - 1)) 1 = Ret v_opp
       /\ v_opp <= v <= v_own.
Proof.
  assert (grid_ok four_in_row_board = true) as H by (vm_compute; reflexivity).
  split; [exact H|].
  apply (evaluate_board_move_monotone four_in_row_board 7 6 1 H);
    [vm_compute; reflexivity|vm_compute; reflexivity|lia|lia].
Defined.

(** ** Runs, fives and the end of the game *)

(** The run through a cell is [k] or more exactly when the cell lies on
    [k] successive cells of the board that, the anchor aside, hold [p]. *)
Lemma run_through_ge (b : board) (row col dr dc p k : Z) :
  1 <= k <= 16 ->
  (k <= run_through b row col dr dc p <->
   exists j, 0 <= j <= k - 1 /\
     forall t, 0 <= t <= k - 1 -> t <> j ->
       in_board (row + (t - j) * dr) (col + (t - j) * dc) = true
       /\ cell b (row + (t - j) * dr) (col + (t - j) * dc) = p).
Proof.
  intros Hk. unfold run_through.
  set (F := run_len _ b (row + dr) (col + dc) dr dc p).
  set (G := run_len _ b (row - dr) (col - dc) (- dr) (- dc) p).
  pose proof (run_len_nonneg (Z.to_nat board_size) b (row + dr) (col + dc)
                dr dc p) as HF. fold F in HF.
  pose proof (run_len_nonneg (Z.to_nat board_size) b (row - dr) (col - dc)
                (- dr) (- dc) p) as HG. fold G in HG.
  assert (Z.of_nat (Z.to_nat board_size) = 15) as H15 by reflexivity.
  split.
  - intros Hle. exists (Z.min G (k - 1)). split; [lia|]. intros t Ht Hne.
    destruct (Z.compare_spec t (Z.min G (k - 1))) as [Heq|Hlt|Hgt]; [lia| |].
    + assert (Z.min G (k - 1) <= G) as HkG by lia.
      pose proof (proj1 (run_len_ge (Z.to_nat board_size) b (- dr) (- dc) p
                           (Z.min G (k - 1)) (row - dr) (col - dc) ltac:(lia))
                    HkG (Z.min G (k - 1) - t - 1) ltac:(lia)) as Hcell.
      replace (row - dr + (Z.min G (k - 1) - t - 1) * - dr)
        with (row + (t - Z.min G (k - 1)) * dr) in Hcell by lia.
      replace (col - dc + (Z.min G (k - 1) - t - 1) * - dc)
        with (col + (t - Z.min G (k - 1)) * dc) in Hcell by lia.
      exact Hcell.
    + assert (k - 1 - Z.min G (k - 1) <= F) as HkF by lia.
      pose proof (proj1 (run_len_ge (Z.to_nat board_size) b dr dc p
                           (k - 1 - Z.min G (k - 1)) (row + dr) (col + dc)
                           ltac:(lia))
                    HkF (t - Z.min G (k - 1) - 1) ltac:(lia)) as Hcell.
      replace (row + dr + (t - Z.min G (k - 1) - 1) * dr)
        with (row + (t - Z.min G (k - 1)) * dr) in Hcell by lia.
      replace (col + dc + (t - Z.min G (k - 1) - 1) * dc)
        with (col + (t - Z.min G (k - 1)) * dc) in Hcell by lia.
      exact Hcell.
  - intros (j & Hj & Hline).
    assert (j <= G) as HjG.
    { apply (proj2 (run_len_ge (Z.to_nat board_size) b (- dr) (- dc) p
                      j (row - dr) (col - dc) ltac:(lia))). intros t Ht.
      replace (row - dr + t * - dr) with (row + ((j - t - 1) - j) * dr) by lia.
      replace (col - dc + t * - dc) with (col + ((j - t - 1) - j) * dc) by lia.
      apply Hline; lia. }
    assert (k - 1 - j <= F) as HjF.
    { apply (proj2 (run_len_ge (Z.to_nat board_size) b dr dc p
                      (k - 1 - j) (row + dr) (col + dc) ltac:(lia))).
      intros t Ht.
      replace (row + dr + t * dr) with (row + ((j + 1 + t) - j) * dr) by lia.
      replace (col + dc + t * dc) with (col + ((j + 1 + t) - j) * dc) by lia.
      apply Hline; lia. }
    lia.
Qed.

(** Through a cell of the board no run is longer than the board. *)
Lemma run_through_le (b : board) (row col dr dc p : Z) :
  in_board row col = true -> (dr, dc) <> (0, 0) ->
  run_through b row col dr dc p <= board_size.
Proof.
  intros Hin Hd.
  destruct (Z.le_gt_cases (run_through b row col dr dc p) 15) as [|Hgt];
    [assumption|exfalso].
  assert (16 <= run_through b row col dr dc p) as H16 by lia.
  apply run_through_ge in H16 as (j & Hj & Hline); [|lia].
  apply in_board_spec in Hin. unfold board_size in Hin.
  assert (dr <> 0 \/ dc <> 0) as Hnz
      by (destruct (decide (dr = 0)); [right; congruence|left; assumption]).
  assert (forall t, 0 <= t <= 15 ->
            (0 <= row + (t - j) * dr < 15) /\ (0 <= col + (t - j) * dc < 15))
    as Hall.
  { intros t Ht. destruct (decide (t = j)) as [->|Hne].
    - replace (row + (j - j) * dr) with row by lia.
      replace (col + (j - j) * dc) with col by lia. lia.
    - destruct (Hline t ltac:(lia) Hne) as [Hb _].
      apply in_board_spec in Hb. unfold board_size in Hb. exact Hb. }
  pose proof (Hall 0 ltac:(lia)) as H0. pose proof (Hall 15 ltac:(lia)) as H1.
  destruct Hnz; nia.
Qed.

(** X4.  On a grid that holds the board, for a cell of the board and a
    direction other than [(0, 0)], [_count_consecutive] returns a count
    between 1 and 15, and the count is [k] or more exactly when the cell
    lies on [k] successive cells of the board that, the cell itself aside,
    all hold the player's stone. *)
Theorem count_consecutive_run (b : board) (row col dr dc player : Z) :
  grid_ok b = true -> in_board row col = true -> (dr, dc) <> (0, 0) ->
  exists n,
    _count_consecutive b row col dr dc player = Ret n
    /\ 1 <= n <= 15
    /\ forall k, 1 <= k <= 15 ->
         (k <= n <->
          exists j, 0 <= j <= k - 1 /\
            forall t, 0 <= t <= k - 1 -> t <> j ->
              in_board (row + (t - j) * dr) (col + (t - j) * dc) = true
              /\ get_cell b (row + (t - j) * dr) (col + (t - j) * dc)
                 = Ret player).
Proof.
  intros Hok Hin Hd. exists (run_through b row col dr dc player).
  split; [apply _count_consecutive_ok; assumption|].
  split; [split; [apply run_through_pos|apply run_through_le; assumption]|].
  intros k Hk. rewrite run_through_ge by lia.
  split; intros (j & Hj & Hline); exists j; (split; [exact Hj|]);
    intros t Ht Hne; destruct (Hline t Ht Hne) as [Hb Hc];
    (split; [exact Hb|]).
  - rewrite (grid_ok_get _ _ _ Hok Hb), Hc. reflexivity.
  - unfold cell. rewrite Hc. reflexivity.
Qed.

Lemma count_consecutive_run_witness :
  grid_ok four_in_row_board = true
  /\ exists n, _count_consecutive four_in_row_board 7 8 0 1 1 = Ret n
               /\ 1 <= n <= 15.
Proof.
  assert (grid_ok four_in_row_board = true) as H by (vm_compute; reflexivity).
  split; [exact H|].
  destruct (count_consecutive_run four_in_row_board 7 8 0 1 1 H
              ltac:(vm_compute; reflexivity) ltac:(discriminate))
    as (n & Hn & Hb & _).
  exists n. split; assumption.
Defined.

Lemma existsb_eq_in {A} (f g : A -> bool) (l : list A) :
  (forall x, In x l -> f x = g x) -> existsb f l = existsb g l.
Proof.
  induction l as [|x l IH]; intros H; cbn [existsb]; [reflexivity|].
  rewrite (H x) by (left; reflexivity). f_equal.
  apply IH. intros y Hy. apply H. right; exact Hy.
Qed.

Lemma five_through_anchor (b : board) (row col v p : Z) :
  grid_ok b = true ->
  five_through (place b row col v) row col p = five_through b row col p.
Proof.
  intros Hok. unfold five_through. apply existsb_eq_in.
  intros d Hd. rewrite run_through_anchor; [reflexivity|exact Hok|].
  destruct d. apply directions_nonzero, Hd.
Qed.

(** X5.  [_check_five_in_row] answers for the grid with the player's stone
    on the cell, whatever the cell holds: on a grid that holds the board
    and for a cell of the board it returns [True] exactly when, once the
    stone is placed, the cell lies on five successive cells of the board
    holding the player's stone along one of the four directions. *)
Theorem check_five_in_row_as_placed (b : board) (row col player : Z) :
  grid_ok b = true -> in_board row col = true ->
  exists w,
    _check_five_in_row b row col player = Ret w
    /\ (w = true <-> line_of_five (place b row col player) row col player).
Proof.
  intros Hok Hin. exists (five_through b row col player).
  split; [apply _check_five_in_row_ok, Hok|].
  rewrite <- (five_through_anchor b row col player player Hok).
  apply five_through_line; [exact Hin|].
  apply cell_place_eq, grid_ok_readable; assumption.
Qed.

Lemma check_five_in_row_as_placed_witness :
  grid_ok four_in_row_board = true
  /\ exists w, _check_five_in_row four_in_row_board 7 6 1 = Ret w.
Proof.
  assert (grid_ok four_in_row_board = true) as H by (vm_compute; reflexivity).
  split; [exact H|].
  destruct (check_five_in_row_as_placed four_in_row_board 7 6 1 H
              ltac:(vm_compute; reflexivity)) as (w & Hw & _).
  exists w. exact Hw.
Defined.

(** X6.  On a grid that holds the board [_is_game_over] returns [True]
    exactly when some cell of the board holds a stone and lies on five
    successive cells of the board, along one of the four directions, that
    all hold that same value. *)
Theorem is_game_over_five (b : board) :
  grid_ok b = true ->
  exists over,
    _is_game_over b = Ret over
    /\ (over = true <->
        exists row col,
          in_board row col = true /\ cell b row col <> 0
          /\ line_of_five b row col (cell b row col)).
Proof.
  intros Hok. exists (game_over b).
  split; [apply _is_game_over_ok, Hok|].
  unfold game_over. rewrite existsb_exists. split.
  - intros ([i j] & Hin & H). cbn [fst snd] in H.
    apply in_all_cells in Hin. apply andb_true_iff in H as [H0 H5].
    apply negb_true_iff, Z.eqb_neq in H0.
    exists i, j. split; [exact Hin|]. split; [exact H0|].
    apply five_through_line; auto.
  - intros (i & j & Hin & H0 & H5). exists (i, j).
    split; [apply in_all_cells, Hin|]. cbn [fst snd].
    apply andb_true_iff. split; [apply negb_true_iff, Z.eqb_neq, H0|].
    apply five_through_line; auto.
Qed.

Lemma is_game_over_five_witness :
  grid_ok drawn_board = true
  /\ _is_game_over drawn_board = Ret false.
Proof.
  assert (grid_ok drawn_board = true) as H by (vm_compute; reflexivity).
  split; [exact H|].
  destruct (is_game_over_five drawn_board H) as (over & Hover & _).
  rewrite Hover. f_equal.
  assert (_is_game_over drawn_board = Ret false) as E
      by (vm_compute; reflexivity).
  congruence.
Defined.

(** X7.  On a grid that holds the board [_find_defensive_move] returns a
    move exactly when some empty cell of the board completes five for the
    opponent [3 - current_player], returns the first such cell in row-major
    order, and gives the grid back as it was. *)
Theorem find_defensive_move_first (current_player : Z) (b : board) :
  grid_ok b = true ->
  exists o,
    _find_defensive_move current_player b = (b, Ret o)
    /\ match o with
       | Some mv => first_completing_five b (3 - current_player) mv
       | None => forall mv, ~ completes_five b (3 - current_player) mv
       end.
Proof.
  intros Hok. exists (find (wins b (3 - current_player)) all_cells).
  split; [|apply find_wins_spec, Hok].
  change (_find_defensive_move current_player)
    with (_find_winning_move (3 - current_player)).
  apply _find_winning_move_ok, Hok.
Qed.

Lemma find_defensive_move_first_witness :
  grid_ok four_in_row_board = true
  /\ exists o,
       _find_defensive_move 2 four_in_row_board = (four_in_row_board, Ret o).
Proof.
  assert (grid_ok four_in_row_board = true) as H by (vm_compute; reflexivity).
  split; [exact H|].
  destruct (find_defensive_move_first 2 four_in_row_board H) as (o & Ho & _).
  exists o. exact Ho.
Defined.

(** ** The move generator *)

Lemma filter_sorted {A} (R : A -> A -> Prop) (f : A -> bool) (l : list A) :
  StronglySorted R l -> StronglySorted R (List.filter f l).
Proof.
  intros H. induction H as [|x l Hs IH Hall]; cbn [List.filter];
    [constructor|].
  destruct (f x); [|exact IH]. constructor; [exact IH|].
  rewrite List.Forall_forall in *. intros y Hy.
  apply filter_In in Hy. apply Hall. tauto.
Qed.

Lemma empty_cells_sorted (b : board) :
  StronglySorted row_major_lt (empty_cells b).
Proof. apply filter_sorted, all_cells_sorted. Qed.

Lemma candidates_sorted (b : board) :
  StronglySorted row_major_lt (candidates b).
Proof.
  unfold candidates.
  destruct (is_nil (List.filter (stone_nearby b) (empty_cells b)));
    [destruct (is_nil (List.filter near_center (empty_cells b)))|];
    repeat apply filter_sorted; apply all_cells_sorted.
Qed.

Lemma row_major_lt_irrefl (x : move) : ~ row_major_lt x x.
Proof. unfold row_major_lt. lia. Qed.

Lemma sorted_NoDup (l : list move) :
  StronglySorted row_major_lt l -> List.NoDup l.
Proof.
  intros H. induction H as [|x l Hs IH Hall]; constructor; [|exact IH].
  intros Hin. rewrite List.Forall_forall in Hall.
  exact (row_major_lt_irrefl x (Hall x Hin)).
Qed.

Lemma filter_length_le {A} (f : A -> bool) (l : list A) :
  (length (List.filter f l) <= length l)%nat.
Proof.
  induction l as [|x l IH]; cbn [List.filter length]; [lia|].
  destruct (f x); cbn [length]; lia.
Qed.

Lemma candidates_length (b : board) :
  (length (candidates b) <= length (empty_cells b) <= 225)%nat.
Proof.
  split.
  - unfold candidates.
    destruct (is_nil (List.filter (stone_nearby b) (empty_cells b)));
      [destruct (is_nil (List.filter near_center (empty_cells b)))|];
      try apply filter_length_le. lia.
  - unfold empty_cells. rewrite <- length_all_cells. apply filter_length_le.
Qed.

(** X8.  Whatever the grid, a sequence that [_get_candidate_moves] returns
    is in strictly increasing row-major order, so that no cell occurs in it
    twice, and has at most 225 cells; so has the sequence that
    [_get_empty_positions] returns. *)
Theorem candidate_moves_row_major (b : board) :
  (forall l, _get_candidate_moves b = Ret l ->
     StronglySorted row_major_lt l /\ List.NoDup l /\ (length l <= 225)%nat)
  /\ (forall l, _get_empty_positions b = Ret l ->
        StronglySorted row_major_lt l /\ List.NoDup l
        /\ (length l <= 225)%nat).
Proof.
  split; intros l Hl.
  - pose proof (_get_candidate_moves_Ret_grid_ok b l Hl) as Hok.
    rewrite (_get_candidate_moves_ok b Hok) in Hl. injection Hl as <-.
    pose proof (candidates_sorted b) as Hs. pose proof (candidates_length b).
    split; [exact Hs|]. split; [apply sorted_NoDup, Hs|lia].
  - pose proof (_get_empty_positions_Ret_grid_ok b l Hl) as Hok.
    rewrite (_get_empty_positions_ok b Hok) in Hl. injection Hl as <-.
    pose proof (empty_cells_sorted b) as Hs. pose proof (candidates_length b).
    split; [exact Hs|]. split; [apply sorted_NoDup, Hs|lia].
Qed.

Lemma candidate_moves_row_major_witness :
  exists l, _get_candidate_moves four_in_row_board = Ret l
            /\ List.NoDup l /\ (length l <= 225)%nat.
Proof.
  assert (_get_candidate_moves four_in_row_board
          = Ret (candidates four_in_row_board)) as H
      by (vm_compute; reflexivity).
  exists (candidates four_in_row_board). split; [exact H|].
  exact (proj2 (proj1 (candidate_moves_row_major four_in_row_board) _ H)).
Defined.

(** ** The threat ranking of the Expert tier *)

Lemma insert_desc_sorted (x : Z * move) (l : list (Z * move)) :
  StronglySorted scored_before l ->
  (forall y, In y l -> row_major_lt (snd x) (snd y)) ->
  StronglySorted scored_before (insert_desc x l).
Proof.
  intros Hs. induction Hs as [|y l Hs IH Hall]; intros Hx; cbn [insert_desc].
  - repeat constructor.
  - rewrite List.Forall_forall in Hall.
    destruct (Z.ltb_spec (fst x) (fst y)) as [Hlt|Hge].
    + constructor.
      * apply IH. intros z Hz. apply Hx. right; exact Hz.
      * apply List.Forall_forall. intros z Hz.
        apply in_insert_desc in Hz as [->|Hz]; [left; exact Hlt|auto].
    + constructor; [constructor; [exact Hs|apply List.Forall_forall, Hall]|].
      apply List.Forall_forall. intros z Hz.
      assert (fst z <= fst y) as Hzy.
      { destruct Hz as [<-|Hz]; [lia|].
        destruct (Hall z Hz) as [H|[H _]]; lia. }
      specialize (Hx z Hz). unfold scored_before.
      destruct (Z.eq_dec (fst x) (fst z)); [right; auto|left; lia].
Qed.

Lemma sort_desc_sorted (f : move -> Z) (l : list move) :
  StronglySorted row_major_lt l ->
  StronglySorted scored_before (sort_desc (map (fun mv => (f mv, mv)) l)).
Proof.
  intros Hs. induction Hs as [|x l Hs IH Hall]; cbn [map sort_desc foldr];
    [constructor|].
  apply insert_desc_sorted; [exact IH|].
  intros y Hy. apply (proj1 (in_sort_desc _ _)) in Hy.
  apply in_map_iff in Hy as (mv & <- & Hmv). cbn [snd].
  rewrite List.Forall_forall in Hall. auto.
Qed.

Lemma length_insert_desc (x : Z * move) (l : list (Z * move)) :
  length (insert_desc x l) = S (length l).
Proof.
  induction l as [|y l IH]; cbn [insert_desc length]; [reflexivity|].
  destruct (fst x <? fst y); cbn [length]; [rewrite IH|]; reflexivity.
Qed.

Lemma length_sort_desc (l : list (Z * move)) :
  length (sort_desc l) = length l.
Proof.
  induction l as [|x l IH]; cbn [sort_desc foldr length]; [reflexivity|].
  fold (sort_desc l). rewrite length_insert_desc, IH. reflexivity.
Qed.

Lemma sorted_app_inv {A} (R : A -> A -> Prop) (l1 l2 : list A) :
  StronglySorted R (l1 ++ l2) ->
  StronglySorted R l1 /\ (forall x y, In x l1 -> In y l2 -> R x y).
Proof.
  induction l1 as [|a l1 IH]; cbn [app]; intros H.
  - split; [constructor|intros x y []].
  - inversion H as [|a' l' Hs Hall]; subst.
    destruct (IH Hs) as [Hs1 Hcross]. rewrite List.Forall_forall in Hall.
    split.
    + constructor; [exact Hs1|]. apply List.Forall_forall. intros y Hy.
      apply Hall, in_or_app. left; exact Hy.
    + intros x y [<-|Hx] Hy; [|auto]. apply Hall, in_or_app. right; exact Hy.
Qed.

Lemma sorted_map {A B} (R : A -> A -> Prop) (S : B -> B -> Prop)
    (f : A -> B) (l : list A) :
  (forall x y, In x l -> In y l -> R x y -> S (f x) (f y)) ->
  StronglySorted R l -> StronglySorted S (map f l).
Proof.
  intros H Hs. induction Hs as [|x l Hs IH Hall]; cbn [map]; [constructor|].
  rewrite List.Forall_forall in Hall. constructor.
  - apply IH. intros a c Ha Hc. apply H; right; assumption.
  - apply List.Forall_forall. intros y Hy.
    apply in_map_iff in Hy as (a & <- & Ha).
    apply H; [left; reflexivity|right; exact Ha|auto].
Qed.

(** X9.  On a grid that holds the board [_get_priority_moves] gives the
    grid back and returns the ten first candidates (all of them when there
    are fewer) in the order of decreasing threat score, candidates of equal
    score staying in row-major order; no candidate left out has a higher
    score than one that is kept.  The score of a candidate is what
    [_evaluate_move_threat] returns for it. *)
Theorem priority_moves_ranking (player : Z) (b : board) :
  grid_ok b = true ->
  exists l,
    _get_priority_moves player b = (b, Ret l)
    /\ length l = Nat.min 10 (length (candidates b))
    /\ (forall mv, In mv l -> In mv (candidates b))
    /\ StronglySorted (threat_before b player) l
    /\ (forall mv x,
          In mv (candidates b) -> ~ In mv l -> In x l ->
          move_threat b mv player <= move_threat b x player)
    /\ (forall mv, In mv (candidates b) ->
          _evaluate_move_threat mv player b
          = (b, Ret (move_threat b mv player))).
Proof.
  intros Hok. exists (priority_moves b player).
  split; [apply _get_priority_moves_ok, Hok|].
  set (scored := map (fun mv => (move_threat b mv player, mv)) (candidates b)).
  assert (StronglySorted scored_before (sort_desc scored)) as Hsorted
      by (apply sort_desc_sorted, candidates_sorted).
  assert (forall x, In x (sort_desc scored) ->
            fst x = move_threat b (snd x) player
            /\ In (snd x) (candidates b)) as Hscored.
  { intros x Hx. apply (proj1 (in_sort_desc _ _)) in Hx.
    apply in_map_iff in Hx as (mv & <- & Hmv). auto. }
  rewrite <- (take_drop 10 (sort_desc scored)) in Hsorted.
  apply sorted_app_inv in Hsorted as [Htake Hcross].
  assert (forall x, In x (take 10 (sort_desc scored)) ->
            In x (sort_desc scored)) as Hsub.
  { intros x Hx. rewrite <- (take_drop 10 (sort_desc scored)).
    apply in_or_app. left; exact Hx. }
  unfold priority_moves. fold scored.
  split; [|split; [|split; [|split]]].
  - rewrite length_map, length_take, length_sort_desc.
    unfold scored. rewrite length_map. reflexivity.
  - intros mv Hmv. apply in_map_iff in Hmv as (x & <- & Hx).
    apply Hscored, Hsub, Hx.
  - apply (sorted_map scored_before); [|exact Htake].
    intros x y Hx Hy Hxy. unfold threat_before.
    rewrite <- (proj1 (Hscored x (Hsub x Hx))).
    rewrite <- (proj1 (Hscored y (Hsub y Hy))). exact Hxy.
  - intros mv x Hmv Hout Hx. apply in_map_iff in Hx as (sx & <- & Hsx).
    assert (In (move_threat b mv player, mv) (sort_desc scored)) as Hin.
    { apply in_sort_desc. unfold scored. apply in_map_iff. eauto. }
    rewrite <- (take_drop 10 (sort_desc scored)) in Hin.
    apply in_app_or in Hin as [Hin|Hin].
    + exfalso. apply Hout. apply in_map_iff.
      exists (move_threat b mv player, mv). auto.
    + specialize (Hcross _ _ Hsx Hin). unfold scored_before in Hcross.
      cbn [fst snd] in Hcross.
      rewrite (proj1 (Hscored sx (Hsub sx Hsx))) in Hcross. lia.
  - intros mv Hmv. apply _evaluate_move_threat_ok; [exact Hok|].
    apply candidates_empty, Hmv.
Qed.

Lemma priority_moves_ranking_witness :
  grid_ok four_in_row_board = true
  /\ exists l,
       _get_priority_moves 1 four_in_row_board = (four_in_row_board, Ret l)
       /\ length l = Nat.min 10 (length (candidates four_in_row_board)).
Proof.
  assert (grid_ok four_in_row_board = true) as H by (vm_compute; reflexivity).
  split; [exact H|].
  destruct (priority_moves_ranking 1 four_in_row_board H)
    as (l & Hl & Hlen & _).
  exists l. split; assumption.
Defined.

(** ** The choice of the Intermediate and Advance tiers *)

Lemma _minimax_full (depth : nat) (mx : bool) (p : Z) (b : board) :
  grid_ok b = true ->
  _minimax depth mx p NegInf PosInf b
  = (b, Ret (minimax_value depth mx p b)).
Proof.
  intros Hok.
  destruct (_minimax_window depth mx p NegInf PosInf b Hok)
    as (v & Hv & Hclamp).
  rewrite !clamp_full in Hclamp. subst v. exact Hv.
Qed.

Lemma score_lt_le_trans (x y z : score) :
  score_leb x y = true -> score_ltb y z = true -> score_ltb x z = true.
Proof. score_brute. Qed.

Lemma score_ltb_false_le (x y : score) :
  score_ltb x y = false -> score_leb y x = true.
Proof. score_brute. Qed.

Lemma score_ltb_le (x y : score) :
  score_ltb x y = true -> score_leb x y = true.
Proof. score_brute. Qed.

Lemma score_le_NegInf (x : score) : score_leb x NegInf = true -> x = NegInf.
Proof. score_brute. Qed.

Lemma score_NegInf_lt (x : score) : score_ltb NegInf x = false -> x = NegInf.
Proof. score_brute. Qed.

Lemma best_so_far_step (V : move -> score) (pre : list move)
    (best : score * option move) (x : move) :
  best_so_far V pre best -> best_so_far V (pre ++ [x]) (pick_best V best x).
Proof.
  destruct best as [s [mv|]]; unfold best_so_far, pick_best; cbn [fst snd].
  - intros [(l1 & l2 & -> & H1 & H2) ->].
    destruct (score_ltb (V mv) (V x)) eqn:E; cbn [fst snd].
    + split; [|reflexivity]. exists (l1 ++ mv :: l2), [].
      split; [reflexivity|]. split; [|intros y []].
      intros y Hy. apply in_app_or in Hy as [Hy|[<-|Hy]].
      * eapply score_lt_le_trans; [apply score_ltb_le, H1, Hy|exact E].
      * exact E.
      * eapply score_lt_le_trans; [apply H2, Hy|exact E].
    + split; [|reflexivity]. exists l1, (l2 ++ [x]).
      split; [rewrite <- app_assoc; reflexivity|]. split; [exact H1|].
      intros y Hy. apply in_app_or in Hy as [Hy|[<-|[]]]; [auto|].
      apply score_ltb_false_le, E.
  - intros [-> Hall].
    destruct (score_ltb NegInf (V x)) eqn:E; cbn [fst snd].
    + split; [|reflexivity]. exists pre, [].
      split; [reflexivity|]. split; [|intros y []].
      intros y Hy. rewrite (Hall y Hy). exact E.
    + split; [reflexivity|]. intros y Hy.
      apply in_app_or in Hy as [Hy|[<-|[]]]; [auto|].
      apply score_NegInf_lt, E.
Qed.

Lemma best_so_far_fold (V : move -> score) (l pre : list move)
    (best : score * option move) :
  best_so_far V pre best ->
  best_so_far V (pre ++ l) (fold_left (pick_best V) l best).
Proof.
  revert pre best. induction l as [|x l IH]; intros pre best H;
    cbn [fold_left].
  - rewrite app_nil_r. exact H.
  - replace (pre ++ x :: l) with ((pre ++ [x]) ++ l)
      by (rewrite <- app_assoc; reflexivity).
    apply IH, best_so_far_step, H.
Qed.

Lemma root_search_argmax (depth : nat) (p : Z) (b : board) :
  grid_ok b = true -> empty_cells b <> [] ->
  exists mv,
    mbind (read _get_candidate_moves)
      (fun candidate_moves =>
         mbind (mfold (root_step depth p) candidate_moves (NegInf, None))
           (fun best => best_or_first (snd best) candidate_moves)) b
    = (b, Ret mv)
    /\ first_argmax
         (fun mv => minimax_value depth false p
                      (place b (fst mv) (snd mv) p))
         (candidates b) mv.
Proof.
  intros Hok Hne.
  set (V := fun mv : move =>
              minimax_value depth false p (place b (fst mv) (snd mv) p)).
  rewrite (read_step _ _ _ (candidates b))
    by (apply _get_candidate_moves_ok, Hok).
  assert (forall best mv, In mv (candidates b) ->
            root_step depth p best mv b = (b, Ret (pick_best V best mv)))
    as Hstep.
  { intros best [row col] Hmv. unfold root_step.
    rewrite (place_search_undo _ _ _ _ _ _ (V (row, col)))
      by (auto using candidates_empty, _minimax_full with grid).
    rewrite place_zero by auto using candidates_empty.
    reflexivity. }
  rewrite (mbind_step _ _ _ _ _
             (mfold_ret (root_step depth p) (pick_best V) (candidates b)
                (NegInf, None) b Hstep)).
  pose proof (best_so_far_fold V (candidates b) [] (NegInf, None)
                (conj eq_refl (fun x (H : In x []) => match H with end)))
    as Hbest.
  cbn [app] in Hbest. unfold best_so_far in Hbest.
  destruct (fold_left (pick_best V) (candidates b) (NegInf, None))
    as [s [mv|]]; cbn [fst snd] in *.
  - exists mv. split; [reflexivity|tauto].
  - destruct Hbest as [_ Hall].
    pose proof (candidates_nonempty b Hne) as Hc.
    destruct (candidates b) as [|mv l]; [congruence|].
    exists mv. split; [reflexivity|]. exists [], l.
    split; [reflexivity|]. split; [intros x []|].
    intros x Hx.
    rewrite (Hall x (or_intror Hx)), (Hall mv (or_introl eq_refl)).
    reflexivity.
Qed.

(** X10.  On a grid that holds the board and has an empty cell,
    [_intermediate_move] and [_advance_move] return the first candidate, in
    the order of [_get_candidate_moves], whose score is the greatest: every
    candidate before it has a strictly smaller score and no candidate after
    it a greater one.  The score of a candidate is what [_minimax] returns,
    at depth 2 and 4, on the grid with the player's stone on it and the
    opponent to move. *)
Theorem root_selection_first_argmax (current_player : Z) (b : board) :
  grid_ok b = true -> empty_cells b <> [] ->
  (exists V mv,
     (forall row col, In (row, col) (candidates b) ->
        _minimax 2 false current_player NegInf PosInf
          (place b row col current_player)
        = (place b row col current_player, Ret (V (row, col))))
     /\ _intermediate_move current_player b = (b, Ret mv)
     /\ first_argmax V (candidates b) mv)
  /\ (exists V mv,
        (forall row col, In (row, col) (candidates b) ->
           _minimax 4 false current_player NegInf PosInf
             (place b row col current_player)
           = (place b row col current_player, Ret (V (row, col))))
        /\ _advance_move current_player b = (b, Ret mv)
        /\ first_argmax V (candidates b) mv).
Proof.
  intros Hok Hne.
  split;
    [destruct (root_search_argmax 2 current_player b Hok Hne) as (mv & H1 & H2)
    |destruct (root_search_argmax 4 current_player b Hok Hne) as (mv & H1 & H2)];
    eexists; exists mv; (split; [|split; [exact H1|exact H2]]);
    intros row col _; cbn [fst snd]; apply _minimax_full, grid_ok_place, Hok.
Qed.

Lemma root_selection_first_argmax_witness :
  grid_ok four_in_row_board = true
  /\ empty_cells four_in_row_board <> []
  /\ exists mv, _intermediate_move 1 four_in_row_board
                = (four_in_row_board, Ret mv).
Proof.
  assert (grid_ok four_in_row_board = true) as H by (vm_compute; reflexivity).
  assert (empty_cells four_in_row_board <> []) as Hne
      by (vm_compute; discriminate).
  split; [exact H|]. split; [exact Hne|].
  destruct (proj1 (root_selection_first_argmax 1 four_in_row_board H Hne))
    as (V & mv & _ & Hmv & _).
  exists mv. exact Hmv.
Defined.

(** ** The Beginner tier *)

Lemma random_choice_lookup {A} (g : rng) (l : list A) (x : A) (b : board) :
  l !! (choice_index g mod length l)%nat = Some x ->
  random_choice g l b = (b, Ret x).
Proof. intros H. unfold random_choice. rewrite H. reflexivity. Qed.

(** X11.  On a grid that holds the board [_beginner_move] gives the grid
    back and plays as follows.  When the draw of [random.random()] is below
    0.3 and some empty cell completes five for the opponent, it returns the
    first such cell in row-major order.  Otherwise it returns the empty
    cell that [random.choice] picks among all the empty cells in row-major
    order, the sequence [_get_empty_positions] returns; every empty cell is
    returned for some draw. *)
Theorem beginner_move_policy (g : rng) (current_player : Z) (b : board) :
  grid_ok b = true ->
  _get_empty_positions b = Ret (empty_cells b)
  /\ (PrimFloat.ltb (random_random g) threshold_03 = true ->
      forall mv, first_completing_five b (3 - current_player) mv ->
        _beginner_move g current_player b = (b, Ret mv))
  /\ (PrimFloat.ltb (random_random g) threshold_03 = false
      \/ (forall mv, ~ completes_five b (3 - current_player) mv) ->
      forall mv,
        empty_cells b !! (choice_index g mod length (empty_cells b))%nat
        = Some mv ->
        _beginner_move g current_player b = (b, Ret mv))
  /\ (forall mv, In mv (empty_cells b) ->
        exists g', _beginner_move g' current_player b = (b, Ret mv)).
Proof.
  intros Hok. split; [apply _get_empty_positions_ok, Hok|].
  pose proof (find_wins_spec b (3 - current_player) Hok) as Hspec.
  assert (forall g0,
            _beginner_move g0 current_player b
            = if PrimFloat.ltb (random_random g0) threshold_03
              then match find (wins b (3 - current_player)) all_cells with
                   | Some mv => (b, Ret mv)
                   | None => random_choice g0 (empty_cells b) b
                   end
              else random_choice g0 (empty_cells b) b) as Heq.
  { intros g0. unfold _beginner_move.
    rewrite (read_step _ _ _ (empty_cells b))
      by (apply _get_empty_positions_ok, Hok).
    destruct (PrimFloat.ltb (random_random g0) threshold_03); [|reflexivity].
    change (_find_defensive_move current_player)
      with (_find_winning_move (3 - current_player)).
    rewrite (mbind_step _ _ _ _ _
               (_find_winning_move_ok (3 - current_player) b Hok)).
    destruct (find (wins b (3 - current_player)) all_cells); reflexivity. }
  split; [|split].
  - intros Hlt mv Hmv. rewrite Heq, Hlt.
    destruct (find (wins b (3 - current_player)) all_cells) as [w|].
    + do 2 f_equal. eapply first_completing_five_unique; eassumption.
    + destruct Hmv as [Hmv _]. destruct (Hspec mv Hmv).
  - intros Hcase mv Hmv. rewrite Heq.
    destruct (PrimFloat.ltb (random_random g) threshold_03);
      [|apply random_choice_lookup, Hmv].
    destruct Hcase as [Hcase|Hnone]; [discriminate|].
    destruct (find (wins b (3 - current_player)) all_cells) as [w|].
    + destruct (Hnone w), Hspec. assumption.
    + apply random_choice_lookup, Hmv.
  - intros mv Hmv. apply list_elem_of_In, list_elem_of_lookup in Hmv.
    destruct Hmv as [i Hi].
    exists {| random_random := 0.5%float; choice_index := i |}.
    rewrite Heq. cbn [random_random choice_index].
    change (PrimFloat.ltb 0.5 threshold_03) with false.
    apply random_choice_lookup. cbn [choice_index].
    rewrite Nat.mod_small by (eapply lookup_lt_Some, Hi). exact Hi.
Qed.

Lemma beginner_move_policy_witness :
  grid_ok four_in_row_board = true
  /\ _get_empty_positions four_in_row_board
     = Ret (empty_cells four_in_row_board).
Proof.
  assert (grid_ok four_in_row_board = true) as H by (vm_compute; reflexivity).
  split; [exact H|].
  exact (proj1 (beginner_move_policy sample_rng 2 four_in_row_board H)).
Defined.

(** ** Infinite and finite scores of the search *)

(** X12.  On a grid with no empty cell and no five in a row, at any depth
    other than 0, the loops of [_minimax] have nothing to go through: a
    maximizing node returns [-inf] and a minimizing node [+inf], whatever
    the bounds, and not the value of the board. *)
Theorem minimax_exhausted_board (depth : nat) (player : Z)
    (alpha beta : score) (b : board) :
  _is_game_over b = Ret false -> _get_empty_positions b = Ret [] ->
  _minimax (S depth) true player alpha beta b = (b, Ret NegInf)
  /\ _minimax (S depth) false player alpha beta b = (b, Ret PosInf).
Proof.
  intros Hover Hempty.
  pose proof (_is_game_over_false_grid_ok b Hover) as Hok.
  assert (_get_candidate_moves b = Ret []) as Hc.
  { unfold _get_candidate_moves. rewrite Hempty. reflexivity. }
  split; cbn [_minimax]; rewrite (read_step _ _ _ false) by exact Hover;
    rewrite (read_step _ _ _ []) by exact Hc; reflexivity.
Qed.

Lemma minimax_exhausted_board_witness :
  _is_game_over drawn_board = Ret false
  /\ _get_empty_positions drawn_board = Ret []
  /\ _minimax 2 false 1 NegInf PosInf drawn_board = (drawn_board, Ret PosInf).
Proof.
  assert (_is_game_over drawn_board = Ret false) as H1
      by (vm_compute; reflexivity).
  assert (_get_empty_positions drawn_board = Ret []) as H2
      by (vm_compute; reflexivity).
  split; [exact H1|]. split; [exact H2|].
  exact (proj2 (minimax_exhausted_board 1 1 NegInf PosInf drawn_board H1 H2)).
Defined.

Lemma filter_length_but_one (f g : move -> bool) (x : move) (l : list move) :
  List.NoDup l ->
  (forall y, In y l -> y <> x -> f y = true -> g y = true) ->
  (length (List.filter f l) <= S (length (List.filter g l)))%nat.
Proof.
  intros Hnd H.
  assert (forall l', ~ In x l' ->
            (forall y, In y l' -> y <> x -> f y = true -> g y = true) ->
            (length (List.filter f l') <= length (List.filter g l'))%nat)
    as Hout.
  { induction l' as [|a l' IH]; intros Hx H'; cbn [List.filter]; [lia|].
    assert (length (List.filter f l') <= length (List.filter g l'))%nat
      by (apply IH; [intros Hin; apply Hx; right; exact Hin
                    |intros y Hy; apply H'; right; exact Hy]).
    destruct (f a) eqn:Ef.
    - rewrite (H' a (or_introl eq_refl)
                 (fun E => Hx (or_introl E)) Ef). cbn [length]. lia.
    - destruct (g a); cbn [length]; lia. }
  induction Hnd as [|a l Ha Hnd IH]; cbn [List.filter]; [lia|].
  assert (forall y, In y l -> y <> x -> f y = true -> g y = true) as Hl
      by (intros y Hy; apply H; right; exact Hy).
  specialize (IH Hl).
  destruct (f a) eqn:Ef; [|destruct (g a); cbn [length]; lia].
  cbn [length].
  destruct (g a) eqn:Eg; cbn [length]; [lia|].
  enough (length (List.filter f l) <= length (List.filter g l))%nat by lia.
  apply Hout; [|exact Hl].
  assert (a = x) as <-; [|exact Ha].
  destruct (decide (a = x)) as [E|E]; [exact E|].
  rewrite (H a (or_introl eq_refl) E Ef) in Eg. discriminate.
Qed.

Lemma length_empty_cells_place (b : board) (r c v : Z) :
  readable b r c = true ->
  (length (empty_cells b) <= S (length (empty_cells (place b r c v))))%nat.
Proof.
  intros Hr. unfold empty_cells.
  apply (filter_length_but_one _ _ (r, c));
    [apply sorted_NoDup, all_cells_sorted|].
  intros [i j] _ Hne. cbn [fst snd].
  rewrite cell_place_ne by exact Hne. auto.
Qed.

Lemma fold_max_finite {A} (f : A -> score) (l : list A) (init : score) :
  (forall x, In x l -> finite_score (f x)) ->
  (init = NegInf /\ l <> []) \/ finite_score init ->
  finite_score (fold_left (fun best x => score_max best (f x)) l init).
Proof.
  revert init. induction l as [|x l IH]; intros init Hf Hinit;
    cbn [fold_left].
  - destruct Hinit as [[_ H]|H]; [congruence|exact H].
  - apply IH; [intros y Hy; apply Hf; right; exact Hy|]. right.
    destruct (Hf x (or_introl eq_refl)) as (z & -> & Hz).
    destruct Hinit as [[-> _]|(z0 & -> & Hz0)].
    + exists z. split; [reflexivity|exact Hz].
    + unfold score_max, score_ltb, score_leb.
      destruct (z <=? z0); cbn [negb]; eexists; split; try reflexivity;
        assumption.
Qed.

Lemma fold_min_finite {A} (f : A -> score) (l : list A) (init : score) :
  (forall x, In x l -> finite_score (f x)) ->
  (init = PosInf /\ l <> []) \/ finite_score init ->
  finite_score (fold_left (fun best x => score_min best (f x)) l init).
Proof.
  revert init. induction l as [|x l IH]; intros init Hf Hinit;
    cbn [fold_left].
  - destruct Hinit as [[_ H]|H]; [congruence|exact H].
  - apply IH; [intros y Hy; apply Hf; right; exact Hy|]. right.
    destruct (Hf x (or_introl eq_refl)) as (z & -> & Hz).
    destruct Hinit as [[-> _]|(z0 & -> & Hz0)].
    + exists z. split; [reflexivity|exact Hz].
    + unfold score_min, score_ltb, score_leb.
      destruct (z0 <=? z); cbn [negb]; eexists; split; try reflexivity;
        assumption.
Qed.

Lemma minimax_value_finite (depth : nat) :
  forall (mx : bool) (p : Z) (b : board),
    grid_ok b = true -> (depth <= length (empty_cells b))%nat ->
    finite_score (minimax_value depth mx p b).
Proof.
  induction depth as [|d IH]; intros mx p b Hok Hlen;
    cbn [minimax_value].
  - exists (board_value b p). split; [reflexivity|apply board_value_bounds].
  - destruct (game_over b).
    { exists (board_value b p).
      split; [reflexivity|apply board_value_bounds]. }
    assert (candidates b <> []) as Hc.
    { apply candidates_nonempty. intros E. rewrite E in Hlen.
      cbn [length] in Hlen. lia. }
    assert (forall v mv, In mv (candidates b) ->
              grid_ok (place b (fst mv) (snd mv) v) = true
              /\ (d <= length (empty_cells (place b (fst mv) (snd mv) v)))%nat)
      as Hchild.
    { intros v [r c] Hmv. cbn [fst snd]. split; [auto with grid|].
      apply candidates_empty, in_empty_cells in Hmv as [Hin _].
      pose proof (length_empty_cells_place b r c v
                    (grid_ok_readable _ _ _ Hok Hin)). lia. }
    destruct mx.
    + apply fold_max_finite; [|left; auto].
      intros mv Hmv. apply IH; apply (Hchild p mv Hmv).
    + apply fold_min_finite; [|left; auto].
      intros mv Hmv. apply IH; apply (Hchild (3 - p) mv Hmv).
Qed.

(** X13.  On a grid that holds the board and has at least [depth] empty
    cells, [_minimax] started with the bounds [-inf] and [+inf] returns a
    finite score, between -90000000 and 90000000. *)
Theorem minimax_finite_score (depth : nat) (is_maximizing : bool)
    (player : Z) (b : board) :
  grid_ok b = true -> (depth <= length (empty_cells b))%nat ->
  exists z,
    _minimax depth is_maximizing player NegInf PosInf b = (b, Ret (Fin z))
    /\ -90000000 <= z <= 90000000.
Proof.
  intros Hok Hlen.
  destruct (minimax_value_finite depth is_maximizing player b Hok Hlen)
    as (z & Hz & Hb).
  exists z. split; [|exact Hb]. rewrite <- Hz. apply _minimax_full, Hok.
Qed.

Lemma minimax_finite_score_witness :
  grid_ok four_in_row_board = true
  /\ (6 <= length (empty_cells four_in_row_board))%nat
  /\ exists z,
       _minimax 6 false 1 NegInf PosInf four_in_row_board
       = (four_in_row_board, Ret (Fin z)).
Proof.
  assert (grid_ok four_in_row_board = true) as H by (vm_compute; reflexivity).
  assert (6 <= length (empty_cells four_in_row_board))%nat as Hlen
      by (vm_compute; lia).
  split; [exact H|]. split; [exact Hlen|].
  destruct (minimax_finite_score 6 false 1 four_in_row_board H Hlen)
    as (z & Hz & _).
  exists z. exact Hz.
Defined.

(** ** The threat score on a cell that is not empty *)

Lemma threat_weight_bounds (count : Z) : 0 <= threat_weight count <= 1000.
Proof.
  unfold threat_weight.
  repeat match goal with |- context [if ?c then _ else _] => destruct c end;
    lia.
Qed.

(** X14.  [_evaluate_move_threat] leaves the cell of the move empty.  On a
    grid that holds the board and for a cell of the board it returns a
    score between 0 and 4000 and the grid with [0] on the cell: the grid is
    the one it was given exactly when the cell was empty, and a stone that
    stood on the cell is lost. *)
Theorem evaluate_move_threat_clears_cell (row col player : Z) (b : board) :
  grid_ok b = true -> in_board row col = true ->
  exists s,
    _evaluate_move_threat (row, col) player b = (place b row col 0, Ret s)
    /\ 0 <= s <= 4000
    /\ get_cell (place b row col 0) row col = Ret 0
    /\ (place b row col 0 = b <-> get_cell b row col = Ret 0).
Proof.
  intros Hok Hin. pose proof (grid_ok_readable _ _ _ Hok Hin) as Hr.
  exists (move_threat b (row, col) player).
  split; [|split; [|split]].
  - unfold _evaluate_move_threat. rewrite set_step by assumption.
    rewrite (read_step _ _ _ (move_threat b (row, col) player)).
    + rewrite set_step by auto with grid. rewrite place_place. reflexivity.
    + unfold move_threat. cbn [fst snd].
      apply (ofold_ret _
        (fun s d => s + threat_weight
           (run_through (place b row col player) row col
              (fst d) (snd d) player))).
      intros s [dr dc] Hd. apply directions_nonzero in Hd.
      rewrite _count_consecutive_ok by auto with grid.
      cbn [obind fst snd]. unfold threat_weight.
      repeat match goal with |- context [if ?c then _ else _] => destruct c end;
        f_equal; lia.
  - unfold move_threat.
    pose proof (fold_sum_bounds
                  (fun d => threat_weight
                     (run_through (place b (fst (row, col)) (snd (row, col))
                                     player)
                        (fst (row, col)) (snd (row, col))
                        (fst d) (snd d) player))
                  0 1000 directions 0
                  (fun d _ => threat_weight_bounds _)) as H.
    change (Z.of_nat (length directions)) with 4 in H. lia.
  - apply get_place_eq, Hr.
  - split.
    + intros E. rewrite <- E. apply get_place_eq, Hr.
    + intros Hget. apply place_zero; [exact Hok|].
      apply in_empty_cells. split; [exact Hin|].
      unfold cell. rewrite Hget. reflexivity.
Qed.

Lemma evaluate_move_threat_clears_cell_witness :
  grid_ok four_in_row_board = true
  /\ exists s,
       _evaluate_move_threat (7, 7) 2 four_in_row_board
       = (place four_in_row_board 7 7 0, Ret s)
       /\ 0 <= s <= 4000.
Proof.
  assert (grid_ok four_in_row_board = true) as H by (vm_compute; reflexivity).
  split; [exact H|].
  destruct (evaluate_move_threat_clears_cell 7 7 2 four_in_row_board H
              ltac:(vm_compute; reflexivity)) as (s & Hs & Hb & _).
  exists s. split; assumption.
Defined.

(** ** The game session *)

Lemma call_setter_fields (lower : string -> string) (self : HumanVsAI.instance)
    (c : setter) :
  HumanVsAI.board_size (call_setter lower self c) = HumanVsAI.board_size self
  /\ HumanVsAI.max_depth (call_setter lower self c) = HumanVsAI.max_depth self.
Proof.
  destruct c as [d|col]; cbn [call_setter].
  - unfold HumanVsAI.set_difficulty.
    destruct (AIDifficulty_call (lower d)); cbn; auto.
  - unfold HumanVsAI.set_ai_color.
    destruct (bool_decide _); cbn; auto.
Qed.

Lemma call_setter_colors (lower : string -> string) (self : HumanVsAI.instance)
    (c : setter) :
  HumanVsAI.ai_color self + HumanVsAI.human_color self = 3 ->
  1 <= HumanVsAI.ai_color self <= 2 ->
  HumanVsAI.ai_color (call_setter lower self c)
  + HumanVsAI.human_color (call_setter lower self c) = 3
  /\ 1 <= HumanVsAI.ai_color (call_setter lower self c) <= 2.
Proof.
  intros Hsum Hai. destruct c as [d|col]; cbn [call_setter].
  - unfold HumanVsAI.set_difficulty.
    destruct (AIDifficulty_call (lower d)); cbn; auto.
  - unfold HumanVsAI.set_ai_color.
    destruct (bool_decide _); cbn; lia.
Qed.

Lemma session_snoc (lower : string -> string) (cs : list setter) (c : setter) :
  session lower (cs ++ [c]) = call_setter lower (session lower cs) c.
Proof. unfold session. rewrite fold_left_app. reflexivity. Qed.

Lemma session_invariant (lower : string -> string) (cs : list setter) :
  HumanVsAI.ai_color (session lower cs)
  + HumanVsAI.human_color (session lower cs) = 3
  /\ 1 <= HumanVsAI.ai_color (session lower cs) <= 2
  /\ HumanVsAI.board_size (session lower cs) = 15
  /\ HumanVsAI.max_depth (session lower cs) = 2.
Proof.
  induction cs as [|c cs IH] using rev_ind.
  - cbn. lia.
  - rewrite session_snoc. destruct IH as (Hs & Ha & Hb & Hd).
    destruct (call_setter_colors lower (session lower cs) c Hs Ha) as [H1 H2].
    destruct (call_setter_fields lower (session lower cs) c) as [H3 H4].
    rewrite H3, H4. auto.
Qed.

(** X15.  Whatever [str.lower] does and whatever calls of [set_difficulty]
    and [set_ai_color] were made on a fresh [HumanVsAI], the two colours are
    1 and 2, one each; [board_size] is 15; and [max_depth] is still 2: no
    call updates it, so it is the depth [_get_max_depth] gives for the
    difficulty in force only when that is INTERMEDIATE. *)
Theorem session_colors_and_depth (lower : string -> string)
    (cs : list setter) :
  let self := session lower cs in
  ((HumanVsAI.ai_color self = 1 /\ HumanVsAI.human_color self = 2)
   \/ (HumanVsAI.ai_color self = 2 /\ HumanVsAI.human_color self = 1))
  /\ HumanVsAI.board_size self = 15
  /\ HumanVsAI.max_depth self = 2
  /\ (HumanVsAI.max_depth self
      = _get_max_depth (HumanVsAI.current_difficulty self)
      <-> HumanVsAI.current_difficulty self = INTERMEDIATE).
Proof.
  cbv zeta. destruct (session_invariant lower cs) as (Hs & Ha & Hb & Hd).
  split; [lia|]. split; [exact Hb|]. split; [exact Hd|].
  rewrite Hd. destruct (HumanVsAI.current_difficulty (session lower cs));
    cbn [_get_max_depth]; split; intros H; try reflexivity; try discriminate;
    lia.
Qed.

Lemma AIDifficulty_call_value (d : AIDifficulty) :
  AIDifficulty_call (AIDifficulty_value d) = Some d.
Proof. destruct d; reflexivity. Qed.

Lemma AIDifficulty_call_Some (v : string) (d : AIDifficulty) :
  AIDifficulty_call v = Some d -> v = AIDifficulty_value d.
Proof.
  unfold AIDifficulty_call.
  repeat match goal with
         | |- context [String.eqb v ?s] =>
             destruct (String.eqb_spec v s) as [->|_]
         end; intros H; inversion H; reflexivity.
Qed.

Lemma call_setter_keeps (lower : string -> string) (self : HumanVsAI.instance)
    (c : setter) :
  keeps_difficulty lower c ->
  HumanVsAI.current_difficulty (call_setter lower self c)
  = HumanVsAI.current_difficulty self.
Proof.
  destruct c as [d|col]; cbn [keeps_difficulty call_setter].
  - intros H. unfold HumanVsAI.set_difficulty. rewrite H. reflexivity.
  - intros _. unfold HumanVsAI.set_ai_color.
    destruct (bool_decide _); reflexivity.
Qed.

(** X16.  The difficulty in force is the one of the last call of
    [set_difficulty] whose name, in lower case, is the value of a member of
    [AIDifficulty]: a name that is none ([ValueError], caught) and a call
    of [set_ai_color] leave the difficulty as it is.  The message of the
    accepted call ends in the value of the member, and the message of a
    rejected call quotes the name as it was given. *)
Theorem session_difficulty (lower : string -> string)
    (before after : list setter) (difficulty : string) (d : AIDifficulty) :
  lower difficulty = AIDifficulty_value d ->
  Forall (keeps_difficulty lower) after ->
  HumanVsAI.current_difficulty
    (session lower (before ++ SetDifficulty difficulty :: after)) = d
  /\ (forall self,
        snd (HumanVsAI.set_difficulty lower difficulty self)
        = "AI难度已设置为: " +:+ AIDifficulty_value d)
  /\ (forall self name,
        AIDifficulty_call (lower name) = None ->
        HumanVsAI.set_difficulty lower name self
        = (self,
           "无效难度: " +:+ name
           +:+ "，可用: beginner, intermediate, advance, expert")).
Proof.
  intros Hd Hafter. split; [|split].
  - induction after as [|c after IH] using rev_ind.
    + change (before ++ [SetDifficulty difficulty])
        with (before ++ [SetDifficulty difficulty]).
      rewrite session_snoc. cbn [call_setter].
      unfold HumanVsAI.set_difficulty.
      rewrite Hd, AIDifficulty_call_value. reflexivity.
    + apply List.Forall_app in Hafter as [Ha Hc].
      change (before ++ SetDifficulty difficulty :: after ++ [c])
        with (before ++ (SetDifficulty difficulty :: after) ++ [c]).
      rewrite app_assoc, session_snoc.
      rewrite call_setter_keeps by (inversion Hc; assumption).
      apply IH, Ha.
  - intros self. unfold HumanVsAI.set_difficulty.
    rewrite Hd, AIDifficulty_call_value. reflexivity.
  - intros self name Hn. unfold HumanVsAI.set_difficulty. rewrite Hn.
    reflexivity.
Qed.

Lemma session_difficulty_witness :
  HumanVsAI.current_difficulty
    (session ascii_lower
       [SetAiColor "Black"; SetDifficulty "Expert"; SetDifficulty "hard";
        SetAiColor "white"]) = EXPERT.
Proof.
  apply (session_difficulty ascii_lower [SetAiColor "Black"]
           [SetDifficulty "hard"; SetAiColor "white"] "Expert" EXPERT).
  - reflexivity.
  - constructor; [reflexivity|]. constructor; [exact I|]. constructor.
Defined.

(** X17.  After any calls of the setters, a player 1 or 2 is either the AI
    or the human: [is_ai_turn] is false exactly for [human_color].  On a
    grid that holds the board and has an empty cell [get_ai_move] returns
    an empty cell and leaves the grid as it was. *)
Theorem session_turns_and_move (lower : string -> string) (cs : list setter)
    (g : rng) (b : board) :
  grid_ok b = true -> empty_cells b <> [] ->
  let self := session lower cs in
  (forall current_player,
      current_player = 1 \/ current_player = 2 ->
      (HumanVsAI.is_ai_turn self current_player = false
       <-> current_player = HumanVsAI.human_color self))
  /\ exists mv,
       HumanVsAI.get_ai_move self g b = (b, Ret mv)
       /\ In mv (empty_cells b).
Proof.
  intros Hok Hne. cbv zeta.
  destruct (session_invariant lower cs) as (Hs & Ha & _). split.
  - intros p Hp. unfold HumanVsAI.is_ai_turn.
    destruct (Z.eqb_spec p (HumanVsAI.ai_color (session lower cs)));
      split; intros H; try reflexivity; try discriminate; lia.
  - unfold HumanVsAI.get_ai_move. apply get_move_ok; assumption.
Qed.

Lemma session_turns_and_move_witness :
  exists mv,
    HumanVsAI.get_ai_move (session ascii_lower [SetAiColor "BLACK"])
      sample_rng four_in_row_board = (four_in_row_board, Ret mv)
    /\ In mv (empty_cells four_in_row_board).
Proof.
  apply (session_turns_and_move ascii_lower [SetAiColor "BLACK"] sample_rng
           four_in_row_board).
  - vm_compute. reflexivity.
  - vm_compute. discriminate.
Defined.

(** ** The board object of the position analysis *)

Section PatternFacts.

Context {Player : Type} `{EqDecision Player}.

Local Abbreviation grid := (list (list Player)).

Lemma size_ok_readable (size : Z) (g : grid) (r c : Z) :
  size_ok size g = true -> 0 <= r < size -> 0 <= c < size ->
  cell_readable g r c = true.
Proof.
  unfold size_ok. intros H Hr Hc. rewrite forallb_forall in H.
  specialize (H r ltac:(apply in_range; lia)).
  rewrite forallb_forall in H. apply H, in_range. lia.
Qed.

Lemma cell_readable_rows (g : grid) (r c : Z) :
  cell_readable g r c = true ->
  exists row v, subscript g r = Ret row /\ subscript row c = Ret v.
Proof.
  unfold cell_readable, Evaluation.board_get.
  destruct (subscript g r) as [row| |]; cbn [obind]; try discriminate.
  destruct (subscript row c) as [v| |] eqn:E; try discriminate. eauto.
Qed.

Lemma board_set_readable (g : grid) (r c : Z) (v : Player) :
  cell_readable g r c = true ->
  Evaluation.board_set r c v g = (put g r c v, Ret tt).
Proof.
  intros H. unfold put. apply cell_readable_rows in H as (row & w & Hr & Hc).
  unfold Evaluation.board_set. rewrite Hr, Hc. reflexivity.
Qed.

Lemma get_put_ne (g : grid) (r c : Z) (v : Player) (r' c' : Z) :
  (r', c') <> (r, c) ->
  Evaluation.board_get (put g r c v) r' c' = Evaluation.board_get g r' c'.
Proof.
  intros Hne. unfold put, Evaluation.board_set.
  destruct (subscript g r) as [row| |] eqn:Hr; try reflexivity.
  destruct (subscript row c) as [w| |] eqn:Hc; try reflexivity.
  cbn [fst]. apply subscript_Ret in Hr as [Hr0 Hr], Hc as [Hc0 Hc].
  unfold Evaluation.board_get, subscript.
  destruct (Z.leb_spec 0 r') as [Hr'|Hr']; [|reflexivity].
  destruct (decide (Z.to_nat r = Z.to_nat r')) as [E|E].
  - assert (r' = r) as -> by lia.
    rewrite list_lookup_insert_eq by (eapply lookup_lt_Some; eassumption).
    rewrite Hr. cbn [obind].
    destruct (Z.leb_spec 0 c') as [Hc'|Hc']; [|reflexivity].
    rewrite list_lookup_insert_ne by (intros E'; apply Hne; f_equal; lia).
    reflexivity.
  - rewrite list_lookup_insert_ne by exact E. reflexivity.
Qed.

Lemma get_put_eq (g : grid) (r c : Z) (v : Player) :
  cell_readable g r c = true -> Evaluation.board_get (put g r c v) r c = Ret v.
Proof.
  intros H. apply cell_readable_rows in H as (row & w & Hr & Hc).
  unfold put, Evaluation.board_set. rewrite Hr, Hc. cbn [fst].
  apply subscript_Ret in Hr as [Hr0 Hr], Hc as [Hc0 Hc].
  unfold Evaluation.board_get, subscript.
  destruct (Z.leb_spec 0 r) as [_|]; [|lia].
  rewrite list_lookup_insert_eq by (eapply lookup_lt_Some; eassumption).
  cbn [obind]. destruct (Z.leb_spec 0 c) as [_|]; [|lia].
  rewrite list_lookup_insert_eq by (eapply lookup_lt_Some; eassumption).
  reflexivity.
Qed.

Lemma cell_readable_put (g : grid) (r c : Z) (v : Player) (r' c' : Z) :
  cell_readable g r c = true ->
  cell_readable (put g r c v) r' c' = cell_readable g r' c'.
Proof.
  intros Hr. destruct (decide ((r', c') = (r, c))) as [[= -> ->]|Hne].
  - unfold cell_readable at 1. rewrite get_put_eq by exact Hr.
    symmetry. exact Hr.
  - unfold cell_readable. rewrite get_put_ne by exact Hne. reflexivity.
Qed.

Lemma size_ok_put (size : Z) (g : grid) (r c : Z) (v : Player) :
  size_ok size g = true -> cell_readable g r c = true ->
  size_ok size (put g r c v) = true.
Proof.
  unfold size_ok. rewrite !forallb_forall. intros H Hr i Hi.
  specialize (H i Hi). rewrite forallb_forall in H.
  apply forallb_forall. intros j Hj. rewrite cell_readable_put by exact Hr.
  auto.
Qed.

Lemma put_put (g : grid) (r c : Z) (v w : Player) :
  cell_readable g r c = true -> put (put g r c v) r c w = put g r c w.
Proof.
  intros E. destruct (cell_readable_rows _ _ _ E) as (row & x & Hr & Hc).
  unfold put at 2 3. unfold Evaluation.board_set. rewrite Hr, Hc. cbn [fst].
  apply subscript_Ret in Hr as [Hr0 Hr], Hc as [Hc0 Hc].
  unfold put, Evaluation.board_set, subscript.
  destruct (Z.leb_spec 0 r) as [_|]; [|lia].
  rewrite list_lookup_insert_eq by (eapply lookup_lt_Some; eassumption).
  destruct (Z.leb_spec 0 c) as [_|]; [|lia].
  rewrite list_lookup_insert_eq by (eapply lookup_lt_Some; eassumption).
  cbn [fst]. rewrite list_insert_insert_eq. f_equal.
  apply list_insert_insert_eq.
Qed.

Lemma put_same (g : grid) (r c : Z) (v : Player) :
  Evaluation.board_get g r c = Ret v -> put g r c v = g.
Proof.
  unfold Evaluation.board_get. intros H.
  destruct (subscript g r) as [row| |] eqn:Hr; cbn [obind] in H;
    try discriminate.
  unfold put, Evaluation.board_set. rewrite Hr, H. cbn [fst].
  apply subscript_Ret in Hr as [Hr0 Hr], H as [Hc0 Hc].
  rewrite (list_insert_id row) by exact Hc.
  apply list_insert_id. exact Hr.
Qed.

Lemma put_undo (g : grid) (r c : Z) (v w : Player) :
  Evaluation.board_get g r c = Ret w -> put (put g r c v) r c w = g.
Proof.
  intros H. rewrite put_put by (unfold cell_readable; rewrite H; reflexivity).
  apply put_same, H.
Qed.

(** *** Loops *)

Lemma count_until_ret {A} (test : A -> outcome bool) (f : A -> bool)
    (l : list A) (count : Z) :
  (forall x, In x l -> test x = Ret (f x)) ->
  Evaluation.count_until test l count = Ret (count + lead f l).
Proof.
  revert count. induction l as [|x l IH]; intros count H;
    cbn [Evaluation.count_until lead].
  - f_equal. lia.
  - rewrite (H x) by (left; reflexivity). cbn [obind].
    destruct (f x); [|f_equal; lia].
    rewrite IH by (intros y Hy; apply H; right; exact Hy). f_equal. lia.
Qed.

Lemma lead_bounds {A} (f : A -> bool) (l : list A) :
  0 <= lead f l <= Z.of_nat (length l).
Proof.
  induction l as [|x l IH]; cbn [lead length]; [lia|].
  destruct (f x); lia.
Qed.

Lemma st_fold_ret {A S} (body : S -> A -> Evaluation.St S) (f : S -> A -> S)
    (l : list A) (s : S) (g : grid) :
  (forall s x, In x l -> body s x g = (g, Ret (f s x))) ->
  Evaluation.st_fold body l s g = (g, Ret (fold_left f l s)).
Proof.
  revert s. induction l as [|x l IH]; intros s H;
    cbn [Evaluation.st_fold fold_left]; [reflexivity|].
  unfold Evaluation.st_bind. rewrite (H s x) by (left; reflexivity).
  apply IH. intros s' y Hy. apply H. right; exact Hy.
Qed.

Lemma fold_left_pairs {A B S} (f : S -> A * B -> S) (l : list A)
    (h : A -> list B) (s : S) :
  fold_left (fun s i => fold_left (fun s j => f s (i, j)) (h i) s) l s
  = fold_left f (pairs l h) s.
Proof.
  unfold pairs. revert s.
  induction l as [|i l IH]; intros s; cbn [fold_left flat_map]; [reflexivity|].
  rewrite fold_left_app, IH. f_equal.
  generalize s. induction (h i) as [|j js IHj]; intros s0;
    cbn [fold_left map]; [reflexivity|]. apply IHj.
Qed.

Lemma in_pairs_range (size i j : Z) :
  In (i, j) (pairs (range size) (fun _ => range size))
  <-> 0 <= i < size /\ 0 <= j < size.
Proof.
  unfold pairs. rewrite in_flat_map. split.
  - intros (i' & Hi & Hin). apply in_map_iff in Hin as (j' & [= <- <-] & Hj).
    apply in_range in Hi, Hj. lia.
  - intros [Hr Hc]. exists i. split; [apply in_range; lia|].
    apply in_map_iff. exists j. split; [reflexivity|apply in_range; lia].
Qed.

(** *** The pattern test *)

Lemma stone_at_ok (size : Z) (g : grid) (r c : Z) (p : Player) :
  size_ok size g = true ->
  Evaluation.stone_at size g r c p = Ret (holds size g r c p).
Proof.
  intros Hok. unfold Evaluation.stone_at, holds.
  destruct ((0 <=? r) && (r <? size) && (0 <=? c) && (c <? size)) eqn:E;
    cbn [andb]; [|reflexivity].
  rewrite !andb_true_iff in E.
  pose proof (size_ok_readable size g r c Hok ltac:(lia) ltac:(lia)) as Hr.
  unfold cell_readable in Hr.
  destruct (Evaluation.board_get g r c); try discriminate. reflexivity.
Qed.

Lemma pattern_count_bounds (size : Z) (g : grid) (row col : Z) (p : Player)
    (d : Z * Z) :
  1 <= pattern_count size g row col p d <= 9.
Proof.
  unfold pattern_count.
  pose proof (lead_bounds
    (fun i => holds size g (row + fst d * i) (col + snd d * i) p)
    (zrange 1 5)) as H1.
  pose proof (lead_bounds
    (fun i => holds size g (row - fst d * i) (col - snd d * i) p)
    (zrange 1 5)) as H2.
  change (Z.of_nat (length (zrange 1 5))) with 4 in H1, H2. lia.
Qed.

Lemma pattern_best_bounds (size : Z) (g : grid) (row col : Z) (p : Player) :
  1 <= pattern_best size g row col p <= 9.
Proof.
  unfold pattern_best, directions. cbn [map fold_right].
  pose proof (pattern_count_bounds size g row col p (0, 1)).
  pose proof (pattern_count_bounds size g row col p (1, 0)).
  pose proof (pattern_count_bounds size g row col p (1, 1)).
  pose proof (pattern_count_bounds size g row col p (1, -1)).
  lia.
Qed.

Lemma _check_pattern_at_ok (size : Z) (g : grid) (row col : Z) (p : Player)
    (target : Z) :
  size_ok size g = true ->
  Evaluation._check_pattern_at size g row col p target
  = Ret (target <=? pattern_best size g row col p).
Proof.
  intros Hok. unfold Evaluation._check_pattern_at.
  rewrite (oany_ret _
    (fun d => target <=? pattern_count size g row col p d)).
  - f_equal. unfold pattern_best, directions. cbn [existsb map fold_right].
    pose proof (pattern_count_bounds size g row col p (0, 1)).
    pose proof (pattern_count_bounds size g row col p (1, 0)).
    pose proof (pattern_count_bounds size g row col p (1, 1)).
    pose proof (pattern_count_bounds size g row col p (1, -1)).
    repeat match goal with
           | |- context [?a <=? ?b] => destruct (Z.leb_spec a b)
           end; cbn [orb]; try reflexivity; lia.
  - intros [dr dc] _.
    rewrite (count_until_ret _
      (fun i => holds size g (row + dr * i) (col + dc * i) p))
      by (intros; apply stone_at_ok, Hok).
    cbn [obind].
    rewrite (count_until_ret _
      (fun i => holds size g (row - dr * i) (col - dc * i) p))
      by (intros; apply stone_at_ok, Hok).
    cbn [obind]. reflexivity.
Qed.

(** *** The scans *)

Lemma pattern_scan_ok (EMPTY : Player) (size : Z) (player : Player)
    (target : Z) (g : grid) :
  size_ok size g = true ->
  Evaluation.st_fold (fun moves i =>
    Evaluation.st_fold (fun moves j =>
      Evaluation.st_bind
        (Evaluation.st_read (fun g => Evaluation.board_get g i j)) (fun v =>
      if bool_decide (v = EMPTY) then
        Evaluation.st_bind (Evaluation.board_set i j player) (fun _ =>
        Evaluation.st_bind
          (Evaluation.st_read
             (fun g => Evaluation._check_pattern_at size g i j player target))
          (fun t =>
        let moves := if (t : bool) then moves ++ [(i, j)] else moves in
        Evaluation.st_bind (Evaluation.board_set i j EMPTY) (fun _ =>
        Evaluation.st_ret moves)))
      else Evaluation.st_ret moves))
      (range size) moves)
    (range size) [] g
  = (g, Ret (pattern_moves EMPTY size g player target)).
Proof.
  intros Hok.
  set (keep := fun ij : move =>
         holds size g (fst ij) (snd ij) EMPTY
         && (target <=? pattern_best size (put g (fst ij) (snd ij) player)
                          (fst ij) (snd ij) player)).
  rewrite (st_fold_ret _
    (fun moves i =>
       fold_left (fun moves j => if keep (i, j) then moves ++ [(i, j)]
                                 else moves) (range size) moves)).
  - rewrite (fold_left_pairs
               (fun moves ij => if keep ij then moves ++ [ij] else moves)).
    rewrite fold_left_filter. reflexivity.
  - intros moves i Hi. apply in_range in Hi.
    apply st_fold_ret. intros acc j Hj. apply in_range in Hj.
    pose proof (size_ok_readable size g i j Hok Hi Hj) as Hr.
    unfold Evaluation.st_bind at 1. unfold Evaluation.st_read at 1.
    unfold keep, holds. cbn [fst snd].
    replace ((0 <=? i) && (i <? size) && (0 <=? j) && (j <? size)) with true
      by (symmetry; rewrite !andb_true_iff; lia).
    cbn [andb]. unfold cell_readable in Hr.
    destruct (Evaluation.board_get g i j) as [v| |] eqn:Hg; try discriminate.
    destruct (bool_decide (v = EMPTY)) eqn:Ev; cbn [andb];
      [|reflexivity].
    apply bool_decide_eq_true in Ev. subst v.
    assert (cell_readable g i j = true) as Hr'
        by (unfold cell_readable; rewrite Hg; reflexivity).
    unfold Evaluation.st_bind at 1. rewrite board_set_readable by exact Hr'.
    unfold Evaluation.st_bind at 1. unfold Evaluation.st_read.
    rewrite _check_pattern_at_ok by (apply size_ok_put; assumption).
    cbv zeta. unfold Evaluation.st_bind.
    rewrite board_set_readable
      by (rewrite cell_readable_put; assumption).
    rewrite put_undo by exact Hg. reflexivity.
Qed.

Lemma in_pattern_moves (EMPTY : Player) (size : Z) (g : grid)
    (player : Player) (target : Z) (mv : move) :
  In mv (pattern_moves EMPTY size g player target)
  <-> (0 <= fst mv < size /\ 0 <= snd mv < size)
      /\ holds size g (fst mv) (snd mv) EMPTY = true
      /\ target <= pattern_best size (put g (fst mv) (snd mv) player)
                     (fst mv) (snd mv) player.
Proof.
  unfold pattern_moves. rewrite filter_In, andb_true_iff, Z.leb_le.
  destruct mv as [i j]. rewrite in_pairs_range. cbn [fst snd]. tauto.
Qed.

Lemma holds_get (size : Z) (g : grid) (r c : Z) (v : Player) :
  holds size g r c v = true ->
  (0 <= r < size /\ 0 <= c < size) /\ Evaluation.board_get g r c = Ret v.
Proof.
  unfold holds. rewrite !andb_true_iff. intros [Hb Hv]. split; [lia|].
  destruct (Evaluation.board_get g r c) as [w| |]; try discriminate.
  apply bool_decide_eq_true in Hv. congruence.
Qed.

End PatternFacts.

(** X18.  On a grid that holds a board of the size [size],
    [_check_pattern_at] answers through one number, the longest of the four
    counts, which is between 1 and 9: it returns [True] exactly for the
    targets up to it.  So the answer falls with the target, is [True] for a
    target of 1 or less and [False] for one of 10 or more. *)
Theorem check_pattern_at_threshold {Player : Type} `{EqDecision Player}
    (size : Z) (g : list (list Player)) (row col : Z) (player : Player) :
  size_ok size g = true ->
  1 <= pattern_best size g row col player <= 9
  /\ forall target_count,
       Evaluation._check_pattern_at size g row col player target_count
       = Ret (target_count <=? pattern_best size g row col player).
Proof.
  intros Hok. split; [apply pattern_best_bounds|].
  intros t. apply _check_pattern_at_ok, Hok.
Qed.

Lemma check_pattern_at_threshold_witness :
  size_ok 15 four_in_row_board = true
  /\ Evaluation._check_pattern_at 15 four_in_row_board 7 7 1 4
     = Ret (4 <=? pattern_best 15 four_in_row_board 7 7 1).
Proof.
  assert (size_ok 15 four_in_row_board = true) as H by (vm_compute; reflexivity).
  split; [exact H|].
  apply (check_pattern_at_threshold 15 four_in_row_board 7 7 1 H).
Defined.

(** X19.  On a grid that holds a board of the size [size], [_find_threats]
    and [_find_attacking_moves] leave the grid as it was.  Each returns, in
    row-major order, the cells of the board that hold [EMPTY] and where
    [_check_pattern_at] says [True] with the stone of [player] on the cell,
    for the target 4 and 3; so every threat is an attacking move. *)
Theorem find_threats_attacking {Player : Type} `{EqDecision Player}
    (EMPTY : Player) (size : Z) (player : Player) (g : list (list Player)) :
  size_ok size g = true ->
  exists threats attacking_moves,
    Evaluation._find_threats EMPTY size player g = (g, Ret threats)
    /\ Evaluation._find_attacking_moves EMPTY size player g
       = (g, Ret attacking_moves)
    /\ StronglySorted row_major_lt threats
    /\ StronglySorted row_major_lt attacking_moves
    /\ (forall mv, In mv threats -> In mv attacking_moves)
    /\ (forall i j,
          In (i, j) threats <->
          (0 <= i < size /\ 0 <= j < size)
          /\ Evaluation.board_get g i j = Ret EMPTY
          /\ Evaluation._check_pattern_at size (put g i j player) i j player 4
             = Ret true)
    /\ (forall i j,
          In (i, j) attacking_moves <->
          (0 <= i < size /\ 0 <= j < size)
          /\ Evaluation.board_get g i j = Ret EMPTY
          /\ Evaluation._check_pattern_at size (put g i j player) i j player 3
             = Ret true).
Proof.
  intros Hok.
  assert (forall target i j,
            In (i, j) (pattern_moves EMPTY size g player target) <->
            (0 <= i < size /\ 0 <= j < size)
            /\ Evaluation.board_get g i j = Ret EMPTY
            /\ Evaluation._check_pattern_at size (put g i j player) i j player
                 target = Ret true) as Hin.
  { intros target i j. rewrite in_pattern_moves. cbn [fst snd]. split.
    - intros (Hb & Hh & Ht). apply holds_get in Hh as [_ Hg].
      split; [exact Hb|]. split; [exact Hg|].
      rewrite _check_pattern_at_ok.
      + f_equal. apply Z.leb_le, Ht.
      + apply size_ok_put; [exact Hok|].
        unfold cell_readable. rewrite Hg. reflexivity.
    - intros (Hb & Hg & Ht). split; [exact Hb|].
      rewrite _check_pattern_at_ok in Ht
        by (apply size_ok_put; [exact Hok|];
            unfold cell_readable; rewrite Hg; reflexivity).
      split.
      + unfold holds. rewrite Hg, bool_decide_eq_true_2 by reflexivity.
        rewrite !andb_true_iff. repeat split; lia.
      + apply Z.leb_le. congruence. }
  exists (pattern_moves EMPTY size g player 4),
         (pattern_moves EMPTY size g player 3).
  split; [apply (pattern_scan_ok EMPTY size player 4 g Hok)|].
  split; [apply (pattern_scan_ok EMPTY size player 3 g Hok)|].
  split; [apply filter_sorted, pairs_sorted; apply zrange_sorted|].
  split; [apply filter_sorted, pairs_sorted; apply zrange_sorted|].
  split; [|split; apply Hin].
  intros mv. rewrite !in_pattern_moves. intros (Hb & Hh & Ht).
  split; [exact Hb|]. split; [exact Hh|lia].
Qed.

Lemma find_threats_attacking_witness :
  size_ok 15 four_in_row_board = true
  /\ exists threats attacking_moves,
       Evaluation._find_threats 0 15 1 four_in_row_board
       = (four_in_row_board, Ret threats)
       /\ Evaluation._find_attacking_moves 0 15 1 four_in_row_board
          = (four_in_row_board, Ret attacking_moves)
       /\ (forall mv, In mv threats -> In mv attacking_moves).
Proof.
  assert (size_ok 15 four_in_row_board = true) as H by (vm_compute; reflexivity).
  split; [exact H|].
  destruct (find_threats_attacking 0 15 1 four_in_row_board H)
    as (threats & attacking & H1 & H2 & _ & _ & H3 & _).
  exists threats, attacking. auto.
Defined.

(** *** The centre of the board *)

Lemma length_zrange (lo hi : Z) : length (zrange lo hi) = Z.to_nat (hi - lo).
Proof. unfold zrange. rewrite length_map, length_seq. reflexivity. Qed.

Lemma length_pairs {A B} (l1 : list A) (l2 : list B) :
  length (pairs l1 (fun _ => l2)) = (length l1 * length l2)%nat.
Proof.
  unfold pairs. induction l1 as [|i l1 IH]; cbn [flat_map length];
    [reflexivity|].
  rewrite length_app, length_map, IH. reflexivity.
Qed.

Lemma in_pairs_zrange (lo hi i j : Z) :
  In (i, j) (pairs (zrange lo hi) (fun _ => zrange lo hi))
  <-> lo <= i < hi /\ lo <= j < hi.
Proof.
  unfold pairs. rewrite in_flat_map. split.
  - intros (i' & Hi & Hin). apply in_map_iff in Hin as (j' & [= <- <-] & Hj).
    apply in_zrange in Hi, Hj. lia.
  - intros [Hr Hc]. exists i. split; [apply in_zrange; lia|].
    apply in_map_iff. exists j. split; [reflexivity|apply in_zrange; lia].
Qed.

(** X20.  On a grid that holds a board of the size [size],
    [_find_center_moves] returns, in row-major order, the cells of the
    board at most two rows and two columns away from [size // 2] that hold
    [EMPTY]: 25 cells at most. *)
Theorem find_center_moves_window {Player : Type} `{EqDecision Player}
    (EMPTY : Player) (size : Z) (g : list (list Player)) :
  size_ok size g = true ->
  exists center_moves,
    Evaluation._find_center_moves EMPTY size g = Ret center_moves
    /\ StronglySorted row_major_lt center_moves
    /\ (length center_moves <= 25)%nat
    /\ forall i j,
         In (i, j) center_moves <->
         (0 <= i < size /\ 0 <= j < size)
         /\ (-2 <= i - size / 2 <= 2 /\ -2 <= j - size / 2 <= 2)
         /\ Evaluation.board_get g i j = Ret EMPTY.
Proof.
  intros Hok.
  set (lo := Z.max 0 (size / 2 - 2)). set (hi := Z.min size (size / 2 + 3)).
  set (keep := fun ij : Z * Z =>
         match Evaluation.board_get g (fst ij) (snd ij) with
         | Ret v => bool_decide (v = EMPTY)
         | _ => false
         end).
  exists (List.filter keep (pairs (zrange lo hi) (fun _ => zrange lo hi))).
  split; [|split; [|split]].
  - unfold Evaluation._find_center_moves. cbv zeta. fold lo hi.
    rewrite (ofold_nested
      (fun center_moves i j =>
         obind (Evaluation.board_get g i j) (fun v =>
           Ret (if bool_decide (v = EMPTY) then center_moves ++ [(i, j)]
                else center_moves)))).
    rewrite (ofold_ret _
      (fun acc ij => if keep ij then acc ++ [ij] else acc)).
    + rewrite fold_left_filter. reflexivity.
    + intros acc [i j] Hin. apply in_pairs_zrange in Hin. cbn [fst snd].
      pose proof (size_ok_readable size g i j Hok ltac:(lia) ltac:(lia)) as Hr.
      unfold cell_readable in Hr. unfold keep. cbn [fst snd].
      destruct (Evaluation.board_get g i j); try discriminate. reflexivity.
  - apply filter_sorted, pairs_sorted; apply zrange_sorted.
  - pose proof (filter_length_le keep
                  (pairs (zrange lo hi) (fun _ => zrange lo hi))) as Hle.
    rewrite length_pairs, length_zrange in Hle.
    assert (Z.to_nat (hi - lo) <= 5)%nat as H5 by (unfold lo, hi; lia).
    pose proof (Nat.mul_le_mono _ _ _ _ H5 H5) as H25.
    exact (Nat.le_trans _ _ _ Hle H25).
  - intros i j. rewrite filter_In, in_pairs_zrange. unfold keep.
    cbn [fst snd]. split.
    + intros [Hb Hk].
      destruct (Evaluation.board_get g i j) as [v| |]; try discriminate.
      apply bool_decide_eq_true in Hk. subst v.
      split; [lia|]. split; [lia|reflexivity].
    + intros (Hb & Hw & Hg). rewrite Hg. split; [lia|].
      apply bool_decide_eq_true_2. reflexivity.
Qed.

Lemma find_center_moves_window_witness :
  size_ok 15 four_in_row_board = true
  /\ exists center_moves,
       Evaluation._find_center_moves 0 15 four_in_row_board = Ret center_moves
       /\ (length center_moves <= 25)%nat.
Proof.
  assert (size_ok 15 four_in_row_board = true) as H by (vm_compute; reflexivity).
  split; [exact H|].
  destruct (find_center_moves_window 0 15 four_in_row_board H)
    as (l & H1 & _ & H2 & _).
  exists l. auto.
Defined.

(** *** The pattern test and the engine *)

Lemma zrange_cons (lo : Z) (n : nat) :
  zrange lo (lo + Z.of_nat (S n)) = lo :: zrange (lo + 1) (lo + 1 + Z.of_nat n).
Proof.
  unfold zrange.
  replace (Z.to_nat (lo + Z.of_nat (S n) - lo)) with (S n) by lia.
  replace (Z.to_nat (lo + 1 + Z.of_nat n - (lo + 1))) with n by lia.
  cbn [seq map]. f_equal; [lia|].
  rewrite <- seq_shift, map_map. apply map_ext. intros k. lia.
Qed.

Lemma holds_engine (b : board) (r c p : Z) :
  grid_ok b = true ->
  holds 15 b r c p = in_board r c && (cell b r c =? p).
Proof.
  intros Hok. unfold holds. change 15 with board_size. fold (in_board r c).
  destruct (in_board r c) eqn:Hin; cbn [andb]; [|reflexivity].
  unfold cell. change (@Evaluation.board_get Z) with get_cell.
  rewrite (grid_ok_get _ _ _ Hok Hin).
  destruct (Z.eqb_spec (cell b r c) p) as [E|E].
  - apply bool_decide_eq_true_2, E.
  - apply bool_decide_eq_false_2, E.
Qed.

Lemma lead_run_len (b : board) (row col dr dc p : Z) (n : nat) :
  grid_ok b = true ->
  forall k,
    lead (fun i => holds 15 b (row + dr * i) (col + dc * i) p)
      (zrange k (k + Z.of_nat n))
    = run_len n b (row + dr * k) (col + dc * k) dr dc p.
Proof.
  intros Hok. induction n as [|n IH]; intros k.
  - unfold zrange. replace (Z.to_nat (k + Z.of_nat 0 - k)) with 0%nat by lia.
    reflexivity.
  - rewrite zrange_cons. cbn [lead]. rewrite run_len_S.
    rewrite holds_engine by exact Hok.
    destruct (in_board (row + dr * k) (col + dc * k)
              && (cell b (row + dr * k) (col + dc * k) =? p));
      [|reflexivity].
    rewrite IH. do 2 f_equal; lia.
Qed.

Lemma lead_ext {A} (f1 f2 : A -> bool) (l : list A) :
  (forall x, f1 x = f2 x) -> lead f1 l = lead f2 l.
Proof.
  intros H. induction l as [|x l IH]; cbn [lead]; [reflexivity|].
  rewrite H, IH. reflexivity.
Qed.

Lemma run_len_cap (n k : nat) (b : board) (dr dc p : Z) :
  forall r c,
    run_len n b r c dr dc p
    = Z.min (Z.of_nat n) (run_len (n + k) b r c dr dc p).
Proof.
  induction n as [|n IH]; intros r c.
  - cbn [run_len]. pose proof (run_len_nonneg (0 + k) b r c dr dc p). lia.
  - change (S n + k)%nat with (S (n + k)). rewrite !run_len_S.
    destruct (in_board r c && (cell b r c =? p)); [|lia].
    rewrite (IH (r + dr) (c + dc)). lia.
Qed.

Lemma pattern_count_run (b : board) (row col p : Z) (d : Z * Z) (target : Z) :
  grid_ok b = true -> target <= 5 ->
  (target <=? pattern_count 15 b row col p d)
  = (target <=? run_through b row col (fst d) (snd d) p).
Proof.
  intros Hok Ht. destruct d as [dr dc]. unfold pattern_count, run_through.
  cbn [fst snd]. change (zrange 1 5) with (zrange 1 (1 + Z.of_nat 4)).
  rewrite (lead_run_len b row col dr dc p 4 Hok 1).
  rewrite (lead_ext
             (fun i => holds 15 b (row - dr * i) (col - dc * i) p)
             (fun i => holds 15 b (row + - dr * i) (col + - dc * i) p))
    by (intros i; f_equal; lia).
  rewrite (lead_run_len b row col (- dr) (- dc) p 4 Hok 1).
  replace (row + dr * 1) with (row + dr) by lia.
  replace (col + dc * 1) with (col + dc) by lia.
  replace (row + - dr * 1) with (row - dr) by lia.
  replace (col + - dc * 1) with (col - dc) by lia.
  rewrite (run_len_cap 4 11 b dr dc p), (run_len_cap 4 11 b (- dr) (- dc) p).
  change (4 + 11)%nat with (Z.to_nat board_size).
  pose proof (run_len_nonneg (Z.to_nat board_size) b (row + dr) (col + dc)
                dr dc p).
  pose proof (run_len_nonneg (Z.to_nat board_size) b (row - dr) (col - dc)
                (- dr) (- dc) p).
  apply eq_true_iff_eq. rewrite !Z.leb_le. lia.
Qed.

Lemma _check_pattern_at_run_through (b : board) (row col p target : Z) :
  grid_ok b = true -> target <= 5 ->
  Evaluation._check_pattern_at 15 b row col p target
  = Ret (existsb
           (fun d => target <=? run_through b row col (fst d) (snd d) p)
           directions).
Proof.
  intros Hok Ht. unfold Evaluation._check_pattern_at.
  apply oany_ret. intros [dr dc] _.
  rewrite (count_until_ret _
    (fun i => holds 15 b (row + dr * i) (col + dc * i) p))
    by (intros; apply stone_at_ok, Hok).
  cbn [obind].
  rewrite (count_until_ret _
    (fun i => holds 15 b (row - dr * i) (col - dc * i) p))
    by (intros; apply stone_at_ok, Hok).
  cbn [obind]. f_equal.
  apply (pattern_count_run b row col p (dr, dc) target Hok Ht).
Qed.

(** X21.  The pattern test of the position analysis agrees with the
    engine up to five: on a grid that holds the 15 by 15 board, with the
    engine's encoding of the cells and a target of 5 or less,
    [_check_pattern_at] returns [True] exactly when [_count_consecutive]
    counts the target or more along one of the four directions; with the
    target 5 it is [_check_five_in_row]. *)
Theorem check_pattern_at_engine (b : board) (row col player target_count : Z) :
  grid_ok b = true -> target_count <= 5 ->
  exists t,
    Evaluation._check_pattern_at 15 b row col player target_count = Ret t
    /\ (t = true <->
        exists d count,
          In d directions
          /\ _count_consecutive b row col (fst d) (snd d) player = Ret count
          /\ target_count <= count)
    /\ Evaluation._check_pattern_at 15 b row col player 5
       = _check_five_in_row b row col player.
Proof.
  intros Hok Ht. eexists. split; [apply _check_pattern_at_run_through; assumption|].
  split.
  - rewrite existsb_exists. split.
    + intros ([dr dc] & Hd & Hle). exists (dr, dc), (run_through b row col dr dc player).
      split; [exact Hd|]. split; [|apply Z.leb_le, Hle].
      apply _count_consecutive_ok; [exact Hok|apply directions_nonzero, Hd].
    + intros ([dr dc] & count & Hd & Hc & Hle). exists (dr, dc).
      split; [exact Hd|]. cbn [fst snd] in *.
      rewrite _count_consecutive_ok in Hc
        by (try apply directions_nonzero; assumption).
      apply Z.leb_le. congruence.
  - rewrite _check_pattern_at_run_through by (try lia; assumption).
    rewrite _check_five_in_row_ok by exact Hok. reflexivity.
Qed.

Lemma check_pattern_at_engine_witness :
  grid_ok four_in_row_board = true
  /\ Evaluation._check_pattern_at 15 four_in_row_board 7 6 1 5
     = _check_five_in_row four_in_row_board 7 6 1.
Proof.
  assert (grid_ok four_in_row_board = true) as H by (vm_compute; reflexivity).
  split; [exact H|].
  destruct (check_pattern_at_engine four_in_row_board 7 6 1 5 H ltac:(lia))
    as (t & _ & _ & H5).
  exact H5.
Defined.

(** ** The grid handed to the engine *)

Lemma lookup_map_seq {A} (f : nat -> A) (n : nat) :
  forall s k, (k < n)%nat -> map f (seq s n) !! k = Some (f (s + k)%nat).
Proof.
  induction n as [|n IH]; intros s k Hk; [lia|].
  cbn [seq map]. destruct k as [|k].
  - cbn. f_equal. f_equal. lia.
  - cbn [lookup list_lookup]. rewrite IH by lia. f_equal. f_equal. lia.
Qed.

Lemma subscript_map_range {A} (f : Z -> A) (size i : Z) :
  0 <= i < size -> subscript (map f (range size)) i = Ret (f i).
Proof.
  intros Hi. unfold subscript, range, zrange. rewrite map_map.
  destruct (Z.leb_spec 0 i) as [_|]; [|lia].
  rewrite lookup_map_seq by lia. f_equal. f_equal. lia.
Qed.

Section EngineView.

Context {Player : Type} `{EqDecision Player}.
Variables BLACK WHITE : Player.

Lemma stone_code_zero (v : Player) :
  stone_code BLACK WHITE v = 0 <-> v <> BLACK /\ v <> WHITE.
Proof.
  unfold stone_code.
  destruct (bool_decide_reflect (v = BLACK)) as [E1|E1];
    [split; [discriminate|tauto]|].
  destruct (bool_decide_reflect (v = WHITE)) as [E2|E2];
    [split; [discriminate|tauto]|].
  tauto.
Qed.

Lemma ai_board_map (size : Z) (g : list (list Player)) (d : Player) :
  size_ok size g = true ->
  AgentBuilder.ai_board BLACK WHITE size g
  = Ret (map (fun i =>
               map (fun j => stone_code BLACK WHITE (cell_or g i j d))
                   (range size))
             (range size)).
Proof.
  intros Hok. unfold AgentBuilder.ai_board.
  rewrite (ofold_ret _
    (fun acc i =>
       acc ++ [map (fun j => stone_code BLACK WHITE (cell_or g i j d))
                   (range size)])).
  - rewrite fold_left_snoc_map. reflexivity.
  - intros acc i Hi. apply in_range in Hi.
    rewrite (ofold_ret _
      (fun row j => row ++ [stone_code BLACK WHITE (cell_or g i j d)])).
    + cbn [obind]. rewrite fold_left_snoc_map. reflexivity.
    + intros row j Hj. apply in_range in Hj.
      pose proof (size_ok_readable size g i j Hok Hi Hj) as Hr.
      unfold cell_readable in Hr. unfold cell_or, stone_code.
      destruct (Evaluation.board_get g i j) as [v| |]; try discriminate.
      cbn [obind].
      destruct (bool_decide (v = BLACK)); [reflexivity|].
      destruct (bool_decide (v = WHITE)); reflexivity.
Qed.

End EngineView.

(** X22.  From a grid that holds a board of the size [size],
    [ai_make_move] builds a fresh grid of [size] rows of [size] integers
    with 1 for [Player.BLACK], 2 for [Player.WHITE] and 0 for anything
    else.  With the size 15 and a cell that holds neither stone, whatever
    the settings of the session, the move it obtains for [make_move] is a
    cell of the board that holds neither stone. *)
Theorem ai_board_engine_view {Player : Type} `{EqDecision Player}
    (BLACK WHITE : Player) (size : Z) (g : list (list Player)) :
  size_ok size g = true ->
  exists b,
    AgentBuilder.ai_board BLACK WHITE size g = Ret b
    /\ length b = Z.to_nat size
    /\ (forall row, In row b -> length row = Z.to_nat size)
    /\ (forall i j,
          0 <= i < size -> 0 <= j < size ->
          exists v,
            Evaluation.board_get g i j = Ret v
            /\ get_cell b i j = Ret (stone_code BLACK WHITE v))
    /\ (size = 15 ->
        forall human_vs_ai rnd i j,
          0 <= i < 15 -> 0 <= j < 15 -> unoccupied BLACK WHITE g i j ->
          exists mv,
            AgentBuilder.ai_move BLACK WHITE human_vs_ai rnd size g = Ret mv
            /\ (0 <= fst mv < 15 /\ 0 <= snd mv < 15)
            /\ unoccupied BLACK WHITE g (fst mv) (snd mv)).
Proof.
  intros Hok.
  assert (size <= 0 \/ exists d : Player, 0 < size) as [Hs|[d Hs]].
  { destruct (Z.le_gt_cases size 0) as [Hle|Hgt]; [left; exact Hle|right].
    pose proof (size_ok_readable size g 0 0 Hok ltac:(lia) ltac:(lia)) as Hr.
    unfold cell_readable in Hr.
    destruct (Evaluation.board_get g 0 0) as [v| |]; try discriminate.
    exists v. lia. }
  { exists []. unfold AgentBuilder.ai_board, range, zrange.
    replace (Z.to_nat (size - 0)) with 0%nat by lia. cbn [seq map ofold].
    split; [reflexivity|]. split; [cbn [length]; lia|].
    split; [intros row []|]. split; [intros; lia|]. intros; lia. }
  set (code := fun i j => stone_code BLACK WHITE (cell_or g i j d)).
  set (b := map (fun i => map (code i) (range size)) (range size)).
  assert (length (range size) = Z.to_nat size) as Hlen
      by (unfold range; rewrite length_zrange; f_equal; lia).
  assert (forall i j, 0 <= i < size -> 0 <= j < size ->
            exists v, Evaluation.board_get g i j = Ret v
                      /\ get_cell b i j = Ret (stone_code BLACK WHITE v))
    as Hcell.
  { intros i j Hi Hj.
    pose proof (size_ok_readable size g i j Hok Hi Hj) as Hr.
    unfold cell_readable in Hr.
    destruct (Evaluation.board_get g i j) as [v| |] eqn:Hg; try discriminate.
    exists v. split; [reflexivity|]. unfold get_cell, b.
    rewrite subscript_map_range by exact Hi. cbn [obind].
    rewrite subscript_map_range by exact Hj.
    unfold code, cell_or. rewrite Hg. reflexivity. }
  assert (forall row, In row b -> length row = Z.to_nat size) as Hrows.
  { intros row Hrow. apply in_map_iff in Hrow as (i & <- & _).
    rewrite length_map. exact Hlen. }
  exists b. split; [apply (ai_board_map BLACK WHITE size g d Hok)|].
  split; [unfold b; rewrite length_map; exact Hlen|].
  split; [exact Hrows|]. split; [exact Hcell|].
  intros H15 self rnd i j Hi Hj (v & Hv & Hnb & Hnw).
  assert (grid_ok b = true) as Hgrid.
  { apply is_15x15_grid_ok. unfold is_15x15. apply andb_true_iff. split.
    - apply Nat.eqb_eq. unfold b. rewrite length_map, Hlen, H15. reflexivity.
    - apply forallb_forall. intros row Hrow. apply Nat.eqb_eq.
      rewrite (Hrows row Hrow), H15. reflexivity. }
  assert (forall r c, In (r, c) (empty_cells b) <->
            (0 <= r < 15 /\ 0 <= c < 15) /\ unoccupied BLACK WHITE g r c)
    as Hempty.
  { intros r c. rewrite in_empty_cells, in_board_spec.
    unfold board_size, unoccupied, cell. split.
    - intros [Hb H0]. split; [exact Hb|].
      destruct (Hcell r c ltac:(lia) ltac:(lia)) as (w & Hw & Hget).
      rewrite Hget in H0. exists w. split; [exact Hw|].
      apply stone_code_zero, H0.
    - intros [Hb (w & Hw & Hn)]. split; [exact Hb|].
      destruct (Hcell r c ltac:(lia) ltac:(lia)) as (w' & Hw' & Hget).
      rewrite Hget. apply stone_code_zero. congruence. }
  destruct (get_move_ok (HumanVsAI.current_difficulty self) rnd
              (HumanVsAI.ai_color self) b Hgrid) as (mv & Hmv & Hin).
  { intros He. assert (In (i, j) (empty_cells b)) as Hij.
    { apply Hempty. split; [lia|]. exists v. auto. }
    rewrite He in Hij. exact Hij. }
  exists mv. split; [|destruct mv as [r c]; apply Hempty, Hin].
  unfold AgentBuilder.ai_move.
  rewrite (ai_board_map BLACK WHITE size g d Hok). cbn [obind].
  change (snd (get_move (HumanVsAI.current_difficulty self) rnd
                 (HumanVsAI.ai_color self) b) = Ret mv).
  rewrite Hmv. reflexivity.
Qed.

Lemma ai_board_engine_view_witness :
  size_ok 15 four_in_row_board = true
  /\ exists b,
       AgentBuilder.ai_board 1 2 15 four_in_row_board = Ret b
       /\ length b = Z.to_nat 15.
Proof.
  assert (size_ok 15 four_in_row_board = true) as H by (vm_compute; reflexivity).
  split; [exact H|].
  destruct (ai_board_engine_view 1 2 15 four_in_row_board H)
    as (b & H1 & H2 & _).
  exists b. auto.
Defined.

(** ** The position weight of the Expert tier *)

Lemma weight_antitone_board : weight_antitone_below 99 = true.
Proof. vm_compute. reflexivity. Qed.

Lemma square_le_49 (x : Z) : -7 <= x <= 7 -> 0 <= x ^ 2 <= 49.
Proof. intros H. rewrite Z.pow_2_r. nia. Qed.

Lemma _position_weight_at (row col : Z) :
  _position_weight row col = weight_at ((row - 7) ^ 2 + (col - 7) ^ 2).
Proof. reflexivity. Qed.

(** X23.  The position weight looks at the distance from the centre cell
    (7, 7) only: it is the same on a cell, on its mirror images and on its
    transpose.  On the board it is 70 at the centre, and a cell at least as
    far from the centre as another never has the greater weight. *)
Theorem position_weight_center_first (row col row' col' : Z) :
  in_board row col = true -> in_board row' col' = true ->
  _position_weight (14 - row) col = _position_weight row col
  /\ _position_weight row (14 - col) = _position_weight row col
  /\ _position_weight col row = _position_weight row col
  /\ _position_weight 7 7 = 70%float
  /\ ((row - 7) ^ 2 + (col - 7) ^ 2 <= (row' - 7) ^ 2 + (col' - 7) ^ 2 ->
      PrimFloat.leb (_position_weight row' col') (_position_weight row col)
      = true)
  /\ PrimFloat.leb (_position_weight row col) 70 = true.
Proof.
  intros Hin Hin'.
  assert (forall r c r' c',
            in_board r c = true -> in_board r' c' = true ->
            (r - 7) ^ 2 + (c - 7) ^ 2 <= (r' - 7) ^ 2 + (c' - 7) ^ 2 ->
            PrimFloat.leb (_position_weight r' c') (_position_weight r c)
            = true) as Hmono.
  { intros r c r' c' Hrc Hrc' Hle.
    apply in_board_spec in Hrc, Hrc'. unfold board_size in Hrc, Hrc'.
    rewrite !_position_weight_at.
    pose proof (square_le_49 (r - 7) ltac:(lia)).
    pose proof (square_le_49 (c - 7) ltac:(lia)).
    pose proof (square_le_49 (r' - 7) ltac:(lia)).
    pose proof (square_le_49 (c' - 7) ltac:(lia)).
    pose proof weight_antitone_board as Hw.
    unfold weight_antitone_below in Hw. rewrite forallb_forall in Hw.
    specialize (Hw ((r - 7) ^ 2 + (c - 7) ^ 2) ltac:(apply in_range; lia)).
    rewrite forallb_forall in Hw.
    specialize (Hw ((r' - 7) ^ 2 + (c' - 7) ^ 2) ltac:(apply in_range; lia)).
    rewrite (proj2 (Z.leb_le _ _) Hle) in Hw. exact Hw. }
  assert (forall r c r' c',
            (r - 7) ^ 2 + (c - 7) ^ 2 = (r' - 7) ^ 2 + (c' - 7) ^ 2 ->
            _position_weight r c = _position_weight r' c') as Hsame.
  { intros r c r' c' E. rewrite !_position_weight_at, E. reflexivity. }
  split; [apply Hsame; lia|]. split; [apply Hsame; lia|].
  split; [apply Hsame; lia|]. split; [vm_compute; reflexivity|].
  split; [apply Hmono; assumption|].
  change 70%float with (_position_weight 7 7).
  apply Hmono; [reflexivity|exact Hin|].
  apply in_board_spec in Hin. unfold board_size in Hin.
  pose proof (square_le_49 (row - 7) ltac:(lia)).
  pose proof (square_le_49 (col - 7) ltac:(lia)).
  change ((7 - 7) ^ 2 + (7 - 7) ^ 2) with 0. lia.
Qed.

Lemma position_weight_center_first_witness :
  PrimFloat.leb (_position_weight 3 11) (_position_weight 6 8) = true.
Proof.
  destruct (position_weight_center_first 6 8 3 11 eq_refl eq_refl)
    as (_ & _ & _ & _ & H & _).
  apply H. vm_compute. discriminate.
Defined.

(** ** Grids that do not hold the board *)

Lemma subscript_cases {A} (l : list A) (i : Z) :
  (exists x, subscript l i = Ret x)
  \/ subscript l i = Raise (IndexError GridAccess).
Proof.
  unfold subscript. destruct (0 <=? i); [|right; reflexivity].
  destruct (l !! Z.to_nat i); [left; eauto|right; reflexivity].
Qed.

Lemma get_cell_cases (b : board) (r c : Z) :
  (exists v, get_cell b r c = Ret v)
  \/ get_cell b r c = Raise (IndexError GridAccess).
Proof.
  unfold get_cell. destruct (subscript_cases b r) as [[row ->]| ->];
    cbn [obind]; [apply subscript_cases|right; reflexivity].
Qed.

Lemma ofold_cases {A S} (body : S -> A -> outcome S) (e : exn) (l : list A) :
  (forall s x, (exists s', body s x = Ret s') \/ body s x = Raise e) ->
  forall s, (exists s', ofold body l s = Ret s') \/ ofold body l s = Raise e.
Proof.
  intros H. induction l as [|x l IH]; intros s; cbn [ofold]; [left; eauto|].
  destruct (H s x) as [[s' ->]| ->]; cbn [obind]; [apply IH|right; reflexivity].
Qed.

Lemma _get_empty_positions_misshapen (b : board) :
  grid_ok b = false ->
  _get_empty_positions b = Raise (IndexError GridAccess).
Proof.
  intros Hbad.
  destruct (ofold_cases
              (fun positions i =>
                 ofold (fun positions j =>
                          obind (get_cell b i j) (fun v =>
                            if v =? 0 then Ret (positions ++ [(i, j)])
                            else Ret positions))
                       (range board_size) positions)
              (IndexError GridAccess) (range board_size)) with (s := @nil move)
    as [[l Hl]|Hr].
  - intros s i. apply ofold_cases. intros s' j.
    destruct (get_cell_cases b i j) as [[v ->]| ->]; cbn [obind];
      [left; destruct (v =? 0); eauto|right; reflexivity].
  - apply _get_empty_positions_Ret_grid_ok in Hl. congruence.
  - exact Hr.
Qed.

(** X24.  On a grid that does not hold the board, the Beginner,
    Intermediate and Advance tiers read the grid before anything else:
    [get_move] raises the [IndexError] of the cell that is missing and
    leaves the grid as it was.  The Expert tier starts by trying stones:
    on the grid of the single cell [[0]] it raises with its stone left on
    the cell. *)
Theorem get_move_misshapen_grid (t : AIDifficulty) (g : rng) (player : Z)
    (b : board) :
  grid_ok b = false -> t <> EXPERT ->
  get_move t g player b = (b, Raise (IndexError GridAccess))
  /\ get_move EXPERT g player [[0]]
     = ([[player]], Raise (IndexError GridAccess)).
Proof.
  intros Hbad Ht. split; [|reflexivity].
  pose proof (_get_empty_positions_misshapen b Hbad) as He.
  assert (_get_candidate_moves b = Raise (IndexError GridAccess)) as Hc
      by (unfold _get_candidate_moves; rewrite He; reflexivity).
  destruct t; cbn [get_move]; [| | |congruence].
  - unfold _beginner_move. rewrite read_bind, He. reflexivity.
  - unfold _intermediate_move. rewrite read_bind, Hc. reflexivity.
  - unfold _advance_move. rewrite read_bind, Hc. reflexivity.
Qed.

Lemma get_move_misshapen_grid_witness :
  get_move ADVANCE sample_rng 1 [[0; 1]; [2]]
  = ([[0; 1]; [2]], Raise (IndexError GridAccess)).
Proof.
  apply (get_move_misshapen_grid ADVANCE sample_rng 1 [[0; 1]; [2]]);
    [reflexivity|discriminate].
Defined.

(** ** The search of the Expert tier *)

Lemma priority_moves_cut (b : board) (p : Z) (mv x : move) :
  In mv (candidates b) -> ~ In mv (priority_moves b p) ->
  In x (priority_moves b p) ->
  move_threat b mv p <= move_threat b x p.
Proof.
  intros Hmv Hout Hx.
  set (scored := map (fun mv => (move_threat b mv p, mv)) (candidates b)).
  assert (StronglySorted scored_before (sort_desc scored)) as Hsorted
      by (apply sort_desc_sorted, candidates_sorted).
  rewrite <- (take_drop 10 (sort_desc scored)) in Hsorted.
  apply sorted_app_inv in Hsorted as [_ Hcross].
  unfold priority_moves in Hx, Hout. fold scored in Hx, Hout.
  apply in_map_iff in Hx as (sx & <- & Hsx).
  assert (fst sx = move_threat b (snd sx) p) as Hfst.
  { assert (In sx (sort_desc scored)) as Hin.
    { rewrite <- (take_drop 10 (sort_desc scored)).
      apply in_or_app. left; exact Hsx. }
    apply (proj1 (in_sort_desc _ _)) in Hin.
    apply in_map_iff in Hin as (y & <- & _). reflexivity. }
  assert (In (move_threat b mv p, mv) (sort_desc scored)) as Hin.
  { apply in_sort_desc. unfold scored. apply in_map_iff. eauto. }
  rewrite <- (take_drop 10 (sort_desc scored)) in Hin.
  apply in_app_or in Hin as [Hin|Hin].
  - exfalso. apply Hout. apply in_map_iff.
    exists (move_threat b mv p, mv). auto.
  - specialize (Hcross _ _ Hsx Hin). unfold scored_before in Hcross.
    cbn [fst snd] in Hcross. rewrite Hfst in Hcross. lia.
Qed.

Lemma _enhanced_minimax_move_priority (p : Z) (b : board) :
  grid_ok b = true -> empty_cells b <> [] ->
  exists mv,
    _enhanced_minimax_move p b = (b, Ret mv) /\ In mv (priority_moves b p).
Proof.
  intros Hok Hne. unfold _enhanced_minimax_move.
  rewrite (mbind_step _ _ _ _ _ (_get_priority_moves_ok p b Hok)).
  destruct (mfold_inv (best_among (priority_moves b p)) (expert_step p)
              (priority_moves b p) b) with (s := (neg_infinity, @None move))
    as (best & Hbest & Hamong).
  - intros s mv Hmv Hs.
    apply expert_step_ok; [exact Hok| |exact Hmv|exact Hs].
    apply candidates_empty, (priority_moves_candidates _ p), Hmv.
  - exact I.
  - rewrite (mbind_step _ _ _ _ _ Hbest).
    apply best_or_first_ok; [|exact Hamong].
    apply priority_moves_nonempty, candidates_nonempty, Hne.
Qed.

(** X25.  On a grid that holds the board and has an empty cell, the search
    of the Expert tier, [_enhanced_minimax_move], gives the grid back and
    returns one of the moves of [_get_priority_moves], ten at most: no
    candidate that the ranking left out has a higher threat score, as
    [_evaluate_move_threat] computes it, than the move returned. *)
Theorem expert_search_among_priority (current_player : Z) (b : board) :
  grid_ok b = true -> empty_cells b <> [] ->
  exists candidate_moves priority_moves mv,
    _get_candidate_moves b = Ret candidate_moves
    /\ _get_priority_moves current_player b = (b, Ret priority_moves)
    /\ _enhanced_minimax_move current_player b = (b, Ret mv)
    /\ In mv priority_moves
    /\ (length priority_moves <= 10)%nat
    /\ forall x s_x s_mv,
         In x candidate_moves -> ~ In x priority_moves ->
         _evaluate_move_threat x current_player b = (b, Ret s_x) ->
         _evaluate_move_threat mv current_player b = (b, Ret s_mv) ->
         s_x <= s_mv.
Proof.
  intros Hok Hne.
  destruct (_enhanced_minimax_move_priority current_player b Hok Hne)
    as (mv & Hmv & Hin).
  exists (candidates b), (priority_moves b current_player), mv.
  split; [apply _get_candidate_moves_ok, Hok|].
  split; [apply _get_priority_moves_ok, Hok|].
  split; [exact Hmv|]. split; [exact Hin|]. split.
  - unfold priority_moves. rewrite length_map, length_take. lia.
  - intros x s_x s_mv Hx Hout Hsx Hsmv.
    rewrite _evaluate_move_threat_ok in Hsx
      by (try apply candidates_empty; assumption).
    rewrite _evaluate_move_threat_ok in Hsmv
      by (try apply candidates_empty;
          try apply (priority_moves_candidates _ current_player); assumption).
    injection Hsx as <-. injection Hsmv as <-.
    apply priority_moves_cut; assumption.
Qed.

Lemma expert_search_among_priority_witness :
  grid_ok four_in_row_board = true
  /\ empty_cells four_in_row_board <> []
  /\ exists priority_moves mv,
       _get_priority_moves 1 four_in_row_board
       = (four_in_row_board, Ret priority_moves)
       /\ _enhanced_minimax_move 1 four_in_row_board
          = (four_in_row_board, Ret mv)
       /\ In mv priority_moves.
Proof.
  assert (grid_ok four_in_row_board = true) as H by (vm_compute; reflexivity).
  assert (empty_cells four_in_row_board <> []) as Hne
      by (vm_compute; discriminate).
  split; [exact H|]. split; [exact Hne|].
  destruct (expert_search_among_priority 1 four_in_row_board H Hne)
    as (c & l & mv & _ & Hl & Hmv & Hin & _).
  exists l, mv. auto.
Defined.
